(** * Gopher2600: the cycle stepper, the TIA color-clock step, the cartridge
    patcher and the hand controller, embedded shallowly and checked against
    the written specification.

    Layout:
    - [GoLib]      the Go standard-library functions the sources call
                   (strings.Split, strings.TrimSpace, strconv.ParseInt, ...);
    - [Patch]      patch.CartridgeMemory;
    - [Input]      input.HandController.Handle;
    - [TIA]        tia.TIA.Step;
    - [Hardware]   hardware.VCS.Step;
    - [Closure]    hardware.VCS.Step with a callback that can change the VCS;
    - [Cartridge]  cartridge.RAMinfo;
    - [Setup]      setup.PanelSetup and its database entry;
    - [ScreenDigest] screendigest.SHA1;
    - [HandControllers] the other methods of input.HandController;
    - [TIAMethods] agreement of two implementations of the TIA's subsystems;
    - [PatchFormat] the bytes of a patch file.

    The theorems follow the definitions, one module for each package.      *)

From Stdlib Require Import ZArith List String Ascii Bool Lia.
Import ListNotations.

Local Open Scope Z_scope.

(* ===================================================================== *)
(** * Go library functions used by the sources                            *)
(* ===================================================================== *)

Module GoLib.

(** A Go string is a sequence of bytes: [string] over 8-bit [ascii]. *)
Definition byteVal (c : ascii) : Z := Z.of_nat (nat_of_ascii c).

(** Conversions to the unsigned fixed-width types. *)
Definition uint8 (n : Z) : Z := n mod 256.
Definition uint16 (n : Z) : Z := n mod 65536.

(** [x++] on a Go [int] (64 bits, two's complement). *)
Definition wrapInt (n : Z) : Z := (n + 2 ^ 63) mod 2 ^ 64 - 2 ^ 63.

(** strings.Split(s, sep) for a separator of one byte: the pieces between
    the occurrences of [sep]; always at least one piece. *)
Fixpoint Split (s : string) (sep : ascii) : list string :=
  match s with
  | EmptyString => [EmptyString]
  | String c r =>
      if Ascii.eqb c sep then EmptyString :: Split r sep
      else match Split r sep with
           | h :: t => String c h :: t
           | [] => [String c EmptyString]
           end
  end.

(** The ASCII white space of package strings: tab, newline, vertical tab,
    form feed, carriage return, space. *)
Definition asciiSpace (c : ascii) : bool :=
  let n := byteVal c in ((9 <=? n) && (n <=? 13)) || (n =? 32).

(** unicode.IsSpace(rune(b)) for a single byte [b]: the rune is in the
    Latin-1 range, where the spaces are the ASCII ones, U+0085 and U+00A0. *)
Definition IsSpaceByte (c : ascii) : bool :=
  let n := byteVal c in asciiSpace c || (n =? 133) || (n =? 160).

(** The UTF-8 encodings of the white space runes above U+007F
    (U+0085, U+00A0, U+1680, U+2000..U+200A, U+2028, U+2029, U+202F,
    U+205F, U+3000). *)
Definition unicodeSpaces : list (list Z) :=
  [ [194; 133]; [194; 160]; [225; 154; 128];
    [226; 128; 128]; [226; 128; 129]; [226; 128; 130]; [226; 128; 131];
    [226; 128; 132]; [226; 128; 133]; [226; 128; 134]; [226; 128; 135];
    [226; 128; 136]; [226; 128; 137]; [226; 128; 138];
    [226; 128; 168]; [226; 128; 169]; [226; 128; 175];
    [226; 129; 159]; [227; 128; 128] ].

Fixpoint dropPrefix (p : list Z) (s : list ascii) : option (list ascii) :=
  match p, s with
  | [], _ => Some s
  | b :: p', c :: s' => if byteVal c =? b then dropPrefix p' s' else None
  | _ :: _, [] => None
  end.

Fixpoint dropAnyPrefix (ps : list (list Z)) (s : list ascii)
  : option (list ascii) :=
  match ps with
  | [] => None
  | p :: ps' => match dropPrefix p s with
                | Some r => Some r
                | None => dropAnyPrefix ps' s
                end
  end.

(** One white space rune removed from the front, if there is one. *)
Definition dropSpace (seqs : list (list Z)) (s : list ascii)
  : option (list ascii) :=
  match s with
  | [] => None
  | c :: r => if asciiSpace c then Some r else dropAnyPrefix seqs s
  end.

Fixpoint trimFront (fuel : nat) (seqs : list (list Z)) (s : list ascii)
  : list ascii :=
  match fuel with
  | O => s
  | S f => match dropSpace seqs s with
           | Some r => trimFront f seqs r
           | None => s
           end
  end.

(** strings.TrimSpace: all leading and trailing white space (as defined by
    Unicode) removed.  The trailing side is the leading side of the reversed
    string, with the encodings reversed. *)
Definition TrimSpace (s : string) : string :=
  let l := list_ascii_of_string s in
  let l1 := trimFront (List.length l) unicodeSpaces l in
  let r1 := List.rev l1 in
  let r2 := trimFront (List.length r1) (List.map (@List.rev Z) unicodeSpaces) r1 in
  string_of_list_ascii (List.rev r2).

(** A digit of strconv.ParseUint in base 16: '0'..'9', or a letter (folded
    to lower case by [c | 0x20]) whose value is below the base. *)
Definition hexDigit (c : ascii) : option Z :=
  let n := byteVal c in
  if (48 <=? n) && (n <=? 57) then Some (n - 48)
  else
    let l := Z.lor n 32 in
    if (97 <=? l) && (l <=? 122) then
      if l - 97 + 10 <? 16 then Some (l - 97 + 10) else None
    else None.

Fixpoint hexDigits (s : string) (acc : Z) : option Z :=
  match s with
  | EmptyString => Some acc
  | String c r =>
      match hexDigit c with
      | Some d => hexDigits r (acc * 16 + d)
      | None => None
      end
  end.

(** The digits of a non-empty string, base 16; [None] is a syntax error. *)
Definition parseHex (s : string) : option Z :=
  match s with
  | EmptyString => None
  | _ => hexDigits s 0
  end.

(** strconv.ParseUint(s, 16, 8): [None] stands for a non-nil error (syntax
    or range). *)
Definition ParseUint8 (s : string) : option Z :=
  match parseHex s with
  | Some v => if v <=? 255 then Some v else None
  | None => None
  end.

(** strconv.ParseInt(s, 16, 16): an optional sign, then the digits; the
    value must fit a signed 16-bit integer. *)
Definition ParseInt16 (s : string) : option Z :=
  match s with
  | EmptyString => None
  | String c r =>
      let neg := Ascii.eqb c "-"%char in
      let digits := if Ascii.eqb c "+"%char || neg then r else s in
      match parseHex digits with
      | None => None
      | Some un =>
          if negb neg && (32768 <=? un) then None
          else if neg && (32768 <? un) then None
          else Some (if neg then - un else un)
      end
  end.

End GoLib.

(* ===================================================================== *)
(** * package patch                                                       *)
(* ===================================================================== *)

Module Patch.
Import GoLib.

Definition commentLeader : ascii := "-"%char.
Definition pokeLineSeparator : ascii := ":"%char.
Definition newline : ascii := "010"%char.

(** What opening and reading the patch file gives: the resource path cannot
    be built, the file is not found, another error on opening, the seek to
    the start fails, or the bytes of the file. *)
Inductive PatchFile : Type :=
| NoResourcePath
| FileNotFound
| OpenFails
| SeekFails
| Contents (buffer : string).

Section Patcher.

(** The cartridge and its mapper's [patch(offset uint16, data uint8) error]
    (the cartMapper interface); [E] is the mapper's error. *)
Variable Cart : Type.
Variable E : Type.
Variable cartPatch : Cart -> Z -> Z -> Cart * option E.

Inductive PatchErr : Type :=
| PatchError_path
| PatchError_notFound
| PatchError_open
| SeekError
| PatchError (cause : E).

(** The inner loop of CartridgeMemory, over the fields of the values part.
    The state is the cartridge, the [patched] flag and [address]; a mapper
    error leaves the loop and the function. *)
Fixpoint patchValues (values : list string) (address : Z)
         (mem : Cart) (patched : bool)
  : Cart * bool * Z * option PatchErr :=
  match values with
  | [] => (mem, patched, address, None)
  | field :: rest =>
      let v := TrimSpace field in
      if String.eqb v "" then patchValues rest address mem patched
      else
        match ParseUint8 v with
        | None => patchValues rest address mem patched
        | Some b =>
            match cartPatch mem (uint16 address) (uint8 b) with
            | (mem', Some err) => (mem', patched, address, Some (PatchError err))
            | (mem', None) => patchValues rest (address + 1) mem' true
            end
        end
  end.

(** One turn of the outer loop: the line is ignored, or its values are
    patched in. *)
Definition patchLine (line : string) (mem : Cart) (patched : bool)
  : Cart * bool * option PatchErr :=
  match line with
  | EmptyString => (mem, patched, None)
  | String c0 _ =>
      if Ascii.eqb c0 commentLeader || IsSpaceByte c0 then (mem, patched, None)
      else
        match Split line pokeLineSeparator with
        | [p0; p1] =>
            match ParseInt16 (TrimSpace p0) with
            | None => (mem, patched, None)
            | Some address =>
                let '(mem', patched', _, err) :=
                  patchValues (Split (TrimSpace p1) " "%char) address mem patched in
                (mem', patched', err)
            end
        | _ => (mem, patched, None)
        end
  end.

(** The outer loop, over the lines of the file. *)
Fixpoint patchLines (lines : list string) (mem : Cart) (patched : bool)
  : Cart * bool * option PatchErr :=
  match lines with
  | [] => (mem, patched, None)
  | line :: rest =>
      match patchLine line mem patched with
      | (mem', patched', Some err) => (mem', patched', Some err)
      | (mem', patched', None) => patchLines rest mem' patched'
      end
  end.

(** patch.CartridgeMemory: the cartridge after the call, the boolean result
    and the error. *)
Definition CartridgeMemory (mem : Cart) (file : PatchFile)
  : Cart * bool * option PatchErr :=
  match file with
  | NoResourcePath => (mem, false, Some PatchError_path)
  | FileNotFound => (mem, false, Some PatchError_notFound)
  | OpenFails => (mem, false, Some PatchError_open)
  | SeekFails => (mem, false, Some SeekError)
  | Contents buffer => patchLines (Split buffer newline) mem false
  end.

End Patcher.

Arguments PatchErr : clear implicits.
Arguments PatchError_path {E}.
Arguments PatchError_notFound {E}.
Arguments PatchError_open {E}.
Arguments SeekError {E}.
Arguments PatchError {E} cause.
Arguments patchValues {Cart E} cartPatch values address mem patched.
Arguments patchLine {Cart E} cartPatch line mem patched.
Arguments patchLines {Cart E} cartPatch lines mem patched.
Arguments CartridgeMemory {Cart E} cartPatch mem file.

(** A cartridge of one bank held as a list of bytes; patching beyond its
    end is the mapper's error. *)
Definition RomCart : Type := list Z.

Fixpoint romSet (rom : RomCart) (offset : nat) (data : Z) : RomCart :=
  match rom, offset with
  | [], _ => []
  | _ :: r, O => data :: r
  | b :: r, S n => b :: romSet r n data
  end.

Definition romPatch (rom : RomCart) (offset data : Z) : RomCart * option unit :=
  if offset <? Z.of_nat (List.length rom)
  then (romSet rom (Z.to_nat offset) data, None)
  else (rom, Some tt).

(** ** The patch file as the specification describes it

    A line is ignored (blank, comment, leading white space), or it is a poke
    line with an address and values.  [lineWrites] are the (offset, byte)
    pairs a line asks for and [applyWrites] hands them to the mapper. *)

Definition ignoredLine (line : string) : bool :=
  match line with
  | EmptyString => true
  | String c0 _ => Ascii.eqb c0 commentLeader || IsSpaceByte c0
  end.

(** The value fields that are hexadecimal bytes, in order. *)
Fixpoint parsedValues (fields : list string) : list Z :=
  match fields with
  | [] => []
  | field :: rest =>
      match ParseUint8 (TrimSpace field) with
      | Some b => b :: parsedValues rest
      | None => parsedValues rest
      end
  end.

(** Consecutive offsets from [address], one per value. *)
Fixpoint consecutive (address : Z) (vals : list Z) : list (Z * Z) :=
  match vals with
  | [] => []
  | v :: rest => (uint16 address, uint8 v) :: consecutive (address + 1) rest
  end.

(** The address and values of a poke line; [None] for a line that is
    ignored, has no single colon or has no readable address. *)
Definition pokeLine (line : string) : option (Z * list Z) :=
  if ignoredLine line then None
  else
    match Split line pokeLineSeparator with
    | [p0; p1] =>
        match ParseInt16 (TrimSpace p0) with
        | Some address =>
            Some (address, parsedValues (Split (TrimSpace p1) " "%char))
        | None => None
        end
    | _ => None
    end.

Definition lineWrites (line : string) : list (Z * Z) :=
  match pokeLine line with
  | Some (address, vals) => consecutive address vals
  | None => []
  end.

Definition fileWrites (buffer : string) : list (Z * Z) :=
  flat_map lineWrites (Split buffer newline).

(** The writes handed to the mapper one after the other, until one fails;
    [applied] counts the bytes applied. *)
Fixpoint applyWrites {Cart E : Type} (cartPatch : Cart -> Z -> Z -> Cart * option E)
         (ws : list (Z * Z)) (mem : Cart) (applied : nat)
  : Cart * nat * option E :=
  match ws with
  | [] => (mem, applied, None)
  | (offset, data) :: rest =>
      match cartPatch mem offset data with
      | (mem', Some err) => (mem', applied, Some err)
      | (mem', None) => applyWrites cartPatch rest mem' (S applied)
      end
  end.

(** The state a loop of the patcher reaches, from the result of handing the
    same writes to the mapper one after the other: the flag is set when a
    byte was applied. *)
Definition loopResult {Cart E : Type} (patched : bool) (r : Cart * nat * option E)
  : Cart * bool * option (PatchErr E) :=
  let '(mem', n, err) := r in
  (mem', patched || negb (Nat.eqb n 0), option_map PatchError err).

(** A value field that is neither empty nor a hexadecimal byte. *)
Definition badValue (field : string) : bool :=
  let v := TrimSpace field in
  negb (String.eqb v "") &&
  match ParseUint8 v with Some _ => false | None => true end.

(** A malformed line in the words of the specification: no single colon, an
    unparseable address, or an unparseable value. *)
Definition malformedLine (line : string) : bool :=
  match Split line pokeLineSeparator with
  | [p0; p1] =>
      match ParseInt16 (TrimSpace p0) with
      | Some _ => existsb badValue (Split (TrimSpace p1) " "%char)
      | None => true
      end
  | _ => true
  end.

(** The bytes that make Go's [unicode.IsSpace(rune(b))] true for a byte [b]:
    tab, newline, vertical tab, form feed, carriage return, space, 0x85 and
    0xA0. *)
Definition spaceBytes : list Z := [9; 10; 11; 12; 13; 32; 133; 160].

(** The writes of a line in the words of the specification: a blank line, a
    comment (first character '-') and a malformed line give none; any other
    line gives its values at consecutive offsets from its address, white
    space outside the colon being insignificant. *)
Definition claimedWrites (line : string) : list (Z * Z) :=
  match line with
  | EmptyString => []
  | String c0 _ =>
      if Ascii.eqb c0 commentLeader then []
      else if malformedLine line then []
      else
        match Split line pokeLineSeparator with
        | [p0; p1] =>
            match ParseInt16 (TrimSpace p0) with
            | Some address =>
                consecutive address (parsedValues (Split (TrimSpace p1) " "%char))
            | None => []
            end
        | _ => []
        end
  end.

End Patch.

(* ===================================================================== *)
(** * package input: the hand controller                                  *)
(* ===================================================================== *)

Module Input.
Import GoLib.

(** The events a port can be sent; [OtherEvent] stands for the values of
    the Event type that are not hand-controller events (panel events). *)
Inductive Event : Type :=
| NoEvent | Left | Right | Up | Down | Fire
| PaddleFire | PaddleSet
| KeyboardDown | KeyboardUp
| Unplug
| OtherEvent (n : Z).

Inductive PortID : Type := HandControllerZeroID | HandControllerOneID | PanelID.

(** The two chip memories a hand controller writes to. *)
Inductive ChipMem : Type := riot | tia.

Section HandControllers.

(** float32 and the subtraction [1.0 - f]. *)
Variable F : Type.
Variable oneMinus : F -> F.

(** An EventValue is an empty interface: the dynamic types that occur. *)
Inductive EventValue : Type :=
| VNil
| VBool (b : bool)
| VFloat32 (f : F)
| VRune (r : Z)
| VOther (typeName : string).

(** inputMemory and the call [InputDeviceWrite(addr, data, mask)] on one of
    its two chip buses. *)
Variable Mem : Type.
Variable InputDeviceWrite : ChipMem -> Z -> Z -> Z -> Mem -> Mem.

(** The EventRecorder attached to a port and its RecordEvent method. *)
Variable Recorder : Type.
Variable RecErr : Type.
Variable RecordEvent :
  Recorder -> PortID -> Event -> EventValue -> Recorder * option RecErr.

Inductive InputError : Type :=
| BadInputEventType (ev : Event) (expected : string)
| InputDeviceUnplugged (id : PortID)
| UnknownInputEvent (id : PortID) (ev : Event)
| RecordingFailed (err : RecErr).

Record stick : Type := mkStick {
  stick_addr : Z;
  stick_buttonAddr : Z;
  axis : Z;
  button : bool;
  transform : Z -> Z;
  stick_addrMask : Z }.

Record paddle : Type := mkPaddle {
  paddle_addr : Z;
  paddle_buttonAddr : Z;
  buttonMask : Z;
  charge : Z;
  resistance : F;
  ticks : F }.

Record keyboard : Type := mkKeyboard {
  keyboard_addr : Z;
  key : Z }.

Record HandController : Type := mkHandController {
  id : PortID;
  recorder : option Recorder;
  mem : Mem;
  latchFireButton : bool;
  hc_stick : stick;
  hc_paddle : paddle;
  hc_keyboard : keyboard;
  ddr : Z }.

Definition set_axis (a : Z) (hc : HandController) : HandController :=
  let s := hc_stick hc in
  mkHandController (id hc) (recorder hc) (mem hc) (latchFireButton hc)
    (mkStick (stick_addr s) (stick_buttonAddr s) a (button s) (transform s)
             (stick_addrMask s))
    (hc_paddle hc) (hc_keyboard hc) (ddr hc).

Definition set_button (b : bool) (hc : HandController) : HandController :=
  let s := hc_stick hc in
  mkHandController (id hc) (recorder hc) (mem hc) (latchFireButton hc)
    (mkStick (stick_addr s) (stick_buttonAddr s) (axis s) b (transform s)
             (stick_addrMask s))
    (hc_paddle hc) (hc_keyboard hc) (ddr hc).

Definition set_resistance (f : F) (hc : HandController) : HandController :=
  let p := hc_paddle hc in
  mkHandController (id hc) (recorder hc) (mem hc) (latchFireButton hc)
    (hc_stick hc)
    (mkPaddle (paddle_addr p) (paddle_buttonAddr p) (buttonMask p) (charge p)
              f (ticks p))
    (hc_keyboard hc) (ddr hc).

Definition set_key (k : Z) (hc : HandController) : HandController :=
  mkHandController (id hc) (recorder hc) (mem hc) (latchFireButton hc)
    (hc_stick hc) (hc_paddle hc)
    (mkKeyboard (keyboard_addr (hc_keyboard hc)) k) (ddr hc).

Definition set_mem (m : Mem) (hc : HandController) : HandController :=
  mkHandController (id hc) (recorder hc) m (latchFireButton hc)
    (hc_stick hc) (hc_paddle hc) (hc_keyboard hc) (ddr hc).

Definition set_recorder (r : option Recorder) (hc : HandController)
  : HandController :=
  mkHandController (id hc) r (mem hc) (latchFireButton hc)
    (hc_stick hc) (hc_paddle hc) (hc_keyboard hc) (ddr hc).

(** The rune of a one-byte character literal. *)
Definition rune (c : ascii) : Z := byteVal c.

(** The axis cases Left, Right, Up and Down: [axis ^= bit] when the value is
    true, [axis |= bit] when it is false, then the write to the stick
    address. *)
Definition moveAxis (bit : Z) (b : bool) (hc : HandController)
  : HandController :=
  let a := if b then Z.lxor (axis (hc_stick hc)) bit
           else Z.lor (axis (hc_stick hc)) bit in
  let hc1 := set_axis a hc in
  let s := hc_stick hc1 in
  set_mem (InputDeviceWrite riot (stick_addr s) (transform s (axis s))
                            (stick_addrMask s) (mem hc1)) hc1.

(** The test of the KeyboardDown case, as the source writes it. *)
Definition keyAccepted (v : Z) : bool :=
  negb ((negb (v =? rune "1")) && (negb (v =? rune "2")) && (negb (v =? rune "3"))
        && (negb (v =? rune "4")) && (negb (v =? rune "5")) && (negb (v =? rune "6"))
        && (negb (v =? rune "7")) && (negb (v =? rune "8")) && (negb (v =? rune "9"))
        && (negb (v =? rune "*")) && (negb (v =? rune "#"))).

(** The end of Handle: the event is recorded when a recorder is attached. *)
Definition recordEvent (hc : HandController) (event : Event) (value : EventValue)
  : HandController * option InputError :=
  match recorder hc with
  | Some rec =>
      let '(rec', err) := RecordEvent rec (id hc) event value in
      (set_recorder (Some rec') hc, option_map RecordingFailed err)
  | None => (hc, None)
  end.

(** HandController.Handle: the controller after the call and the error. *)
Definition Handle (hc : HandController) (event : Event) (value : EventValue)
  : HandController * option InputError :=
  match event with
  | NoEvent => (hc, None)
  | Left =>
      match value with
      | VBool b => recordEvent (moveAxis 64 b hc) event value
      | _ => (hc, Some (BadInputEventType event "bool"))
      end
  | Right =>
      match value with
      | VBool b => recordEvent (moveAxis 128 b hc) event value
      | _ => (hc, Some (BadInputEventType event "bool"))
      end
  | Up =>
      match value with
      | VBool b => recordEvent (moveAxis 16 b hc) event value
      | _ => (hc, Some (BadInputEventType event "bool"))
      end
  | Down =>
      match value with
      | VBool b => recordEvent (moveAxis 32 b hc) event value
      | _ => (hc, Some (BadInputEventType event "bool"))
      end
  | Fire =>
      match value with
      | VBool b =>
          let hc1 := set_button b hc in
          let s := hc_stick hc1 in
          let hc2 :=
            if button s then
              set_mem (InputDeviceWrite tia (stick_buttonAddr s) 0 0 (mem hc1)) hc1
            else if negb (latchFireButton hc1) then
              set_mem (InputDeviceWrite tia (stick_buttonAddr s) 128 0 (mem hc1)) hc1
            else hc1 in
          recordEvent hc2 event value
      | _ => (hc, Some (BadInputEventType event "bool"))
      end
  | PaddleFire =>
      match value with
      | VBool b =>
          let v := if b then 0 else 255 in
          let p := hc_paddle hc in
          recordEvent
            (set_mem (InputDeviceWrite riot (paddle_buttonAddr p) v (buttonMask p)
                                       (mem hc)) hc)
            event value
      | _ => (hc, Some (BadInputEventType event "bool"))
      end
  | PaddleSet =>
      match value with
      | VFloat32 f => recordEvent (set_resistance (oneMinus f) hc) event value
      | _ => (hc, Some (BadInputEventType event "float32"))
      end
  | KeyboardDown =>
      match value with
      | VRune v =>
          if keyAccepted v then recordEvent (set_key v hc) event value
          else (hc, Some (BadInputEventType event "numeric rune or '*' or '#'"))
      | _ => (hc, Some (BadInputEventType event "rune"))
      end
  | KeyboardUp =>
      match value with
      | VNil => recordEvent (set_key (rune " ") hc) event value
      | _ => (hc, Some (BadInputEventType event "nil"))
      end
  | Unplug => (hc, Some (InputDeviceUnplugged (id hc)))
  | OtherEvent _ => (hc, Some (UnknownInputEvent (id hc) event))
  end.

(** The keys of the keypad as the specification lists them:
    '0'..'9', '*' and '#'. *)
Definition keypadRune (v : Z) : bool :=
  ((rune "0" <=? v) && (v <=? rune "9")) || (v =? rune "*") || (v =? rune "#").

End HandControllers.

Arguments VNil {F}.
Arguments VBool {F} b.
Arguments VFloat32 {F} f.
Arguments VRune {F} r.
Arguments VOther {F} typeName.
Arguments BadInputEventType {RecErr} ev expected.
Arguments InputDeviceUnplugged {RecErr} id.
Arguments UnknownInputEvent {RecErr} id ev.
Arguments RecordingFailed {RecErr} err.
Arguments Handle {F} oneMinus {Mem} InputDeviceWrite {Recorder RecErr} RecordEvent
  hc event value.
Arguments hc_keyboard {F Mem Recorder} h.
Arguments recorder {F Mem Recorder} h.
Arguments set_key {F Mem Recorder} k hc.

End Input.

(* ===================================================================== *)
(** * package errors                                                      *)
(* ===================================================================== *)

Module Errors.

(** Modelled from the spec: the list of error numbers with TVOutOfSpec is not
    among the sources; section 7 of the specification gives the kinds
    (only those named there for the television, the debugger and the power
    switch are listed, [OtherErrno] stands for the rest). *)
Inductive Errno : Type :=
| UserInterrupt | ScriptEnd | PowerOff
| UnknownTVRequest | TVOutOfSpec
| OtherErrno (n : nat).

Definition Errno_eqb (a b : Errno) : bool :=
  match a, b with
  | UserInterrupt, UserInterrupt => true
  | ScriptEnd, ScriptEnd => true
  | PowerOff, PowerOff => true
  | UnknownTVRequest, UnknownTVRequest => true
  | TVOutOfSpec, TVOutOfSpec => true
  | OtherErrno n, OtherErrno m => Nat.eqb n m
  | _, _ => false
  end.

(** A Go error value: one of the emulator's own errors, made by errors.New
    with an error number, or any other error. *)
Inductive GoError : Type :=
| AtariError (errno : Errno) (message : string)
| PlainError (message : string).

(** Modelled from the spec: errors.Is(err, errno) is not among the sources;
    an error is of a kind when it is one of the emulator's errors with that
    error number. *)
Definition Is (err : GoError) (head : Errno) : bool :=
  match err with
  | AtariError e _ => Errno_eqb e head
  | PlainError _ => false
  end.

End Errors.

(* ===================================================================== *)
(** * package tia: the color-clock step                                   *)
(* ===================================================================== *)

Module TIA.
Import GoLib Errors.

(** Modelled from the spec: the phase clock (package phaseclock) is not among
    the sources.  Two phases, each with a rising and a falling edge, one
    edge per color clock; with 57 counts of the HSYNC counter this gives the
    228 color clocks of a scanline. *)
Inductive PhaseClock : Type :=
| risingPhi1 | fallingPhi1 | risingPhi2 | fallingPhi2.

Definition pclkTick (clk : PhaseClock) : PhaseClock :=
  match clk with
  | risingPhi1 => fallingPhi1
  | fallingPhi1 => risingPhi2
  | risingPhi2 => fallingPhi2
  | fallingPhi2 => risingPhi1
  end.

Definition Phi2 (clk : PhaseClock) : bool :=
  match clk with risingPhi2 => true | _ => false end.

(** Modelled from the spec: the HSYNC counter (package polycounter) is not
    among the sources.  A counter that Tick advances by one, Reset puts back
    to zero and Count reads. *)
Definition Polycounter : Type := Z.
Definition hsyncTick (c : Polycounter) : Polycounter := c + 1.
Definition hsyncReset (c : Polycounter) : Polycounter := 0.
Definition Count (c : Polycounter) : Z := c.

(** The payloads the step schedules on the delay queue: the methods
    tia.newScanline, tia._futureResetHSYNC, tia._futureResetColorBurst and
    tia._futureResetHBlank. *)
Inductive Payload : Type :=
| newScanline
| futureResetHSYNC
| futureResetColorBurst
| futureResetHBlank.

(** television.SignalAttributes; ColorSignal is an integer type. *)
Definition ColorSignal : Type := Z.

Record SignalAttributes : Type := mkSignal {
  VSync : bool;
  VBlank : bool;
  CBurst : bool;
  HSync : bool;
  Pixel : ColorSignal;
  AltPixel : ColorSignal;
  AudioUpdate : bool;
  AudioData : Z;
  HSyncSimple : bool }.

Definition set_HSync (b : bool) (s : SignalAttributes) : SignalAttributes :=
  mkSignal (VSync s) (VBlank s) (CBurst s) b (Pixel s) (AltPixel s)
           (AudioUpdate s) (AudioData s) (HSyncSimple s).

Definition set_Pixel (p : ColorSignal) (s : SignalAttributes) : SignalAttributes :=
  mkSignal (VSync s) (VBlank s) (CBurst s) (HSync s) p (AltPixel s)
           (AudioUpdate s) (AudioData s) (HSyncSimple s).

Definition set_AltPixel (p : ColorSignal) (s : SignalAttributes) : SignalAttributes :=
  mkSignal (VSync s) (VBlank s) (CBurst s) (HSync s) (Pixel s) p
           (AudioUpdate s) (AudioData s) (HSyncSimple s).

Definition set_Audio (u : bool) (d : Z) (s : SignalAttributes) : SignalAttributes :=
  mkSignal (VSync s) (VBlank s) (CBurst s) (HSync s) (Pixel s) (AltPixel s)
           u d (HSyncSimple s).

Definition set_HSyncSimple (b : bool) (s : SignalAttributes) : SignalAttributes :=
  mkSignal (VSync s) (VBlank s) (CBurst s) (HSync s) (Pixel s) (AltPixel s)
           (AudioUpdate s) (AudioData s) b.

(** The delay between a decode of the HSYNC counter and its effect. *)
Definition hsyncDelay : nat := 3.

Section Chip.

(** The parts of the TIA that are other packages: the chip bus to memory,
    the delay queue (package future), the video and audio subsystems, the
    attached television, the data of a chip write and the handle of a
    scheduled event. *)
Variables (ChipBus DelayQ Video Audio TV ChipData Ev : Type).

Record TIA : Type := mkTIA {
  videoCycles : Z;
  mem : ChipBus;
  pclk : PhaseClock;
  Delay : DelayQ;
  hsync : Polycounter;
  hmoveLatch : bool;
  hmoveCt : Z;
  hblank : bool;
  wsync : bool;
  rsyncEvent : option Ev;
  sig : SignalAttributes;
  video : Video;
  audio : Audio;
  tv : TV }.

Definition set_videoCycles (n : Z) (t : TIA) : TIA :=
  mkTIA n (mem t) (pclk t) (Delay t) (hsync t) (hmoveLatch t) (hmoveCt t)
        (hblank t) (wsync t) (rsyncEvent t) (sig t) (video t) (audio t) (tv t).

Definition set_mem (m : ChipBus) (t : TIA) : TIA :=
  mkTIA (videoCycles t) m (pclk t) (Delay t) (hsync t) (hmoveLatch t) (hmoveCt t)
        (hblank t) (wsync t) (rsyncEvent t) (sig t) (video t) (audio t) (tv t).

Definition set_pclk (c : PhaseClock) (t : TIA) : TIA :=
  mkTIA (videoCycles t) (mem t) c (Delay t) (hsync t) (hmoveLatch t) (hmoveCt t)
        (hblank t) (wsync t) (rsyncEvent t) (sig t) (video t) (audio t) (tv t).

Definition set_Delay (d : DelayQ) (t : TIA) : TIA :=
  mkTIA (videoCycles t) (mem t) (pclk t) d (hsync t) (hmoveLatch t) (hmoveCt t)
        (hblank t) (wsync t) (rsyncEvent t) (sig t) (video t) (audio t) (tv t).

Definition set_hsync (c : Polycounter) (t : TIA) : TIA :=
  mkTIA (videoCycles t) (mem t) (pclk t) (Delay t) c (hmoveLatch t) (hmoveCt t)
        (hblank t) (wsync t) (rsyncEvent t) (sig t) (video t) (audio t) (tv t).

Definition set_hmoveLatch (b : bool) (t : TIA) : TIA :=
  mkTIA (videoCycles t) (mem t) (pclk t) (Delay t) (hsync t) b (hmoveCt t)
        (hblank t) (wsync t) (rsyncEvent t) (sig t) (video t) (audio t) (tv t).

Definition set_hmoveCt (n : Z) (t : TIA) : TIA :=
  mkTIA (videoCycles t) (mem t) (pclk t) (Delay t) (hsync t) (hmoveLatch t) n
        (hblank t) (wsync t) (rsyncEvent t) (sig t) (video t) (audio t) (tv t).

Definition set_sig (s : SignalAttributes) (t : TIA) : TIA :=
  mkTIA (videoCycles t) (mem t) (pclk t) (Delay t) (hsync t) (hmoveLatch t)
        (hmoveCt t) (hblank t) (wsync t) (rsyncEvent t) s (video t) (audio t) (tv t).

Definition set_video (v : Video) (t : TIA) : TIA :=
  mkTIA (videoCycles t) (mem t) (pclk t) (Delay t) (hsync t) (hmoveLatch t)
        (hmoveCt t) (hblank t) (wsync t) (rsyncEvent t) (sig t) v (audio t) (tv t).

Definition set_audio (a : Audio) (t : TIA) : TIA :=
  mkTIA (videoCycles t) (mem t) (pclk t) (Delay t) (hsync t) (hmoveLatch t)
        (hmoveCt t) (hblank t) (wsync t) (rsyncEvent t) (sig t) (video t) a (tv t).

Definition set_tv (x : TV) (t : TIA) : TIA :=
  mkTIA (videoCycles t) (mem t) (pclk t) (Delay t) (hsync t) (hmoveLatch t)
        (hmoveCt t) (hblank t) (wsync t) (rsyncEvent t) (sig t) (video t) (audio t) x.

(** The methods of the other packages that Step calls.  A method of the TIA
    itself (UpdateTIA, and the payloads that the delay queue's Tick runs) may
    change any field; a method of the video or audio subsystem reads the TIA
    and changes its own subsystem, and the delay queue when it is passed. *)
Record Methods : Type := mkMethods {
  VideoBlack : ColorSignal;
  zeroChipData : ChipData;
  ChipRead : ChipBus -> ChipBus * bool * ChipData;
  UpdateTIA : ChipData -> TIA -> TIA * bool;
  DelayTick : TIA -> TIA;
  Schedule : nat -> Payload -> string -> DelayQ -> DelayQ;
  UpdatePlayfield : TIA -> ChipData -> Video * DelayQ * bool;
  UpdateSpritePositioning : TIA -> ChipData -> Video * bool;
  UpdateColor : TIA -> ChipData -> Video * bool;
  VideoTick : TIA -> bool -> bool -> Z -> Video;
  VideoPixel : TIA -> Video * Z * Z;
  UpdateSpriteHMOVE : TIA -> ChipData -> Video * DelayQ * bool;
  UpdateSpriteVariations : TIA -> ChipData -> Video * bool;
  UpdateSpritePixels : TIA -> ChipData -> Video * bool;
  UpdateRegisters : TIA -> ChipData -> Audio * bool;
  Mix : TIA -> Audio * bool * Z;
  Signal : SignalAttributes -> TV -> TV * option GoError }.

Variable m : Methods.

(** [Delay.Schedule(delay, payload, label)] on the queue of the TIA. *)
Definition schedule (delay : nat) (p : Payload) (label : string) (t : TIA) : TIA :=
  set_Delay (Schedule m delay p label (Delay t)) t.

(** A. the chip write of the CPU is read and offered to the TIA itself and
    to the playfield (the start of Step, up to the tick of the clocks).  The
    result carries what is left of [serviceMemory] and the data read. *)
Definition serviceTIA (serviceMemory : bool) (t : TIA) : TIA * bool * ChipData :=
  let t := set_videoCycles (wrapInt (videoCycles t + 1)) t in
  let '(t, serviceMemory, memoryData) :=
    if serviceMemory then
      let '(bus, ok, data) := ChipRead m (mem t) in (set_mem bus t, ok, data)
    else (t, serviceMemory, zeroChipData m) in
  let '(t, serviceMemory) :=
    if serviceMemory then UpdateTIA m memoryData t else (t, serviceMemory) in
  let '(t, serviceMemory) :=
    if serviceMemory then
      let '(v, d, ok) := UpdatePlayfield m t memoryData in
      (set_Delay d (set_video v t), ok)
    else (t, serviceMemory) in
  (t, serviceMemory, memoryData).

(** 1. and 2. the phase clock and the delayed events tick. *)
Definition tickClocks (t : TIA) : TIA :=
  DelayTick m (set_pclk (pclkTick (pclk t)) t).

(** 3.2. the decode of the HSYNC counter after its tick: the switch on
    [tia.hsync.Count()]. *)
Definition hsyncDecode (t : TIA) : TIA :=
  let c := Count (hsync t) in
  if c =? 57 then set_hmoveLatch false (set_hsync (hsyncReset (hsync t)) t)
  else if c =? 56 then
    match rsyncEvent t with
    | None => schedule hsyncDelay newScanline "RESET" t
    | Some _ => t
    end
  else if c =? 4 then set_sig (set_HSync true (sig t)) t
  else if c =? 8 then schedule hsyncDelay futureResetHSYNC "RHS (TV)" t
  else if c =? 12 then schedule hsyncDelay futureResetColorBurst "RCB (TV)" t
  else if c =? 16 then
    if negb (hmoveLatch t) then schedule hsyncDelay futureResetHBlank "HRB" t
    else t
  else if c =? 18 then
    if hmoveLatch t then schedule hsyncDelay futureResetHBlank "LHRB" t
    else t
  else t.

(** 3. on the rising edge of Phi2 the HSYNC counter ticks and is decoded. *)
Definition tickHsync (t : TIA) : TIA :=
  if Phi2 (pclk t) then hsyncDecode (set_hsync (hsyncTick (hsync t)) t)
  else t.

(** B. the chip write is offered to sprite positioning and colour. *)
Definition serviceVideo (serviceMemory : bool) (memoryData : ChipData) (t : TIA)
  : TIA * bool :=
  let '(t, serviceMemory) :=
    if serviceMemory then
      let '(v, ok) := UpdateSpritePositioning m t memoryData in (set_video v t, ok)
    else (t, serviceMemory) in
  if serviceMemory then
    let '(v, ok) := UpdateColor m t memoryData in (set_video v t, ok)
  else (t, serviceMemory).

(** [tia.hmoveCt--] on the uint8 counter, guarded as in the source. *)
Definition hmoveCount (isHmove : bool) (ct : Z) : Z :=
  if isHmove then
    if negb (ct =? 255) then uint8 (ct - 1) else ct
  else ct.

(** 4. and 5. the video objects tick and the HMOVE counter is adjusted. *)
Definition tickVideo (t : TIA) : TIA :=
  let isHmove := Phi2 (pclk t) in
  let t := set_video (VideoTick m t (negb (hblank t)) isHmove (hmoveCt t)) t in
  set_hmoveCt (hmoveCount isHmove (hmoveCt t)) t.

(** The pixel is resolved and written to the signal. *)
Definition resolvePixel (t : TIA) : TIA :=
  let '(v, pixelColor, debugColor) := VideoPixel m t in
  let t := set_video v t in
  let t := set_sig (set_AltPixel debugColor (sig t)) t in
  if hblank t then set_sig (set_Pixel (VideoBlack m) (sig t)) t
  else set_sig (set_Pixel pixelColor (sig t)) t.

(** C. the chip write is offered to the remaining sprite attributes and to
    the audio registers. *)
Definition serviceLate (serviceMemory : bool) (memoryData : ChipData) (t : TIA)
  : TIA * bool :=
  let '(t, serviceMemory) :=
    if serviceMemory then
      let '(v, d, ok) := UpdateSpriteHMOVE m t memoryData in
      (set_Delay d (set_video v t), ok)
    else (t, serviceMemory) in
  let '(t, serviceMemory) :=
    if serviceMemory then
      let '(v, ok) := UpdateSpriteVariations m t memoryData in (set_video v t, ok)
    else (t, serviceMemory) in
  let '(t, serviceMemory) :=
    if serviceMemory then
      let '(v, ok) := UpdateSpritePixels m t memoryData in (set_video v t, ok)
    else (t, serviceMemory) in
  if serviceMemory then
    let '(a, ok) := UpdateRegisters m t memoryData in (set_audio a t, ok)
  else (t, serviceMemory).

(** The audio is mixed into the signal. *)
Definition mixAudio (t : TIA) : TIA :=
  let '(a, update, data) := Mix m t in
  set_sig (set_Audio update data (sig t)) (set_audio a t).

(** The state of the TIA when the signal is about to be sent: all of Step
    before the call of [tia.tv.Signal]. *)
Definition beforeSignal (serviceMemory : bool) (t : TIA) : TIA :=
  let '(t, serviceMemory, memoryData) := serviceTIA serviceMemory t in
  let t := tickClocks t in
  let t := tickHsync t in
  let '(t, serviceMemory) := serviceVideo serviceMemory memoryData t in
  let t := tickVideo t in
  let t := resolvePixel t in
  let '(t, serviceMemory) := serviceLate serviceMemory memoryData t in
  mixAudio t.

(** 6. the signal is sent to the television; an error other than
    TVOutOfSpec ends the step. *)
Definition sendSignal (t : TIA) : TIA * bool * option GoError :=
  let '(tv', res) := Signal m (sig t) (tv t) in
  let t := set_tv tv' t in
  match res with
  | Some err =>
      if negb (Is err TVOutOfSpec) then (t, negb (wsync t), Some err)
      else (set_sig (set_HSyncSimple false (sig t)) t, negb (wsync t), None)
  | None => (set_sig (set_HSyncSimple false (sig t)) t, negb (wsync t), None)
  end.

(** TIA.Step: the TIA after the color clock, the state of the RDY line and
    the error. *)
Definition Step (serviceMemory : bool) (t : TIA) : TIA * bool * option GoError :=
  sendSignal (beforeSignal serviceMemory t).

(** The state of the TIA between the parts of Step. *)
Definition atHsync (serviceMemory : bool) (t : TIA) : TIA :=
  tickClocks (fst (fst (serviceTIA serviceMemory t))).

Definition atVideoTick (serviceMemory : bool) (t : TIA) : TIA :=
  let '(t1, sm, data) := serviceTIA serviceMemory t in
  fst (serviceVideo sm data (tickHsync (tickClocks t1))).

Definition atPixel (serviceMemory : bool) (t : TIA) : TIA :=
  tickVideo (atVideoTick serviceMemory t).

End Chip.

Arguments videoCycles {ChipBus DelayQ Video Audio TV Ev} t.
Arguments mem {ChipBus DelayQ Video Audio TV Ev} t.
Arguments pclk {ChipBus DelayQ Video Audio TV Ev} t.
Arguments Delay {ChipBus DelayQ Video Audio TV Ev} t.
Arguments hsync {ChipBus DelayQ Video Audio TV Ev} t.
Arguments hmoveLatch {ChipBus DelayQ Video Audio TV Ev} t.
Arguments hmoveCt {ChipBus DelayQ Video Audio TV Ev} t.
Arguments hblank {ChipBus DelayQ Video Audio TV Ev} t.
Arguments wsync {ChipBus DelayQ Video Audio TV Ev} t.
Arguments rsyncEvent {ChipBus DelayQ Video Audio TV Ev} t.
Arguments sig {ChipBus DelayQ Video Audio TV Ev} t.
Arguments video {ChipBus DelayQ Video Audio TV Ev} t.
Arguments audio {ChipBus DelayQ Video Audio TV Ev} t.
Arguments tv {ChipBus DelayQ Video Audio TV Ev} t.
Arguments set_videoCycles {ChipBus DelayQ Video Audio TV Ev} _ t.
Arguments set_mem {ChipBus DelayQ Video Audio TV Ev} _ t.
Arguments set_pclk {ChipBus DelayQ Video Audio TV Ev} _ t.
Arguments set_Delay {ChipBus DelayQ Video Audio TV Ev} _ t.
Arguments set_hsync {ChipBus DelayQ Video Audio TV Ev} _ t.
Arguments set_hmoveLatch {ChipBus DelayQ Video Audio TV Ev} _ t.
Arguments set_hmoveCt {ChipBus DelayQ Video Audio TV Ev} _ t.
Arguments set_sig {ChipBus DelayQ Video Audio TV Ev} _ t.
Arguments set_video {ChipBus DelayQ Video Audio TV Ev} _ t.
Arguments set_audio {ChipBus DelayQ Video Audio TV Ev} _ t.
Arguments set_tv {ChipBus DelayQ Video Audio TV Ev} _ t.
Arguments mkTIA {ChipBus DelayQ Video Audio TV Ev}.
Arguments mkMethods {ChipBus DelayQ Video Audio TV ChipData Ev}.
Arguments VideoBlack {ChipBus DelayQ Video Audio TV ChipData Ev} m.
Arguments zeroChipData {ChipBus DelayQ Video Audio TV ChipData Ev} m.
Arguments ChipRead {ChipBus DelayQ Video Audio TV ChipData Ev} m.
Arguments UpdateTIA {ChipBus DelayQ Video Audio TV ChipData Ev} m.
Arguments DelayTick {ChipBus DelayQ Video Audio TV ChipData Ev} m.
Arguments Schedule {ChipBus DelayQ Video Audio TV ChipData Ev} m.
Arguments UpdatePlayfield {ChipBus DelayQ Video Audio TV ChipData Ev} m.
Arguments UpdateSpritePositioning {ChipBus DelayQ Video Audio TV ChipData Ev} m.
Arguments UpdateColor {ChipBus DelayQ Video Audio TV ChipData Ev} m.
Arguments VideoTick {ChipBus DelayQ Video Audio TV ChipData Ev} m.
Arguments VideoPixel {ChipBus DelayQ Video Audio TV ChipData Ev} m.
Arguments UpdateSpriteHMOVE {ChipBus DelayQ Video Audio TV ChipData Ev} m.
Arguments UpdateSpriteVariations {ChipBus DelayQ Video Audio TV ChipData Ev} m.
Arguments UpdateSpritePixels {ChipBus DelayQ Video Audio TV ChipData Ev} m.
Arguments UpdateRegisters {ChipBus DelayQ Video Audio TV ChipData Ev} m.
Arguments Mix {ChipBus DelayQ Video Audio TV ChipData Ev} m.
Arguments Signal {ChipBus DelayQ Video Audio TV ChipData Ev} m.
Arguments schedule {ChipBus DelayQ Video Audio TV ChipData Ev} m delay p label t.
Arguments serviceTIA {ChipBus DelayQ Video Audio TV ChipData Ev} m serviceMemory t.
Arguments tickClocks {ChipBus DelayQ Video Audio TV ChipData Ev} m t.
Arguments hsyncDecode {ChipBus DelayQ Video Audio TV ChipData Ev} m t.
Arguments tickHsync {ChipBus DelayQ Video Audio TV ChipData Ev} m t.
Arguments serviceVideo {ChipBus DelayQ Video Audio TV ChipData Ev} m serviceMemory memoryData t.
Arguments tickVideo {ChipBus DelayQ Video Audio TV ChipData Ev} m t.
Arguments resolvePixel {ChipBus DelayQ Video Audio TV ChipData Ev} m t.
Arguments serviceLate {ChipBus DelayQ Video Audio TV ChipData Ev} m serviceMemory memoryData t.
Arguments mixAudio {ChipBus DelayQ Video Audio TV ChipData Ev} m t.
Arguments beforeSignal {ChipBus DelayQ Video Audio TV ChipData Ev} m serviceMemory t.
Arguments sendSignal {ChipBus DelayQ Video Audio TV ChipData Ev} m t.
Arguments Step {ChipBus DelayQ Video Audio TV ChipData Ev} m serviceMemory t.
Arguments atHsync {ChipBus DelayQ Video Audio TV ChipData Ev} m serviceMemory t.
Arguments atVideoTick {ChipBus DelayQ Video Audio TV ChipData Ev} m serviceMemory t.
Arguments atPixel {ChipBus DelayQ Video Audio TV ChipData Ev} m serviceMemory t.

(** A delay queue that keeps the scheduled events in the order of the calls,
    and a TIA around it whose other parts are inert: no chip write is ever
    pending, the video resolves a fixed pixel and the television accepts
    every signal.  Used to run Step on concrete states. *)
Definition EventList : Type := list (nat * Payload * string).

Definition bareMethods (tvResult : option GoError)
  : Methods unit EventList unit unit unit unit unit :=
  mkMethods (-1) tt
    (fun bus => (bus, false, tt))
    (fun _ t => (t, true))
    (fun t => t)
    (fun delay p label q => q ++ [(delay, p, label)])
    (fun t _ => (video t, Delay t, true))
    (fun t _ => (video t, true))
    (fun t _ => (video t, true))
    (fun t _ _ _ => video t)
    (fun t => (video t, 14, 7))
    (fun t _ => (video t, Delay t, true))
    (fun t _ => (video t, true))
    (fun t _ => (video t, true))
    (fun t _ => (audio t, true))
    (fun t => (audio t, false, 0))
    (fun _ x => (x, tvResult)).

Definition bareTIA (clk : PhaseClock) (count : Z) (latch blank : bool) (ct : Z)
  : TIA unit EventList unit unit unit unit :=
  mkTIA 0 tt clk [] count latch ct blank false None
        (mkSignal false false false false 0 0 false 0 false) tt tt tt.

End TIA.

(* ===================================================================== *)
(** * package hardware: the stepper                                       *)
(* ===================================================================== *)

Module Hardware.
Import GoLib.

(** The calls the stepper makes on the chips and on its callback; the
    stepper state keeps them in order so that their number and order can be
    stated. *)
Inductive Call : Type :=
| RIOT_ReadRIOTMemory
| RIOT_Step
| TIA_StepVideoCycle
| TIA_ReadTIAMemory
| VideoCycleCallback.

Definition Call_eqb (a b : Call) : bool :=
  match a, b with
  | RIOT_ReadRIOTMemory, RIOT_ReadRIOTMemory => true
  | RIOT_Step, RIOT_Step => true
  | TIA_StepVideoCycle, TIA_StepVideoCycle => true
  | TIA_ReadTIAMemory, TIA_ReadTIAMemory => true
  | VideoCycleCallback, VideoCycleCallback => true
  | _, _ => false
  end.

Definition countCalls (c : Call) (l : list Call) : nat :=
  List.length (List.filter (Call_eqb c) l).

(** What one CPU cycle calls, in order. *)
Definition cycleCalls : list Call :=
  [ RIOT_ReadRIOTMemory; RIOT_Step;
    TIA_StepVideoCycle; VideoCycleCallback;
    TIA_StepVideoCycle; VideoCycleCallback;
    TIA_ReadTIAMemory;
    TIA_StepVideoCycle; VideoCycleCallback ].

(** For each color clock (each TIA step) of a list of calls, whether the TIA
    read its chip-write inbox since the color clock before. *)
Fixpoint serviced (pending : bool) (l : list Call) : list bool :=
  match l with
  | [] => []
  | TIA_ReadTIAMemory :: r => serviced true r
  | TIA_StepVideoCycle :: r => pending :: serviced false r
  | _ :: r => serviced pending r
  end.

Section Stepper.

(** The registers of the CPU (A, X, Y, SP, PC, status), the other components
    of the VCS (memory, TIA, RIOT and the attached television), the
    instruction result, the error type and what the video-cycle callback of
    the caller keeps. *)
Variables (Regs Chips Result Err Obs : Type).

Record CPU : Type := mkCPU {
  regs : Regs;
  RdyFlg : bool }.

Record VCS : Type := mkVCS {
  MC : CPU;
  chips : Chips }.

Definition set_RdyFlg (b : bool) (v : VCS) : VCS :=
  mkVCS (mkCPU (regs (MC v)) b) (chips v).

Definition set_chips (c : Chips) (v : VCS) : VCS := mkVCS (MC v) c.

(** Modelled from the spec: the CPU (package cpu) is not among the sources.
    An execution of one instruction is what the CPU does between its calls of
    the cycle callback: it brings the VCS to a state (a bus access) and
    calls the callback once for the cycle, then goes on from the state the
    callback leaves; in the end it returns the result and the error. *)
Inductive Execution : Type :=
| Returns (v : VCS) (r : option Result) (err : option Err)
| EndCycle (v : VCS) (r : option Result) (k : VCS -> Execution).

(** The methods of the chips that the stepper calls. *)
Record Methods : Type := mkMethods {
  ReadRIOTMemory : Chips -> Chips;
  RIOTStep : Chips -> Chips;
  StepVideoCycle : Chips -> Chips * bool;
  ReadTIAMemory : Chips -> Chips;
  TIAChipWrite : string -> Z -> Chips -> Chips;
  RIOTChipWrite : string -> Z -> Chips -> Chips;
  ExecuteInstruction : VCS -> Execution }.

Variable m : Methods.
Variable videoCycleCallback : option Result -> VCS -> Obs -> Obs.

(** The variables of VCS.Step that its closure cycleVCS shares with it, and
    the calls made so far. *)
Record StepState : Type := mkStepState {
  vcs : VCS;
  cpuCycles : Z;
  obs : Obs;
  calls : list Call }.

(** One color clock of cycleVCS: the TIA steps, RdyFlg takes its result and
    the callback of the caller runs. *)
Definition videoCycle (r : option Result) (s : StepState) : StepState :=
  let '(c, rdy) := StepVideoCycle m (chips (vcs s)) in
  let v := set_RdyFlg rdy (set_chips c (vcs s)) in
  mkStepState v (cpuCycles s) (videoCycleCallback r v (obs s))
              (calls s ++ [TIA_StepVideoCycle; VideoCycleCallback]).

Definition riotCycle (s : StepState) : StepState :=
  let c := RIOTStep m (ReadRIOTMemory m (chips (vcs s))) in
  mkStepState (set_chips c (vcs s)) (cpuCycles s) (obs s)
              (calls s ++ [RIOT_ReadRIOTMemory; RIOT_Step]).

Definition readTIA (s : StepState) : StepState :=
  mkStepState (set_chips (ReadTIAMemory m (chips (vcs s))) (vcs s))
              (cpuCycles s) (obs s) (calls s ++ [TIA_ReadTIAMemory]).

(** cycleVCS, the closure the CPU calls after every CPU cycle. *)
Definition cycleVCS (r : option Result) (s : StepState) : StepState :=
  let s := mkStepState (vcs s) (wrapInt (cpuCycles s + 1)) (obs s) (calls s) in
  let s := riotCycle s in
  let s := videoCycle r s in
  let s := videoCycle r s in
  let s := readTIA s in
  videoCycle r s.

(** [vcs.MC.ExecuteInstruction(cycleVCS)]: the execution is followed, with
    cycleVCS run at each of its cycle ends. *)
Fixpoint run (e : Execution) (s : StepState)
  : StepState * option Result * option Err :=
  match e with
  | Returns v r err =>
      (mkStepState v (cpuCycles s) (obs s) (calls s), r, err)
  | EndCycle v r k =>
      let s' := cycleVCS r (mkStepState v (cpuCycles s) (obs s) (calls s)) in
      run (k (vcs s')) s'
  end.

(** The loop [for !vcs.MC.RdyFlg { cycleVCS(r) }]; [None] when [fuel] turns
    of the loop were not enough. *)
Fixpoint drain (fuel : nat) (r : option Result) (s : StepState)
  : option StepState :=
  if RdyFlg (MC (vcs s)) then Some s
  else match fuel with
       | O => None
       | S f => drain f r (cycleVCS r s)
       end.

(** The state in which the CPU starts the instruction: the rest state of the
    two joysticks is written and no cycle is counted. *)
Definition startStep (v : VCS) (o : Obs) : StepState :=
  let c := TIAChipWrite m "INPT4" 128 (chips v) in
  let c := TIAChipWrite m "INPT5" 128 c in
  let c := RIOTChipWrite m "SWCHA" 255 c in
  mkStepState (set_chips c v) 0 o [].

(** The state in which ExecuteInstruction returns, with its results. *)
Definition afterInstruction (v : VCS) (o : Obs)
  : StepState * option Result * option Err :=
  let s := startStep v o in
  run (ExecuteInstruction m (vcs s)) s.

(** VCS.Step: the state it leaves and the three values it returns
    (cpuCycles is in the state). *)
Definition Step (fuel : nat) (v : VCS) (o : Obs)
  : option (StepState * option Result * option Err) :=
  let '(s, r, err) := afterInstruction v o in
  match err with
  | Some e => Some (s, None, Some e)
  | None =>
      match drain fuel r s with
      | Some s' => Some (s', r, None)
      | None => None
      end
  end.

End Stepper.

Arguments regs {Regs} c.
Arguments RdyFlg {Regs} c.
Arguments mkCPU {Regs}.
Arguments MC {Regs Chips} v.
Arguments chips {Regs Chips} v.
Arguments mkVCS {Regs Chips}.
Arguments set_RdyFlg {Regs Chips} b v.
Arguments set_chips {Regs Chips} c v.
Arguments Returns {Regs Chips Result Err}.
Arguments EndCycle {Regs Chips Result Err}.
Arguments mkMethods {Regs Chips Result Err}.
Arguments ReadRIOTMemory {Regs Chips Result Err} m.
Arguments RIOTStep {Regs Chips Result Err} m.
Arguments StepVideoCycle {Regs Chips Result Err} m.
Arguments ReadTIAMemory {Regs Chips Result Err} m.
Arguments TIAChipWrite {Regs Chips Result Err} m.
Arguments RIOTChipWrite {Regs Chips Result Err} m.
Arguments ExecuteInstruction {Regs Chips Result Err} m.
Arguments vcs {Regs Chips Obs} s.
Arguments cpuCycles {Regs Chips Obs} s.
Arguments obs {Regs Chips Obs} s.
Arguments calls {Regs Chips Obs} s.
Arguments mkStepState {Regs Chips Obs}.
Arguments videoCycle {Regs Chips Result Err Obs} m videoCycleCallback r s.
Arguments riotCycle {Regs Chips Result Err Obs} m s.
Arguments readTIA {Regs Chips Result Err Obs} m s.
Arguments cycleVCS {Regs Chips Result Err Obs} m videoCycleCallback r s.
Arguments run {Regs Chips Result Err Obs} m videoCycleCallback e s.
Arguments drain {Regs Chips Result Err Obs} m videoCycleCallback fuel r s.
Arguments startStep {Regs Chips Result Err Obs} m v o.
Arguments afterInstruction {Regs Chips Result Err Obs} m videoCycleCallback v o.
Arguments Step {Regs Chips Result Err Obs} m videoCycleCallback fuel v o.

(** NullVideoCycleCallback, and a callback that counts its calls. *)
Definition NullVideoCycleCallback {Regs Chips Result : Type}
  (r : option Result) (v : VCS Regs Chips) (o : unit) : unit := o.

Definition countingCallback {Regs Chips Result : Type}
  (r : option Result) (v : VCS Regs Chips) (n : nat) : nat := S n.

(** A small machine to run the stepper on.  Its chips are the number of
    color clocks for which the TIA still holds RDY low; its CPU has a program
    counter and executes one instruction of three cycles that writes to
    WSYNC in its last cycle, [stall] color clocks before the end of the
    scanline. *)
Definition stallMethods (stall : nat) : Methods Z nat unit unit :=
  mkMethods
    (fun c => c)
    (fun c => c)
    (fun c => (Nat.pred c, Nat.eqb (Nat.pred c) 0))
    (fun c => c)
    (fun _ _ c => c)
    (fun _ _ c => c)
    (fun v0 =>
       EndCycle v0 (Some tt) (fun v1 =>
       EndCycle v1 (Some tt) (fun v2 =>
       EndCycle (set_chips stall v2) (Some tt) (fun v3 =>
       Returns (mkVCS (mkCPU (regs (MC v3) + 2) (RdyFlg (MC v3))) (chips v3))
               (Some tt) None)))).

Definition stallVCS : VCS Z nat := mkVCS (mkCPU 61440 true) 0%nat.

End Hardware.

(* ===================================================================== *)
(** * package hardware: the stepper and a callback that is a closure       *)
(* ===================================================================== *)

Module Closure.
Import GoLib Hardware.

Section Stepper.

Variables (Regs Chips Result Err Obs : Type).
Variable m : Methods Regs Chips Result Err.

(** [videoCycleCallback func(result *cpu.InstructionResult) error] is a closure:
    beside what it keeps for itself it reaches the VCS of its maker, as
    debugger.videoCycleCallback does, whose input loop runs the commands of
    the user (RESET reloads the program counter).  It is given the VCS and
    returns it; cycleVCS drops its error. *)
Variable videoCycleCallback :
  option Result -> VCS Regs Chips -> Obs -> VCS Regs Chips * Obs.

(** One color clock of cycleVCS: the TIA steps, RdyFlg takes its result and
    the callback of the caller runs. *)
Definition videoCycle (r : option Result) (s : StepState Regs Chips Obs)
  : StepState Regs Chips Obs :=
  let '(c, rdy) := StepVideoCycle m (chips (vcs s)) in
  let v := set_RdyFlg rdy (set_chips c (vcs s)) in
  let '(v', o') := videoCycleCallback r v (obs s) in
  mkStepState v' (cpuCycles s) o'
              (calls s ++ [TIA_StepVideoCycle; VideoCycleCallback]).

(** cycleVCS, the closure the CPU calls after every CPU cycle. *)
Definition cycleVCS (r : option Result) (s : StepState Regs Chips Obs)
  : StepState Regs Chips Obs :=
  let s := mkStepState (vcs s) (wrapInt (cpuCycles s + 1)) (obs s) (calls s) in
  let s := riotCycle m s in
  let s := videoCycle r s in
  let s := videoCycle r s in
  let s := readTIA m s in
  videoCycle r s.

(** [vcs.MC.ExecuteInstruction(cycleVCS)] *)
Fixpoint run (e : Execution Regs Chips Result Err) (s : StepState Regs Chips Obs)
  : StepState Regs Chips Obs * option Result * option Err :=
  match e with
  | Returns v r err =>
      (mkStepState v (cpuCycles s) (obs s) (calls s), r, err)
  | EndCycle v r k =>
      let s' := cycleVCS r (mkStepState v (cpuCycles s) (obs s) (calls s)) in
      run (k (vcs s')) s'
  end.

(** The loop [for !vcs.MC.RdyFlg { cycleVCS(r) }]; [None] when [fuel] turns
    of the loop were not enough. *)
Fixpoint drain (fuel : nat) (r : option Result) (s : StepState Regs Chips Obs)
  : option (StepState Regs Chips Obs) :=
  if RdyFlg (MC (vcs s)) then Some s
  else match fuel with
       | O => None
       | S f => drain f r (cycleVCS r s)
       end.

(** The state in which ExecuteInstruction returns, with its results. *)
Definition afterInstruction (v : VCS Regs Chips) (o : Obs)
  : StepState Regs Chips Obs * option Result * option Err :=
  let s := startStep m v o in
  run (ExecuteInstruction m (vcs s)) s.

(** VCS.Step *)
Definition Step (fuel : nat) (v : VCS Regs Chips) (o : Obs)
  : option (StepState Regs Chips Obs * option Result * option Err) :=
  let '(s, r, err) := afterInstruction v o in
  match err with
  | Some e => Some (s, None, Some e)
  | None =>
      match drain fuel r s with
      | Some s' => Some (s', r, None)
      | None => None
      end
  end.

(** One cycle of the hardware in the words of the specification: the RIOT
    steps once and the TIA three times; the result is the chips and the RDY
    line after the third color clock.  (In the code the RIOT reads its
    memory before its step and the TIA reads its memory before its third.) *)
Definition hardwareCycle (c : Chips) : Chips * bool :=
  StepVideoCycle m
    (ReadTIAMemory m
       (fst (StepVideoCycle m
          (fst (StepVideoCycle m
             (RIOTStep m (ReadRIOTMemory m c))))))).

End Stepper.

Arguments videoCycle {Regs Chips Result Err Obs} m videoCycleCallback r s.
Arguments cycleVCS {Regs Chips Result Err Obs} m videoCycleCallback r s.
Arguments run {Regs Chips Result Err Obs} m videoCycleCallback e s.
Arguments drain {Regs Chips Result Err Obs} m videoCycleCallback fuel r s.
Arguments afterInstruction {Regs Chips Result Err Obs} m videoCycleCallback v o.
Arguments Step {Regs Chips Result Err Obs} m videoCycleCallback fuel v o.
Arguments hardwareCycle {Regs Chips Result Err} m c.

(** A callback that only observes, such as NullVideoCycleCallback. *)
Definition observer {Regs Chips Result Obs : Type}
  (cb : option Result -> VCS Regs Chips -> Obs -> Obs)
  (r : option Result) (v : VCS Regs Chips) (o : Obs) : VCS Regs Chips * Obs :=
  (v, cb r v o).

(** A callback that loads the program counter of the small machine, as the
    callback of the debugger does on the RESET command. *)
Definition loadPC {Chips Result : Type} (address : Z)
  (r : option Result) (v : VCS Z Chips) (o : unit) : VCS Z Chips * unit :=
  (mkVCS (mkCPU address (RdyFlg (MC v))) (chips v), o).

End Closure.

(* ===================================================================== *)
(** * package cartridge: RAMinfo                                          *)
(* ===================================================================== *)

Module Cartridge.
Import GoLib.

(** RAMinfo: the read and write addresses of cartridge RAM (uint16). *)
Record RAMinfo : Type := mkRAMinfo {
  Label : string;
  Active : bool;
  ReadOrigin : Z;
  ReadMemtop : Z;
  WriteOrigin : Z;
  WriteMemtop : Z }.

(** [int(ri.ReadMemtop - ri.ReadOrigin + 1)], the arithmetic being uint16. *)
Definition ReadLen (ri : RAMinfo) : Z :=
  uint16 (uint16 (ReadMemtop ri - ReadOrigin ri) + 1).

Definition WriteLen (ri : RAMinfo) : Z :=
  uint16 (uint16 (WriteMemtop ri - WriteOrigin ri) + 1).

End Cartridge.

(* ===================================================================== *)
(** * package setup: the panel entry                                      *)
(* ===================================================================== *)

Module Setup.
Import GoLib.
Local Open Scope string_scope.

(** strconv.ParseBool: "1", "t", "T", "TRUE", "true", "True" are true,
    "0", "f", "F", "FALSE", "false", "False" are false, anything else is an
    error. *)
Definition ParseBool (s : string) : option bool :=
  if String.eqb s "1" || String.eqb s "t" || String.eqb s "T"
     || String.eqb s "TRUE" || String.eqb s "true" || String.eqb s "True"
  then Some true
  else if String.eqb s "0" || String.eqb s "f" || String.eqb s "F"
          || String.eqb s "FALSE" || String.eqb s "false" || String.eqb s "False"
  then Some false
  else None.

Definition FormatBool (b : bool) : string := if b then "true" else "false".

Definition numPanelSetupFields : nat := 5.

Record PanelSetup : Type := mkPanelSetup {
  cartHash : string;
  p0 : bool;
  p1 : bool;
  col : bool;
  notes : string }.

(** errors.New(errors.SetupPanelError, message) *)
Inductive SetupError : Type := SetupPanelError (message : string).

(** deserialisePanelSetupEntry: the entry of the fields, or the error. *)
Definition deserialisePanelSetupEntry (fields : list string)
  : PanelSetup + SetupError :=
  if Nat.ltb numPanelSetupFields (List.length fields) then
    inr (SetupPanelError "too many fields in panel entry")
  else if Nat.ltb (List.length fields) numPanelSetupFields then
    inr (SetupPanelError "too few fields in panel entry")
  else
    let field (i : nat) := nth i fields "" in
    match ParseBool (field 1%nat) with
    | None => inr (SetupPanelError "invalid player 0 setting")
    | Some b0 =>
        match ParseBool (field 2%nat) with
        | None => inr (SetupPanelError "invalid player 1 setting")
        | Some b1 =>
            match ParseBool (field 3%nat) with
            | None => inr (SetupPanelError "invalid color setting")
            | Some c =>
                inl (mkPanelSetup (field 0%nat) b0 b1 c (field 4%nat))
            end
        end
    end.

(** PanelSetup.Serialise (its error is always nil). *)
Definition Serialise (set : PanelSetup) : list string :=
  [ cartHash set; FormatBool (p0 set); FormatBool (p1 set);
    FormatBool (col set); notes set ].

Definition matchCartHash (set : PanelSetup) (hash : string) : bool :=
  String.eqb (cartHash set) hash.

(** The panel events that apply sends. *)
Inductive PanelEvent : Type :=
| PanelSetPlayer0Pro | PanelSetPlayer1Pro | PanelSetColor.

Section Apply.

(** The panel of the VCS and its Handle method. *)
Variables (Panel E : Type).
Variable PanelHandle : Panel -> PanelEvent -> bool -> Panel * option E.

(** PanelSetup.apply: the panel after the call and the error. *)
Definition apply (set : PanelSetup) (panel : Panel) : Panel * option E :=
  let '(panel, err) :=
    if p0 set then PanelHandle panel PanelSetPlayer0Pro true
    else PanelHandle panel PanelSetPlayer0Pro false in
  match err with
  | Some e => (panel, Some e)
  | None =>
      let '(panel, err) :=
        if p1 set then PanelHandle panel PanelSetPlayer1Pro true
        else PanelHandle panel PanelSetPlayer1Pro false in
      match err with
      | Some e => (panel, Some e)
      | None =>
          if col set then PanelHandle panel PanelSetColor true
          else PanelHandle panel PanelSetColor false
      end
  end.

(** The events one after the other, until one fails. *)
Fixpoint handleAll (events : list (PanelEvent * bool)) (panel : Panel)
  : Panel * option E :=
  match events with
  | [] => (panel, None)
  | (ev, v) :: rest =>
      match PanelHandle panel ev v with
      | (panel', Some e) => (panel', Some e)
      | (panel', None) => handleAll rest panel'
      end
  end.

End Apply.

Arguments apply {Panel E} PanelHandle set panel.
Arguments handleAll {Panel E} PanelHandle events panel.

End Setup.

(* ===================================================================== *)
(** * package screendigest                                                *)
(* ===================================================================== *)

Module ScreenDigest.
Import GoLib.

(** sha1.Size *)
Definition sha1Size : Z := 20.

(** What a call gives: its result, an error of the emulator, or a run-time
    panic of Go (an index out of range, a negative length). *)
Inductive Outcome (A : Type) : Type :=
| Done (a : A)
| Failed (message : string)
| Panics.

Arguments Done {A} a.
Arguments Failed {A} message.
Arguments Panics {A}.

(** [s[i] = v] on a slice. *)
Fixpoint store (s : list Z) (i : nat) (v : Z) : list Z :=
  match s, i with
  | [], _ => []
  | _ :: r, O => v :: r
  | b :: r, S n => b :: store r n v
  end.

(** The SHA1 type: the digest (an array of sha1.Size bytes), the frame data
    and the frame number; the embedded television is left to the
    parameters below. *)
Record SHA1 : Type := mkSHA1 {
  digest : list Z;
  frameData : list Z;
  frameNum : Z }.

Section Digest.

(** television.ClocksPerScanline, the ScanlinesTotal of the television's
    specification, and sha1.Sum. *)
Variable ClocksPerScanline : Z.
Variable ScanlinesTotal : Z.
Variable Sum : list Z -> list Z.

(** The length Resize asks of make. *)
Definition frameSize (dig : SHA1) : Z :=
  wrapInt (Z.of_nat (List.length (digest dig))
           + wrapInt (wrapInt (wrapInt (ClocksPerScanline + 1)
                               * wrapInt (ScanlinesTotal + 1)) * 3)).

(** SHA1.Resize: a fresh frame of zero bytes. *)
Definition Resize (dig : SHA1) : Outcome SHA1 :=
  if frameSize dig <? 0 then Panics
  else Done (mkSHA1 (digest dig) (repeat 0 (Z.to_nat (frameSize dig)))
                    (frameNum dig)).

(** SHA1.ResetDigest *)
Definition ResetDigest (dig : SHA1) : SHA1 :=
  mkSHA1 (List.map (fun _ => 0) (digest dig)) (frameData dig) (frameNum dig).

(** [copy(dst, src)]: the bytes copied and their number. *)
Definition copy (dst src : list Z) : list Z * Z :=
  let n := Nat.min (List.length dst) (List.length src) in
  (firstn n src ++ skipn n dst, Z.of_nat n).

(** SHA1.NewFrame: the digest of the frame is chained to the one before. *)
Definition NewFrame (dig : SHA1) (num : Z) : SHA1 * option string :=
  let '(data, n) := copy (frameData dig) (digest dig) in
  if negb (n =? Z.of_nat (List.length (digest dig))) then
    (mkSHA1 (digest dig) data (frameNum dig),
     Some "unexpected amount of data copied"%string)
  else (mkSHA1 (Sum data) data num, None).

(** The offset of a pixel in the frame data. *)
Definition pixelOffset (x y : Z) : Z :=
  wrapInt (wrapInt (wrapInt (ClocksPerScanline * y) * 3) + wrapInt (x * 3)).

(** SHA1.SetPixel *)
Definition SetPixel (dig : SHA1) (x y red green blue : Z) (vblank : bool)
  : Outcome SHA1 :=
  let offset := pixelOffset x y in
  let size := Z.of_nat (List.length (frameData dig)) in
  if size <=? offset then
    Failed "the coordinates passed to SetPixel will cause an invalid access of the frameData array"
  else if (offset <? 0) || (size <=? wrapInt (offset + 1))
          || (size <=? wrapInt (offset + 2)) then Panics
  else
    let i := Z.to_nat offset in
    Done (mkSHA1 (digest dig)
                 (store (store (store (frameData dig) i red) (S i) green)
                        (S (S i)) blue)
                 (frameNum dig)).

End Digest.

End ScreenDigest.

(* ===================================================================== *)
(** * package input: the other methods of the hand controller             *)
(* ===================================================================== *)

Module HandControllers.
Import GoLib Input.

Arguments mkHandController {F Mem Recorder}.
Arguments id {F Mem Recorder} _.
Arguments mem {F Mem Recorder} _.
Arguments latchFireButton {F Mem Recorder} _.
Arguments hc_stick {F Mem Recorder} _.
Arguments hc_paddle {F Mem Recorder} _.
Arguments ddr {F Mem Recorder} _.
Arguments mkPaddle {F}.
Arguments paddle_addr {F} _.
Arguments paddle_buttonAddr {F} _.
Arguments buttonMask {F} _.
Arguments charge {F} _.
Arguments resistance {F} _.
Arguments ticks {F} _.
Arguments set_mem {F Mem Recorder} m hc.
Arguments set_axis {F Mem Recorder} a hc.
Arguments set_button {F Mem Recorder} b hc.
Arguments set_resistance {F Mem Recorder} f hc.
Arguments set_recorder {F Mem Recorder} r hc.
Arguments moveAxis {F Mem} InputDeviceWrite {Recorder} bit b hc.
Arguments recordEvent {F Mem Recorder RecErr} RecordEvent hc event value.

Section Ops.

Variables (F Mem Recorder RecErr : Type).
Variable oneMinus : F -> F.

(** float32: the constant 0.0, [ticks + paddleSensitivity] and [>=]. *)
Variable zeroF : F.
Variable addSensitivity : F -> F.
Variable geF : F -> F -> bool.

Variable InputDeviceWrite : ChipMem -> Z -> Z -> Z -> Mem -> Mem.
Variable RecordEvent :
  Recorder -> PortID -> Event -> EventValue F -> Recorder * option RecErr.

(** addresses.SWCHA, INPT0, INPT1, INPT4 and INPT5. *)
Variables (SWCHA INPT0 INPT1 INPT4 INPT5 : Z).

Definition set_charge (c : Z) (hc : HandController F Mem Recorder)
  : HandController F Mem Recorder :=
  let p := hc_paddle hc in
  mkHandController (id hc) (recorder hc) (mem hc) (latchFireButton hc)
    (hc_stick hc)
    (mkPaddle (paddle_addr p) (paddle_buttonAddr p) (buttonMask p) c
              (resistance p) (ticks p))
    (hc_keyboard hc) (ddr hc).

Definition set_ticks (f : F) (hc : HandController F Mem Recorder)
  : HandController F Mem Recorder :=
  let p := hc_paddle hc in
  mkHandController (id hc) (recorder hc) (mem hc) (latchFireButton hc)
    (hc_stick hc)
    (mkPaddle (paddle_addr p) (paddle_buttonAddr p) (buttonMask p) (charge p)
              (resistance p) f)
    (hc_keyboard hc) (ddr hc).

(** The latch bit of the control bits the controller points to. *)
Definition set_latchFireButton (b : bool) (hc : HandController F Mem Recorder)
  : HandController F Mem Recorder :=
  mkHandController (id hc) (recorder hc) (mem hc) b
    (hc_stick hc) (hc_paddle hc) (hc_keyboard hc) (ddr hc).

(** NewHandController0 and NewHandController1; the key of the keyboard is
    the zero rune. *)
Definition NewHandController0 (mem : Mem) (latch : bool)
  : HandController F Mem Recorder :=
  mkHandController HandControllerZeroID None mem latch
    (mkStick SWCHA INPT4 240 false (fun n => n) 15)
    (mkPaddle INPT0 SWCHA 127 0 zeroF zeroF)
    (mkKeyboard INPT0 0)
    0.

Definition NewHandController1 (mem : Mem) (latch : bool)
  : HandController F Mem Recorder :=
  mkHandController HandControllerOneID None mem latch
    (mkStick SWCHA INPT5 240 false (fun n => Z.shiftr n 4) 240)
    (mkPaddle INPT1 SWCHA 191 0 zeroF zeroF)
    (mkKeyboard INPT1 0)
    0.

(** HandController.unlatch *)
Definition unlatch (hc : HandController F Mem Recorder)
  : HandController F Mem Recorder :=
  if negb (button (hc_stick hc)) then
    Input.set_mem
      (InputDeviceWrite tia (stick_buttonAddr (hc_stick hc)) 128 0 (mem hc)) hc
  else hc.

(** HandController.ground *)
Definition ground (hc : HandController F Mem Recorder)
  : HandController F Mem Recorder :=
  let hc := set_charge 0 hc in
  Input.set_mem
    (InputDeviceWrite riot (paddle_addr (hc_paddle hc)) (charge (hc_paddle hc)) 0
                      (mem hc)) hc.

(** HandController.recharge *)
Definition recharge (hc : HandController F Mem Recorder)
  : HandController F Mem Recorder :=
  if charge (hc_paddle hc) <? 255 then
    let hc := set_ticks (addSensitivity (ticks (hc_paddle hc))) hc in
    if geF (ticks (hc_paddle hc)) (resistance (hc_paddle hc)) then
      let hc := set_ticks zeroF hc in
      let hc := set_charge (uint8 (charge (hc_paddle hc) + 1)) hc in
      Input.set_mem
        (InputDeviceWrite tia (paddle_addr (hc_paddle hc))
                          (charge (hc_paddle hc)) 0 (mem hc)) hc
    else hc
  else hc.

(** HandController.step *)
Definition step (hc : HandController F Mem Recorder)
  : HandController F Mem Recorder := recharge hc.

(** A run of events sent to the controller one after the other, whatever
    the errors. *)
Fixpoint handleEvents (events : list (Event * EventValue F))
         (hc : HandController F Mem Recorder) : HandController F Mem Recorder :=
  match events with
  | [] => hc
  | (event, value) :: rest =>
      handleEvents rest
        (fst (Handle oneMinus InputDeviceWrite RecordEvent hc event value))
  end.

(** The bit of the axis that a direction event works on. *)
Definition axisBit (event : Event) : option Z :=
  match event with
  | Left => Some 64
  | Right => Some 128
  | Up => Some 16
  | Down => Some 32
  | _ => None
  end.

End Ops.

Arguments set_charge {F Mem Recorder} c hc.
Arguments set_ticks {F Mem Recorder} f hc.
Arguments set_latchFireButton {F Mem Recorder} b hc.
Arguments NewHandController0 {F Mem} Recorder zeroF SWCHA INPT0 INPT4 mem latch.
Arguments NewHandController1 {F Mem} Recorder zeroF SWCHA INPT1 INPT5 mem latch.
Arguments unlatch {F Mem Recorder} InputDeviceWrite hc.
Arguments ground {F Mem Recorder} InputDeviceWrite hc.
Arguments recharge {F Mem Recorder} zeroF addSensitivity geF InputDeviceWrite hc.
Arguments step {F Mem Recorder} zeroF addSensitivity geF InputDeviceWrite hc.
Arguments handleEvents {F Mem Recorder RecErr} oneMinus InputDeviceWrite RecordEvent
  events hc.

(** A memory that keeps the writes made to it, the newest first. *)
Definition WriteLog : Type := list (ChipMem * Z * Z * Z).

Definition logWrite (chip : ChipMem) (addr data mask : Z) (log : WriteLog)
  : WriteLog := (chip, addr, data, mask) :: log.

(** A recorder that counts the events it is given and never fails. *)
Definition countingRecorder (n : nat) (port : PortID) (event : Event)
           (value : EventValue unit) : nat * option unit := (S n, None).

(** Hand controller one over the logging memory, with SWCHA at 0x280, INPT1
    at 0x09 and INPT5 at 0x0d. *)
Definition loggedController1 (latch : bool) : HandController unit WriteLog nat :=
  NewHandController1 nat tt 640 9 13 [] latch.

End HandControllers.

(* ===================================================================== *)
(** * package tia: methods that agree                                     *)
(* ===================================================================== *)

Module TIAMethods.
Import GoLib Errors TIA.

Section Agreement.

Variables (ChipBus DelayQ Video Audio TV ChipData Ev : Type).

(** Two sets of methods with the same clockwork: they agree on everything
    Step calls without a chip write in hand. *)
Definition sameClockwork (m m' : Methods ChipBus DelayQ Video Audio TV ChipData Ev)
  : Prop :=
  VideoBlack m = VideoBlack m'
  /\ (forall t, DelayTick m t = DelayTick m' t)
  /\ (forall d p l q, Schedule m d p l q = Schedule m' d p l q)
  /\ (forall t a b c, VideoTick m t a b c = VideoTick m' t a b c)
  /\ (forall t, VideoPixel m t = VideoPixel m' t)
  /\ (forall t, Mix m t = Mix m' t)
  /\ (forall s x, Signal m s x = Signal m' s x).

(** The same clockwork, and the same chip bus and registers of the TIA
    itself: the two may differ in the video and audio registers. *)
Definition sameUpToTIARegisters
           (m m' : Methods ChipBus DelayQ Video Audio TV ChipData Ev) : Prop :=
  sameClockwork m m'
  /\ (forall bus, ChipRead m bus = ChipRead m' bus)
  /\ (forall d t, UpdateTIA m d t = UpdateTIA m' d t).

End Agreement.

Arguments sameClockwork {ChipBus DelayQ Video Audio TV ChipData Ev} m m'.
Arguments sameUpToTIARegisters {ChipBus DelayQ Video Audio TV ChipData Ev} m m'.

(** Methods like [bareMethods] but with a chip write always pending, which
    the TIA itself takes ([ownRegister]) or leaves to a video subsystem that
    counts the writes it is offered. *)
Definition pendingMethods (ownRegister : bool)
  : Methods unit EventList nat unit unit unit unit :=
  mkMethods (-1) tt
    (fun bus => (bus, true, tt))
    (fun _ t => (set_hmoveLatch true t, negb ownRegister))
    (fun t => t)
    (fun delay p label q => q ++ [(delay, p, label)])
    (fun t _ => (S (video t), Delay t, true))
    (fun t _ => (S (video t), true))
    (fun t _ => (S (video t), true))
    (fun t _ _ _ => video t)
    (fun t => (video t, 14, 7))
    (fun t _ => (S (video t), Delay t, true))
    (fun t _ => (S (video t), true))
    (fun t _ => (S (video t), true))
    (fun t _ => (audio t, true))
    (fun t => (audio t, false, 0))
    (fun _ x => (x, None)).

(** The same with a video subsystem that ignores the writes. *)
Definition pendingMethodsDeaf (ownRegister : bool)
  : Methods unit EventList nat unit unit unit unit :=
  mkMethods (-1) tt
    (fun bus => (bus, true, tt))
    (fun _ t => (set_hmoveLatch true t, negb ownRegister))
    (fun t => t)
    (fun delay p label q => q ++ [(delay, p, label)])
    (fun t _ => (video t, Delay t, true))
    (fun t _ => (video t, true))
    (fun t _ => (video t, true))
    (fun t _ _ _ => video t)
    (fun t => (video t, 14, 7))
    (fun t _ => (video t, Delay t, true))
    (fun t _ => (video t, true))
    (fun t _ => (video t, true))
    (fun t _ => (audio t, true))
    (fun t => (audio t, false, 0))
    (fun _ x => (x, None)).

Definition countingTIA (clk : PhaseClock) (count : Z)
  : TIA unit EventList nat unit unit unit :=
  mkTIA 0 tt clk [] count false 255 true false None
        (mkSignal false false false false 0 0 false 0 false) 0%nat tt tt.

End TIAMethods.

(* ===================================================================== *)
(** * The bytes of a patch file                                           *)
(* ===================================================================== *)

Module PatchFormat.

(** The carriage return that ends a line of a file with CRLF line ends,
    before the newline at which CartridgeMemory splits. *)
Definition cr : ascii := "013"%char.

End PatchFormat.

(* ===================================================================== *)
(** * Properties of the patcher                                           *)
(* ===================================================================== *)

Module PatchTheory.
Import GoLib Patch.

Lemma hexDigit_range (c : ascii) (d : Z) :
  hexDigit c = Some d -> 0 <= d < 16.
Proof.
  unfold hexDigit.
  destruct ((48 <=? byteVal c) && (byteVal c <=? 57)) eqn:Hdec.
  - intros H; injection H as <-.
    apply andb_prop in Hdec as [H1 H2].
    apply Z.leb_le in H1. apply Z.leb_le in H2. lia.
  - destruct ((97 <=? Z.lor (byteVal c) 32) && (Z.lor (byteVal c) 32 <=? 122)) eqn:Hlet;
      [| discriminate].
    destruct (Z.lor (byteVal c) 32 - 97 + 10 <? 16) eqn:Hlt; [| discriminate].
    intros H; injection H as <-.
    apply andb_prop in Hlet as [H1 _].
    apply Z.leb_le in H1. apply Z.ltb_lt in Hlt. lia.
Qed.

Lemma hexDigits_nonneg (s : string) :
  forall acc v, 0 <= acc -> hexDigits s acc = Some v -> 0 <= v.
Proof.
  induction s as [| c r IH]; simpl; intros acc v Hacc H.
  - injection H as <-. exact Hacc.
  - destruct (hexDigit c) as [d |] eqn:Hd; [| discriminate].
    apply hexDigit_range in Hd.
    apply (IH (acc * 16 + d)); [lia | exact H].
Qed.

(** A parsed value is a byte. *)
Lemma ParseUint8_range (s : string) (v : Z) :
  ParseUint8 s = Some v -> 0 <= v <= 255.
Proof.
  unfold ParseUint8, parseHex.
  destruct s as [| c r]; [discriminate |].
  destruct (hexDigits (String c r) 0) as [n |] eqn:Hn; [| discriminate].
  destruct (n <=? 255) eqn:Hle; [| discriminate].
  intros H; injection H as <-.
  apply Z.leb_le in Hle.
  split; [| exact Hle].
  apply (hexDigits_nonneg (String c r) 0 n); [lia | exact Hn].
Qed.

Lemma parsedValues_range (fields : list string) (v : Z) :
  In v (parsedValues fields) -> 0 <= v <= 255.
Proof.
  induction fields as [| f rest IH]; simpl; [tauto |].
  destruct (ParseUint8 (TrimSpace f)) as [b |] eqn:Hb; [| exact IH].
  intros [<- | Hin]; [exact (ParseUint8_range _ _ Hb) | exact (IH Hin)].
Qed.

(** The i-th write of a line goes to the i-th offset after the address. *)
Lemma consecutive_nth (vals : list Z) :
  forall address i v,
    nth_error vals i = Some v ->
    nth_error (consecutive address vals) i
    = Some (uint16 (address + Z.of_nat i), uint8 v).
Proof.
  induction vals as [| x rest IH]; intros address i v H.
  - destruct i; discriminate.
  - destruct i as [| i]; simpl in *.
    + injection H as <-. now rewrite Z.add_0_r.
    + rewrite (IH (address + 1) i v H).
      do 3 f_equal. lia.
Qed.

Section Refinement.

Variables (Cart E : Type).
Variable cartPatch : Cart -> Z -> Z -> Cart * option E.

Lemma applyWrites_count (ws : list (Z * Z)) :
  forall mem k,
    applyWrites cartPatch ws mem (S k)
    = (let '(mem', n, err) := applyWrites cartPatch ws mem k in (mem', S n, err)).
Proof.
  induction ws as [| [offset data] rest IH]; intros mem k; simpl; [reflexivity |].
  destruct (cartPatch mem offset data) as [mem' [err |]]; [reflexivity |].
  apply IH.
Qed.

Lemma applyWrites_app (ws1 ws2 : list (Z * Z)) :
  forall mem k,
    applyWrites cartPatch (ws1 ++ ws2) mem k
    = match applyWrites cartPatch ws1 mem k with
      | (mem', n, Some err) => (mem', n, Some err)
      | (mem', n, None) => applyWrites cartPatch ws2 mem' n
      end.
Proof.
  induction ws1 as [| [offset data] rest IH]; intros mem k; simpl; [reflexivity |].
  destruct (cartPatch mem offset data) as [mem' [err |]]; [reflexivity |].
  apply IH.
Qed.

Lemma loopResult_S (patched : bool) (r : Cart * nat * option E) :
  loopResult patched (let '(mem', n, err) := r in (mem', S n, err))
  = loopResult true r.
Proof.
  destruct r as [[mem' n] err]; simpl. now rewrite orb_true_r.
Qed.

Lemma ParseUint8_empty : ParseUint8 "" = None.
Proof. reflexivity. Qed.

(** The inner loop applies the parsed values at consecutive offsets. *)
Lemma patchValues_applies (values : list string) :
  forall address mem patched,
    (let '(mem', patched', _, err) :=
       patchValues cartPatch values address mem patched in
     (mem', patched', err))
    = loopResult patched
        (applyWrites cartPatch (consecutive address (parsedValues values)) mem 0).
Proof.
  induction values as [| field rest IH]; intros address mem patched; simpl.
  - now rewrite orb_false_r.
  - destruct (String.eqb (TrimSpace field) "") eqn:Hempty.
    + apply String.eqb_eq in Hempty. rewrite Hempty, ParseUint8_empty. apply IH.
    + destruct (ParseUint8 (TrimSpace field)) as [b |]; [| apply IH].
      simpl.
      destruct (cartPatch mem (uint16 address) (uint8 b)) as [mem' [err |]].
      * simpl. now rewrite orb_false_r.
      * rewrite applyWrites_count, loopResult_S. apply IH.
Qed.

(** One line applies the writes the line asks for. *)
Lemma patchLine_applies (line : string) (mem : Cart) (patched : bool) :
  patchLine cartPatch line mem patched
  = loopResult patched (applyWrites cartPatch (lineWrites line) mem 0).
Proof.
  unfold patchLine, lineWrites, pokeLine, ignoredLine.
  destruct line as [| c0 r]; [simpl; now rewrite orb_false_r |].
  destruct (Ascii.eqb c0 commentLeader || IsSpaceByte c0);
    [simpl; now rewrite orb_false_r |].
  destruct (Split (String c0 r) pokeLineSeparator) as [| p0 [| p1 [| p2 ps]]];
    try (simpl; now rewrite orb_false_r).
  destruct (ParseInt16 (TrimSpace p0)) as [address |];
    [| simpl; now rewrite orb_false_r].
  apply patchValues_applies.
Qed.

Lemma loopResult_patched (patched : bool) (ws : list (Z * Z)) (mem : Cart) (k : nat) :
  loopResult patched (applyWrites cartPatch ws mem k)
  = (let '(mem', n, err) := applyWrites cartPatch ws mem 0 in
     (mem', patched || negb (Nat.eqb (k + n) 0), option_map PatchError err)).
Proof.
  revert mem. induction k as [| k IH]; intros mem.
  - simpl. destruct (applyWrites cartPatch ws mem 0) as [[mem' n] err]. reflexivity.
  - rewrite applyWrites_count.
    specialize (IH mem).
    destruct (applyWrites cartPatch ws mem k) as [[mem1 n1] err1].
    destruct (applyWrites cartPatch ws mem 0) as [[mem0 n0] err0].
    simpl in *. injection IH as -> _ ->.
    destruct patched; reflexivity.
Qed.

(** The outer loop applies the writes of all its lines. *)
Lemma patchLines_applies (lines : list string) :
  forall mem patched,
    patchLines cartPatch lines mem patched
    = loopResult patched
        (applyWrites cartPatch (flat_map lineWrites lines) mem 0).
Proof.
  induction lines as [| line rest IH]; intros mem patched; simpl.
  - now rewrite orb_false_r.
  - rewrite patchLine_applies, applyWrites_app.
    destruct (applyWrites cartPatch (lineWrites line) mem 0) as [[mem1 n1] [err |]];
      simpl; [reflexivity |].
    rewrite IH.
    rewrite (loopResult_patched patched _ mem1 n1).
    destruct (applyWrites cartPatch (flat_map lineWrites rest) mem1 0)
      as [[mem2 n2] err2]; simpl.
    destruct n1; simpl; [now rewrite orb_false_r | now rewrite !orb_true_r].
Qed.

End Refinement.

(** The first-byte test of the patcher, byte by byte. *)
Lemma IsSpaceByte_bytes (c : ascii) :
  IsSpaceByte c = true <-> In (byteVal c) spaceBytes.
Proof.
  unfold IsSpaceByte, asciiSpace, spaceBytes.
  generalize (byteVal c). intros n.
  rewrite !orb_true_iff, andb_true_iff, !Z.leb_le, !Z.eqb_eq.
  cbn [In]. split; intros H; lia.
Qed.

Lemma ignoredLine_first_byte (line : string) :
  ignoredLine line = true
  <-> line = ""%string
      \/ exists c rest,
           line = String c rest
           /\ (c = commentLeader \/ In (byteVal c) spaceBytes).
Proof.
  destruct line as [| c r]; cbn [ignoredLine].
  - split; [intros _; now left | reflexivity].
  - rewrite orb_true_iff, Ascii.eqb_eq, IsSpaceByte_bytes. split.
    + intros H. right. exists c, r. split; [reflexivity | exact H].
    + intros [H | (c' & r' & Heq & H)]; [discriminate H |].
      injection Heq as -> ->. exact H.
Qed.

(** C8, as amended.  For every cartridge, mapper and patch file: the patcher
    hands to the mapper exactly the writes of the poke lines of the file, in
    order, until the mapper fails, and its boolean result is true exactly
    when at least one byte was applied.  A line that is blank, whose first
    byte is '-' or a white-space byte (9 to 13, 32, 0x85, 0xA0: the byte is
    tested, not the character it may be the start of), that has no single
    colon or has no readable address changes nothing and raises no error.
    In a poke line the values that are hexadecimal bytes go to consecutive
    offsets from the address; a value that is not is left out on its own and
    the line is still applied. *)
Theorem CartridgeMemory_applies_poke_lines :
  forall (Cart E : Type) (cartPatch : Cart -> Z -> Z -> Cart * option E)
         (mem : Cart) (buffer : string),
    CartridgeMemory cartPatch mem (Contents buffer)
    = (let '(mem', n, err) := applyWrites cartPatch (fileWrites buffer) mem 0 in
       (mem', negb (Nat.eqb n 0), option_map PatchError err))
    /\ (forall line patched,
          (ignoredLine line = true
           \/ List.length (Split line pokeLineSeparator) <> 2%nat
           \/ (exists p0 p1, Split line pokeLineSeparator = [p0; p1]
                             /\ ParseInt16 (TrimSpace p0) = None)) ->
          patchLine cartPatch line mem patched = (mem, patched, None))
    /\ (forall line p0 p1 address i v,
          ignoredLine line = false ->
          Split line pokeLineSeparator = [p0; p1] ->
          ParseInt16 (TrimSpace p0) = Some address ->
          nth_error (parsedValues (Split (TrimSpace p1) " "%char)) i = Some v ->
          nth_error (lineWrites line) i = Some (uint16 (address + Z.of_nat i), v))
    /\ (forall line,
          ignoredLine line = true
          <-> line = ""%string
              \/ exists c rest,
                   line = String c rest
                   /\ (c = commentLeader \/ In (byteVal c) spaceBytes))
    /\ (forall line patched,
          patchLine cartPatch line mem patched
          = loopResult patched (applyWrites cartPatch (lineWrites line) mem 0)).
Proof.
  intros Cart E cartPatch mem buffer. split; [| split; [| split; [| split]]].
  - simpl. rewrite patchLines_applies. unfold fileWrites.
    destruct (applyWrites cartPatch (flat_map lineWrites (Split buffer newline)) mem 0)
      as [[mem' n] err]. reflexivity.
  - intros line patched H.
    rewrite patchLine_applies.
    assert (Hnone : lineWrites line = []).
    { unfold lineWrites, pokeLine.
      destruct H as [H | [H | (p0 & p1 & Hs & Hp)]].
      - now rewrite H.
      - destruct (ignoredLine line); [reflexivity |].
        destruct (Split line pokeLineSeparator) as [| q0 [| q1 [| q2 qs]]];
          try reflexivity.
        now elim H.
      - destruct (ignoredLine line); [reflexivity |].
        now rewrite Hs, Hp. }
    rewrite Hnone. simpl. now rewrite orb_false_r.
  - intros line p0 p1 address i v Hign Hs Hp Hv.
    unfold lineWrites, pokeLine. rewrite Hign, Hs, Hp.
    rewrite (consecutive_nth _ address i v Hv).
    assert (Hr : 0 <= v <= 255).
    { apply (parsedValues_range (Split (TrimSpace p1) " "%char)).
      eapply nth_error_In; eassumption. }
    unfold uint8. rewrite Z.mod_small by lia. reflexivity.
  - exact ignoredLine_first_byte.
  - intros line patched. apply patchLine_applies.
Qed.

(** The theorem at a cartridge of 20 bytes: a comment line changes nothing,
    and the second value of the line "10: 0a 0b" goes to offset 17.  The
    test of the first byte: a line that starts with the lone byte 0xA0 is
    ignored, and a line that starts with the no-break space U+00A0 in UTF-8
    (the bytes 0xC2 0xA0) is applied, its byte going to offset 16. *)
Lemma CartridgeMemory_applies_poke_lines_witness :
  patchLine romPatch "- comment" (repeat 0 20) false = (repeat 0 20, false, None)
  /\ nth_error (lineWrites "10: 0a 0b") 1 = Some (17, 11)
  /\ patchLine romPatch (String "160" "10: 0a") (repeat 0 20) false
     = (repeat 0 20, false, None)
  /\ nth_error (lineWrites (String "194" (String "160" "10: 0a"))) 0 = Some (16, 10)
  /\ snd (fst (patchLine romPatch (String "194" (String "160" "10: 0a"))
                         (repeat 0 20) false)) = true.
Proof.
  destruct (CartridgeMemory_applies_poke_lines RomCart unit romPatch
              (repeat 0 20) "10: 0a 0b") as (_ & Hskip & Hpoke & Hbyte & Hline).
  split; [| split; [| split; [| split]]].
  - apply Hskip. left. reflexivity.
  - apply (Hpoke "10: 0a 0b"%string "10"%string " 0a 0b"%string 16 1%nat 11);
      reflexivity.
  - apply Hskip. left. apply Hbyte. right.
    exists "160"%char, "10: 0a"%string. split; [reflexivity |].
    right. vm_compute. tauto.
  - apply (Hpoke (String "194" (String "160" "10: 0a"))
                 (String "194" (String "160" "10"))
                 " 0a"%string 16 0%nat 10);
      reflexivity.
  - rewrite Hline. reflexivity.
Defined.

(** C8, as stated, fails in two places.  A line with a value that is not a
    hexadecimal byte is malformed in the words of the claim, yet the patcher
    does not skip it: on "10: zz 02" the byte 02 is written to offset 16 and
    the result is true.  And a line that is well formed in the words of the
    claim but starts with white space is skipped: the claim has the line
    " 10: 0a" write 0a to offset 16, the patcher leaves the cartridge as it
    is and returns false. *)
Lemma CartridgeMemory_bad_value_line_not_skipped :
  ~ (forall (line : string) (mem : RomCart),
        malformedLine line = true ->
        CartridgeMemory romPatch mem (Contents line) = (mem, false, None))
  /\ (malformedLine " 10: 0a" = false
      /\ claimedWrites " 10: 0a" = [(16, 10)]
      /\ CartridgeMemory romPatch (repeat 0 20) (Contents " 10: 0a")
         = (repeat 0 20, false, None)
      /\ CartridgeMemory romPatch (repeat 0 20) (Contents " 10: 0a")
         <> loopResult false
              (applyWrites romPatch (claimedWrites " 10: 0a") (repeat 0 20) 0)).
Proof.
  split.
  - intros H.
    specialize (H "10: zz 02"%string (repeat 0 20) eq_refl).
    vm_compute in H. discriminate H.
  - split; [reflexivity | split; [reflexivity | split; [reflexivity |]]].
    vm_compute. discriminate.
Qed.

End PatchTheory.

(* ===================================================================== *)
(** * Properties of the hand controller                                   *)
(* ===================================================================== *)

Module InputTheory.
Import GoLib Input.

(** The runes the KeyboardDown case lets through are the keys of the keypad
    except '0'. *)
Lemma keyAccepted_keypad (v : Z) :
  keyAccepted v = keypadRune v && negb (v =? rune "0").
Proof.
  unfold keyAccepted, keypadRune, rune, byteVal. simpl.
  destruct (v =? 49) eqn:H1; [apply Z.eqb_eq in H1; subst; reflexivity |].
  destruct (v =? 50) eqn:H2; [apply Z.eqb_eq in H2; subst; reflexivity |].
  destruct (v =? 51) eqn:H3; [apply Z.eqb_eq in H3; subst; reflexivity |].
  destruct (v =? 52) eqn:H4; [apply Z.eqb_eq in H4; subst; reflexivity |].
  destruct (v =? 53) eqn:H5; [apply Z.eqb_eq in H5; subst; reflexivity |].
  destruct (v =? 54) eqn:H6; [apply Z.eqb_eq in H6; subst; reflexivity |].
  destruct (v =? 55) eqn:H7; [apply Z.eqb_eq in H7; subst; reflexivity |].
  destruct (v =? 56) eqn:H8; [apply Z.eqb_eq in H8; subst; reflexivity |].
  destruct (v =? 57) eqn:H9; [apply Z.eqb_eq in H9; subst; reflexivity |].
  destruct (v =? 42) eqn:Hs; [apply Z.eqb_eq in Hs; subst; reflexivity |].
  destruct (v =? 35) eqn:Hh; [apply Z.eqb_eq in Hh; subst; reflexivity |].
  simpl.
  destruct (v =? 48) eqn:H0; simpl.
  - now rewrite andb_false_r.
  - rewrite andb_true_r, !orb_false_r.
    apply Z.eqb_neq in H0, H1, H2, H3, H4, H5, H6, H7, H8, H9.
    symmetry. apply andb_false_iff.
    destruct (48 <=? v) eqn:Hlo; [right | now left].
    apply Z.leb_le in Hlo. apply Z.leb_gt. lia.
Qed.

Section Keyboard.

Variables (F Mem Recorder RecErr : Type).
Variable oneMinus : F -> F.
Variable InputDeviceWrite : ChipMem -> Z -> Z -> Z -> Mem -> Mem.
Variable RecordEvent :
  Recorder -> PortID -> Event -> EventValue F -> Recorder * option RecErr.

(** A value that is not a rune is a BadInputEventType error. *)
Lemma KeyboardDown_not_a_rune (hc : HandController F Mem Recorder)
      (value : EventValue F) :
  (forall r, value <> VRune r) ->
  Handle oneMinus InputDeviceWrite RecordEvent hc KeyboardDown value = (hc, Some (BadInputEventType KeyboardDown "rune")).
Proof.
  intros H. destruct value; try reflexivity. now elim (H r).
Qed.

(** A key from '1' to '9', '*' or '#' is recorded as the pressed key; with no
    recorder attached the call succeeds. *)
Lemma KeyboardDown_accepted (hc : HandController F Mem Recorder) (v : Z) :
  keyAccepted v = true ->
  recorder hc = None ->
  Handle oneMinus InputDeviceWrite RecordEvent hc KeyboardDown (VRune v) = (set_key v hc, None).
Proof.
  intros Hv Hrec. simpl. rewrite Hv.
  unfold recordEvent. simpl. rewrite Hrec. reflexivity.
Qed.

(** Any other rune is a BadInputEventType error and no key is recorded. *)
Lemma KeyboardDown_rejected (hc : HandController F Mem Recorder) (v : Z) :
  keyAccepted v = false ->
  Handle oneMinus InputDeviceWrite RecordEvent hc KeyboardDown (VRune v)
  = (hc, Some (BadInputEventType KeyboardDown "numeric rune or '*' or '#'")).
Proof.
  intros Hv. simpl. now rewrite Hv.
Qed.

(** C9, where the code departs from it.  The rune '0' is a key of the keypad
    (a numeric rune, as the error message of the source itself says), but for
    every hand controller Handle(KeyboardDown, '0') returns a
    BadInputEventType error and records no key. *)
Theorem KeyboardDown_zero_is_rejected :
  forall (hc : HandController F Mem Recorder),
    keypadRune (rune "0") = true
    /\ Handle oneMinus InputDeviceWrite RecordEvent hc KeyboardDown (VRune (rune "0"))
       = (hc, Some (BadInputEventType KeyboardDown "numeric rune or '*' or '#'")).
Proof.
  intros hc. split; reflexivity.
Qed.

End Keyboard.

End InputTheory.

(* ===================================================================== *)
(** * Properties of the TIA step                                          *)
(* ===================================================================== *)

Module TIATheory.
Import GoLib Errors TIA.

(** Case analysis on the first [match] or [if] of the goal. *)
Ltac break_goal :=
  match goal with
  | |- context [match ?x with _ => _ end] =>
      lazymatch x with
      | context [match _ with _ => _ end] => fail
      | _ => destruct x eqn:?
      end
  end.

Ltac frame_by_cases :=
  intros; simpl; repeat (break_goal; simpl); repeat split;
  solve [reflexivity | congruence].

Lemma wrap57 (c : Z) :
  0 <= c <= 56 -> (c + 1) mod 57 = if c =? 56 then 0 else c + 1.
Proof.
  intros H. destruct (c =? 56) eqn:E.
  - apply Z.eqb_eq in E. now subst.
  - apply Z.eqb_neq in E. apply Z.mod_small. lia.
Qed.

(** The HMOVE counter stops at 0xff: from [c] it is decremented [c + 1]
    times and then stays. *)
Lemma hmoveCount_iter (n : nat) :
  forall c, 0 <= c < 255 ->
    Nat.iter n (hmoveCount true) c
    = if Z.of_nat n <=? c then c - Z.of_nat n else 255.
Proof.
  induction n as [| n IH]; intros c Hc.
  - simpl. destruct (0 <=? c) eqn:E; [lia | apply Z.leb_gt in E; lia].
  - rewrite Nat.iter_succ, (IH c Hc).
    destruct (Z.of_nat n <=? c) eqn:E.
    + apply Z.leb_le in E.
      unfold hmoveCount, uint8.
      replace (c - Z.of_nat n =? 255) with false by (symmetry; apply Z.eqb_neq; lia).
      simpl negb. cbv iota.
      destruct (Z.of_nat (S n) <=? c) eqn:E'.
      * apply Z.leb_le in E'. rewrite Z.mod_small by lia. lia.
      * apply Z.leb_gt in E'.
        replace (c - Z.of_nat n - 1) with (-1) by lia. reflexivity.
    + apply Z.leb_gt in E.
      replace (Z.of_nat (S n) <=? c) with false by (symmetry; apply Z.leb_gt; lia).
      reflexivity.
Qed.

Section Chip.

Variables (ChipBus DelayQ Video Audio TV ChipData Ev : Type).
Variable m : Methods ChipBus DelayQ Video Audio TV ChipData Ev.

(** ** What each part of Step leaves alone *)

Lemma serviceVideo_frame (sm : bool) (d : ChipData)
      (t : TIA ChipBus DelayQ Video Audio TV Ev) :
  let t' := fst (serviceVideo m sm d t) in
  hsync t' = hsync t /\ pclk t' = pclk t /\ hmoveLatch t' = hmoveLatch t
  /\ hmoveCt t' = hmoveCt t /\ hblank t' = hblank t /\ wsync t' = wsync t
  /\ Delay t' = Delay t /\ sig t' = sig t /\ tv t' = tv t.
Proof. unfold serviceVideo. frame_by_cases. Qed.

Lemma tickVideo_frame (t : TIA ChipBus DelayQ Video Audio TV Ev) :
  let t' := tickVideo m t in
  hsync t' = hsync t /\ pclk t' = pclk t /\ hmoveLatch t' = hmoveLatch t
  /\ hblank t' = hblank t /\ wsync t' = wsync t
  /\ Delay t' = Delay t /\ sig t' = sig t /\ tv t' = tv t
  /\ hmoveCt t' = hmoveCount (Phi2 (pclk t)) (hmoveCt t).
Proof. unfold tickVideo. simpl. repeat split; reflexivity. Qed.

Lemma resolvePixel_frame (t : TIA ChipBus DelayQ Video Audio TV Ev) :
  let t' := resolvePixel m t in
  hsync t' = hsync t /\ pclk t' = pclk t /\ hmoveLatch t' = hmoveLatch t
  /\ hmoveCt t' = hmoveCt t /\ hblank t' = hblank t /\ wsync t' = wsync t
  /\ Delay t' = Delay t /\ tv t' = tv t.
Proof. unfold resolvePixel. frame_by_cases. Qed.

Lemma serviceLate_frame (sm : bool) (d : ChipData)
      (t : TIA ChipBus DelayQ Video Audio TV Ev) :
  let t' := fst (serviceLate m sm d t) in
  hsync t' = hsync t /\ pclk t' = pclk t /\ hmoveLatch t' = hmoveLatch t
  /\ hmoveCt t' = hmoveCt t /\ hblank t' = hblank t /\ wsync t' = wsync t
  /\ sig t' = sig t /\ tv t' = tv t.
Proof. unfold serviceLate. frame_by_cases. Qed.

Lemma mixAudio_frame (t : TIA ChipBus DelayQ Video Audio TV Ev) :
  let t' := mixAudio m t in
  hsync t' = hsync t /\ pclk t' = pclk t /\ hmoveLatch t' = hmoveLatch t
  /\ hmoveCt t' = hmoveCt t /\ hblank t' = hblank t /\ wsync t' = wsync t
  /\ Delay t' = Delay t /\ tv t' = tv t
  /\ Pixel (sig t') = Pixel (sig t) /\ AltPixel (sig t') = AltPixel (sig t).
Proof. unfold mixAudio. frame_by_cases. Qed.

Lemma sendSignal_frame (t : TIA ChipBus DelayQ Video Audio TV Ev) :
  let t' := fst (fst (sendSignal m t)) in
  hsync t' = hsync t /\ pclk t' = pclk t /\ hmoveLatch t' = hmoveLatch t
  /\ hmoveCt t' = hmoveCt t /\ hblank t' = hblank t /\ wsync t' = wsync t
  /\ Delay t' = Delay t
  /\ Pixel (sig t') = Pixel (sig t) /\ AltPixel (sig t') = AltPixel (sig t)
  /\ tv t' = fst (Signal m (sig t) (tv t)).
Proof. unfold sendSignal. frame_by_cases. Qed.

(** ** Step as its parts in sequence *)

Lemma atVideoTick_eq (sm : bool) (t : TIA ChipBus DelayQ Video Audio TV Ev) :
  exists sm1 d,
    atVideoTick m sm t = fst (serviceVideo m sm1 d (tickHsync m (atHsync m sm t))).
Proof.
  unfold atVideoTick, atHsync.
  destruct (serviceTIA m sm t) as [[t1 sm1] d]. simpl.
  exists sm1, d. reflexivity.
Qed.

Lemma beforeSignal_eq (sm : bool) (t : TIA ChipBus DelayQ Video Audio TV Ev) :
  exists sm2 d,
    beforeSignal m sm t
    = mixAudio m (fst (serviceLate m sm2 d (resolvePixel m (atPixel m sm t)))).
Proof.
  unfold beforeSignal, atPixel, atVideoTick.
  destruct (serviceTIA m sm t) as [[t1 sm1] d].
  destruct (serviceVideo m sm1 d (tickHsync m (tickClocks m t1))) as [t2 sm2].
  simpl.
  destruct (serviceLate m sm2 d (resolvePixel m (tickVideo m t2))) as [t3 sm3] eqn:E.
  exists sm2, d. now rewrite E.
Qed.

(** From the resolution of the pixel to the end of Step the counters, the
    latches and the pixel of the signal stay as they are. *)
Lemma after_pixel_frame (sm : bool) (t : TIA ChipBus DelayQ Video Audio TV Ev) :
  let tp := resolvePixel m (atPixel m sm t) in
  let tb := beforeSignal m sm t in
  hsync tb = hsync tp /\ hmoveLatch tb = hmoveLatch tp /\ hmoveCt tb = hmoveCt tp
  /\ hblank tb = hblank tp /\ wsync tb = wsync tp /\ tv tb = tv tp
  /\ Pixel (sig tb) = Pixel (sig tp) /\ AltPixel (sig tb) = AltPixel (sig tp).
Proof.
  intros tp tb. subst tp tb.
  destruct (beforeSignal_eq sm t) as (sm2 & d & ->).
  pose proof (mixAudio_frame
                (fst (serviceLate m sm2 d (resolvePixel m (atPixel m sm t))))) as Hm.
  pose proof (serviceLate_frame sm2 d (resolvePixel m (atPixel m sm t))) as Hl.
  cbv zeta in Hm, Hl.
  destruct Hm as (M1 & M2 & M3 & M4 & M5 & M6 & M7 & M8 & M9 & M10).
  destruct Hl as (L1 & L2 & L3 & L4 & L5 & L6 & L7 & L8).
  rewrite M1, M3, M4, M5, M6, M8, M9, M10, L1, L3, L4, L5, L6, L7, L8.
  repeat split; reflexivity.
Qed.

(** From the tick of the HSYNC counter to the end of Step the counter and
    the HMOVE latch stay as they are. *)
Lemma after_hsync_frame (sm : bool) (t : TIA ChipBus DelayQ Video Audio TV Ev) :
  let th := tickHsync m (atHsync m sm t) in
  let t' := fst (fst (Step m sm t)) in
  hsync t' = hsync th /\ hmoveLatch t' = hmoveLatch th.
Proof.
  intros th t'. subst th t'. unfold Step.
  pose proof (sendSignal_frame (beforeSignal m sm t)) as Hs.
  pose proof (after_pixel_frame sm t) as Hp.
  pose proof (resolvePixel_frame (atPixel m sm t)) as Hr.
  pose proof (tickVideo_frame (atVideoTick m sm t)) as Hv.
  destruct (atVideoTick_eq sm t) as (sm1 & d & Ha).
  pose proof (serviceVideo_frame sm1 d (tickHsync m (atHsync m sm t))) as Hsv.
  cbv zeta in Hs, Hp, Hr, Hv, Hsv. rewrite <- Ha in Hsv.
  unfold atPixel in *.
  destruct Hs as (S1 & _ & S3 & _).
  destruct Hp as (P1 & P2 & _).
  destruct Hr as (R1 & _ & R3 & _).
  destruct Hv as (V1 & _ & V3 & _).
  destruct Hsv as (W1 & _ & W3 & _).
  rewrite S1, S3, P1, P2, R1, R3, V1, V3, W1, W3.
  split; reflexivity.
Qed.

(** ** The HSYNC counter *)

Lemma tickHsync_count (t : TIA ChipBus DelayQ Video Audio TV Ev) :
  0 <= Count (hsync t) <= 56 ->
  Count (hsync (tickHsync m t))
  = (if Phi2 (pclk t) then (Count (hsync t) + 1) mod 57 else Count (hsync t))
  /\ hmoveLatch (tickHsync m t)
     = (if Phi2 (pclk t) && (Count (hsync t) =? 56) then false else hmoveLatch t)
  /\ pclk (tickHsync m t) = pclk t.
Proof.
  intros Hc. unfold tickHsync.
  destruct (Phi2 (pclk t)); [| repeat split; reflexivity].
  rewrite (wrap57 _ Hc).
  unfold hsyncDecode, schedule, Count, hsyncTick, hsyncReset in *. simpl.
  destruct (hsync t =? 56) eqn:E56.
  - apply Z.eqb_eq in E56. rewrite E56. simpl. repeat split; reflexivity.
  - apply Z.eqb_neq in E56.
    replace (hsync t + 1 =? 57) with false by (symmetry; apply Z.eqb_neq; lia).
    repeat (break_goal; simpl); repeat split; solve [reflexivity | congruence].
Qed.

Lemma tickHsync_iter (n : nat) :
  forall t : TIA ChipBus DelayQ Video Audio TV Ev,
    0 <= Count (hsync t) <= 56 ->
    Phi2 (pclk t) = true ->
    Count (hsync (Nat.iter n (tickHsync m) t))
    = (Count (hsync t) + Z.of_nat n) mod 57
    /\ pclk (Nat.iter n (tickHsync m) t) = pclk t.
Proof.
  induction n as [| n IH]; intros t Hc Hphi.
  - simpl. rewrite Z.add_0_r, Z.mod_small by lia. split; reflexivity.
  - rewrite Nat.iter_succ.
    destruct (IH t Hc Hphi) as [IHc IHp].
    assert (Hr : 0 <= Count (hsync (Nat.iter n (tickHsync m) t)) <= 56).
    { rewrite IHc.
      pose proof (Z.mod_pos_bound (Count (hsync t) + Z.of_nat n) 57). lia. }
    destruct (tickHsync_count _ Hr) as (Tc & _ & Tp).
    rewrite Tc, Tp, IHp, Hphi, IHc. split; [| reflexivity].
    rewrite Zplus_mod_idemp_l. f_equal. lia.
Qed.


(** The queue of delayed events through the late handlers: only the first
    of them, the HMOVE of the sprites, is handed the queue. *)
Lemma serviceLate_Delay (sm : bool) (d : ChipData)
      (t : TIA ChipBus DelayQ Video Audio TV Ev) :
  Delay (fst (serviceLate m sm d t))
  = if sm then snd (fst (UpdateSpriteHMOVE m t d)) else Delay t.
Proof.
  unfold serviceLate. destruct sm.
  - destruct (UpdateSpriteHMOVE m t d) as [[v q] ok]. cbn [fst snd].
    repeat (break_goal; simpl); reflexivity.
  - reflexivity.
Qed.

(** Step as its parts in sequence, with what is left of the chip write when
    the late handlers are reached: nothing, when Step was not asked to
    service memory. *)
Lemma beforeSignal_late (sm : bool) (t : TIA ChipBus DelayQ Video Audio TV Ev) :
  exists sm2 d,
    beforeSignal m sm t
    = mixAudio m (fst (serviceLate m sm2 d (resolvePixel m (atPixel m sm t))))
    /\ (sm = false -> sm2 = false).
Proof.
  unfold beforeSignal, atPixel, atVideoTick.
  destruct (serviceTIA m sm t) as [[t1 sm1] d] eqn:E1.
  destruct (serviceVideo m sm1 d (tickHsync m (tickClocks m t1))) as [t2 sm2] eqn:E2.
  simpl.
  destruct (serviceLate m sm2 d (resolvePixel m (tickVideo m t2))) as [t3 sm3] eqn:E.
  exists sm2, d. split; [now rewrite E |].
  intros ->. unfold serviceTIA in E1. simpl in E1.
  injection E1 as <- <- <-.
  unfold serviceVideo in E2. injection E2 as _ <-. reflexivity.
Qed.

(** The queue of delayed events from the HSYNC part of Step to its end. *)
Lemma Delay_after_hsync (sm : bool) (t : TIA ChipBus DelayQ Video Audio TV Ev) :
  let th := tickHsync m (atHsync m sm t) in
  let tp := resolvePixel m (atPixel m sm t) in
  let t' := fst (fst (Step m sm t)) in
  Delay (atVideoTick m sm t) = Delay th
  /\ Delay tp = Delay th
  /\ exists (late : bool) (d : ChipData),
       Delay t' = (if late then snd (fst (UpdateSpriteHMOVE m tp d)) else Delay th)
       /\ (sm = false -> late = false).
Proof.
  intros th tp t'.
  assert (Hv : Delay (atVideoTick m sm t) = Delay th).
  { destruct (atVideoTick_eq sm t) as (sm1 & d1 & ->).
    pose proof (serviceVideo_frame sm1 d1 th) as H. cbv zeta in H.
    exact (proj1 (proj2 (proj2 (proj2 (proj2 (proj2 (proj2 H))))))). }
  assert (Hp : Delay tp = Delay th).
  { subst tp. unfold atPixel.
    pose proof (resolvePixel_frame (tickVideo m (atVideoTick m sm t))) as Hr.
    pose proof (tickVideo_frame (atVideoTick m sm t)) as Ht.
    cbv zeta in Hr, Ht.
    destruct Hr as (_ & _ & _ & _ & _ & _ & Hr & _).
    destruct Ht as (_ & _ & _ & _ & _ & Ht & _).
    now rewrite Hr, Ht. }
  split; [exact Hv | split; [exact Hp |]].
  destruct (beforeSignal_late sm t) as (sm2 & d & Hb & Hsm).
  exists sm2, d. split; [| exact Hsm].
  subst t'. unfold Step.
  pose proof (sendSignal_frame (beforeSignal m sm t)) as Hs. cbv zeta in Hs.
  destruct Hs as (_ & _ & _ & _ & _ & _ & Hs & _).
  rewrite Hs, Hb.
  pose proof (mixAudio_frame
                (fst (serviceLate m sm2 d (resolvePixel m (atPixel m sm t))))) as Hm.
  cbv zeta in Hm. destruct Hm as (_ & _ & _ & _ & _ & _ & Hm & _).
  rewrite Hm, serviceLate_Delay. fold tp. now rewrite Hp.
Qed.

(** C5.  In a step of the TIA that is on a rising edge of Phi2, with [t0]
    the state in which the HSYNC part of Step is reached: when the counter
    comes to 16 the reset of HBlank is scheduled (delay 3) if the HMOVE
    latch is clear and nothing is scheduled if it is set; when it comes to
    18 the reset is scheduled if the latch is set and nothing if it is
    clear.  The queue with or without the reset is the queue of the step
    from there on: it is the queue at the tick of the video and at the
    resolution of the pixel, and it is the queue Step leaves, unless a chip
    write is still to be serviced at the HMOVE of the sprites, which is then
    handed that queue; a step that is not asked to service memory leaves
    that queue. *)
Theorem hblank_reset_follows_hmoveLatch (sm : bool)
        (t : TIA ChipBus DelayQ Video Audio TV Ev) :
  let t0 := atHsync m sm t in
  let tp := resolvePixel m (atPixel m sm t) in
  let t' := fst (fst (Step m sm t)) in
  let leaves := fun queue : DelayQ =>
    Delay (atVideoTick m sm t) = queue
    /\ Delay tp = queue
    /\ (sm = false -> Delay t' = queue)
    /\ exists (late : bool) (d : ChipData),
         Delay t' = (if late then snd (fst (UpdateSpriteHMOVE m tp d)) else queue)
         /\ (sm = false -> late = false) in
  Phi2 (pclk t0) = true ->
  (Count (hsync t0) + 1 = 16 ->
   leaves (if hmoveLatch t0 then Delay t0
           else Schedule m 3 futureResetHBlank "HRB" (Delay t0)))
  /\ (Count (hsync t0) + 1 = 18 ->
      leaves (if hmoveLatch t0 then Schedule m 3 futureResetHBlank "LHRB" (Delay t0)
              else Delay t0)).
Proof.
  intros t0 tp t' leaves Hphi.
  assert (Hflow : forall queue, Delay (tickHsync m t0) = queue -> leaves queue).
  { intros queue Hq. subst leaves. cbv beta.
    destruct (Delay_after_hsync sm t) as (Hv & Hp & late & d & Ht & Hsm).
    fold t0 in Hv, Hp, Ht. fold tp in Hp, Ht. fold t' in Ht.
    rewrite Hq in Hv, Hp, Ht.
    split; [exact Hv | split; [exact Hp | split]].
    - intros Hf. rewrite Ht, (Hsm Hf). reflexivity.
    - exists late, d. split; assumption. }
  split; intros Hc; apply Hflow; unfold tickHsync; rewrite Hphi;
    unfold hsyncDecode, schedule, Count, hsyncTick, hsyncDelay in *; simpl;
    rewrite Hc; simpl; destruct (hmoveLatch t0); reflexivity.
Qed.

(** C6.  In every step of the TIA, with [tp] the state in which the pixel is
    resolved: the AltPixel of the signal sent to the television is the debug
    color of the video resolution; its Pixel is VideoBlack when hblank is
    set and the resolved color when hblank is clear; hblank is the same when
    the signal is sent; and that signal is what the television receives. *)
Theorem hblank_pixel_is_VideoBlack (sm : bool)
        (t : TIA ChipBus DelayQ Video Audio TV Ev) :
  let tp := atPixel m sm t in
  let sent := sig (beforeSignal m sm t) in
  AltPixel sent = snd (VideoPixel m tp)
  /\ Pixel sent = (if hblank tp then VideoBlack m else snd (fst (VideoPixel m tp)))
  /\ hblank (beforeSignal m sm t) = hblank tp
  /\ tv (fst (fst (Step m sm t)))
     = fst (Signal m sent (tv (beforeSignal m sm t))).
Proof.
  intros tp sent. subst sent.
  destruct (after_pixel_frame sm t) as (_ & _ & _ & Hb & _ & _ & Hp & Ha).
  fold tp in Hb, Hp, Ha.
  rewrite Ha, Hp, Hb.
  unfold Step.
  destruct (sendSignal_frame (beforeSignal m sm t))
    as (_ & _ & _ & _ & _ & _ & _ & _ & _ & Htv).
  rewrite Htv. clear Hb Hp Ha Htv. clearbody tp.
  unfold resolvePixel.
  destruct (VideoPixel m tp) as [[v pixelColor] debugColor]. simpl.
  destruct (hblank tp) eqn:E; simpl; repeat split;
    solve [reflexivity | congruence].
Qed.

(** C7.  With [res] the result of the television's Signal in a step: Step
    returns the error of Signal unless that error is TVOutOfSpec or there is
    none, and then it returns no error; the RDY result is [!wsync] either
    way; and with a TVOutOfSpec error the TIA is left exactly as when Signal
    returns no error. *)
Theorem Step_swallows_TVOutOfSpec (sm : bool)
        (t : TIA ChipBus DelayQ Video Audio TV Ev) :
  let tb := beforeSignal m sm t in
  let res := snd (Signal m (sig tb) (tv tb)) in
  snd (Step m sm t)
  = match res with
    | Some err => if Is err TVOutOfSpec then None else Some err
    | None => None
    end
  /\ snd (fst (Step m sm t)) = negb (wsync tb)
  /\ (forall err, res = Some err -> Is err TVOutOfSpec = true ->
      fst (fst (Step m sm t))
      = set_sig (set_HSyncSimple false (sig tb))
                (set_tv (fst (Signal m (sig tb) (tv tb))) tb))
  /\ (res = None ->
      fst (fst (Step m sm t))
      = set_sig (set_HSyncSimple false (sig tb))
                (set_tv (fst (Signal m (sig tb) (tv tb))) tb)).
Proof.
  intros tb res. subst res. unfold Step, sendSignal. fold tb.
  destruct (Signal m (sig tb) (tv tb)) as [tv' [err |]]; simpl.
  - destruct (Is err TVOutOfSpec) eqn:E; simpl;
      (split; [reflexivity | split; [reflexivity | split]]).
    + intros err' H _. reflexivity.
    + discriminate.
    + intros err' H H'. injection H as <-. congruence.
    + discriminate.
  - split; [reflexivity | split; [reflexivity | split]];
      [discriminate | reflexivity].
Qed.

(** C10.  In every step of the TIA, with [t0] the state in which the video
    objects are ticked: the HMOVE counter is decremented (modulo 256) exactly
    when the phase clock is on Phi2 and the counter is not 0xff, and is left
    alone otherwise; a counter at 0xff is at 0xff at the end of the step;
    and from a value [c] below 0xff the counter reaches 0xff after [c + 1]
    decrements and stays there. *)
Theorem hmoveCt_stops_at_ff (sm : bool)
        (t : TIA ChipBus DelayQ Video Audio TV Ev) :
  let t0 := atVideoTick m sm t in
  let t' := fst (fst (Step m sm t)) in
  hmoveCt t'
  = (if Phi2 (pclk t0) && negb (hmoveCt t0 =? 255) then uint8 (hmoveCt t0 - 1)
     else hmoveCt t0)
  /\ (hmoveCt t0 = 255 -> hmoveCt t' = 255)
  /\ (forall (c : Z) (n : nat),
        0 <= c < 255 ->
        Nat.iter n (hmoveCount true) c
        = if Z.of_nat n <=? c then c - Z.of_nat n else 255).
Proof.
  intros t0 t'.
  assert (H : hmoveCt t' = hmoveCount (Phi2 (pclk t0)) (hmoveCt t0)).
  { subst t'. unfold Step.
    destruct (sendSignal_frame (beforeSignal m sm t)) as (_ & _ & _ & S4 & _).
    destruct (after_pixel_frame sm t) as (_ & _ & P3 & _).
    destruct (resolvePixel_frame (atPixel m sm t)) as (_ & _ & _ & R4 & _).
    destruct (tickVideo_frame t0) as (_ & _ & _ & _ & _ & _ & _ & _ & V9).
    rewrite S4, P3, R4. unfold atPixel. fold t0. exact V9. }
  split; [| split].
  - rewrite H. unfold hmoveCount.
    destruct (Phi2 (pclk t0)); [| reflexivity].
    destruct (hmoveCt t0 =? 255); reflexivity.
  - intros Hff. rewrite H, Hff. unfold hmoveCount.
    destruct (Phi2 (pclk t0)); reflexivity.
  - intros c n Hc. exact (hmoveCount_iter n c Hc).
Qed.

End Chip.


(** The HBlank theorem on the queue that keeps its events, for steps that
    are not asked to service memory: at the decode of 16 with the latch
    clear, Step leaves the reset on the queue; at the decode of 18 with the
    latch clear it leaves the queue empty, and with the latch set it leaves
    the late reset on it. *)
Lemma hblank_reset_follows_hmoveLatch_witness :
  Delay (fst (fst (Step (bareMethods None) false
                        (bareTIA fallingPhi1 15 false true 255))))
  = [(3%nat, futureResetHBlank, "HRB"%string)]
  /\ Delay (fst (fst (Step (bareMethods None) false
                           (bareTIA fallingPhi1 17 false true 255))))
     = []
  /\ Delay (fst (fst (Step (bareMethods None) false
                           (bareTIA fallingPhi1 17 true true 255))))
     = [(3%nat, futureResetHBlank, "LHRB"%string)].
Proof.
  split; [| split].
  - destruct (proj1 (hblank_reset_follows_hmoveLatch _ _ _ _ _ _ _ (bareMethods None)
                       false (bareTIA fallingPhi1 15 false true 255) eq_refl)
                    eq_refl) as (_ & _ & H & _).
    exact (H eq_refl).
  - destruct (proj2 (hblank_reset_follows_hmoveLatch _ _ _ _ _ _ _ (bareMethods None)
                       false (bareTIA fallingPhi1 17 false true 255) eq_refl)
                    eq_refl) as (_ & _ & H & _).
    exact (H eq_refl).
  - destruct (proj2 (hblank_reset_follows_hmoveLatch _ _ _ _ _ _ _ (bareMethods None)
                       false (bareTIA fallingPhi1 17 true true 255) eq_refl)
                    eq_refl) as (_ & _ & H & _).
    exact (H eq_refl).
Defined.

(** The error theorem on a television that reports TVOutOfSpec: Step
    returns no error and has reset HSyncSimple. *)
Lemma Step_swallows_TVOutOfSpec_witness :
  fst (fst (Step (bareMethods (Some (AtariError TVOutOfSpec "too many scanlines")))
                 false (bareTIA risingPhi1 20 false false 255)))
  = set_sig (set_HSyncSimple false
               (sig (beforeSignal
                       (bareMethods (Some (AtariError TVOutOfSpec "too many scanlines")))
                       false (bareTIA risingPhi1 20 false false 255))))
            (beforeSignal
               (bareMethods (Some (AtariError TVOutOfSpec "too many scanlines")))
               false (bareTIA risingPhi1 20 false false 255)).
Proof.
  destruct (Step_swallows_TVOutOfSpec _ _ _ _ _ _ _
              (bareMethods (Some (AtariError TVOutOfSpec "too many scanlines")))
              false (bareTIA risingPhi1 20 false false 255)) as (_ & _ & H & _).
  exact (H (AtariError TVOutOfSpec "too many scanlines") eq_refl eq_refl).
Defined.

(** The HMOVE theorem on a TIA on Phi2 whose counter is at 0xff, and on a
    counter started at 15: after 20 decrements it is at 0xff. *)
Lemma hmoveCt_stops_at_ff_witness :
  hmoveCt (fst (fst (Step (bareMethods None) false
                          (bareTIA fallingPhi1 20 false false 255)))) = 255
  /\ Nat.iter 20 (hmoveCount true) 15 = 255.
Proof.
  destruct (hmoveCt_stops_at_ff _ _ _ _ _ _ _ (bareMethods None) false
              (bareTIA fallingPhi1 20 false false 255)) as (_ & H2 & H3).
  split.
  - apply H2. reflexivity.
  - apply (H3 15 20%nat). lia.
Defined.

End TIATheory.

(* ===================================================================== *)
(** * Properties of the stepper                                           *)
(* ===================================================================== *)

Module HardwareTheory.
Import GoLib Hardware.

Lemma wrapInt_add (a b : Z) : wrapInt (wrapInt a + b) = wrapInt (a + b).
Proof.
  unfold wrapInt. f_equal.
  replace ((a + 2 ^ 63) mod 2 ^ 64 - 2 ^ 63 + b + 2 ^ 63)
    with ((a + 2 ^ 63) mod 2 ^ 64 + b) by lia.
  rewrite Zplus_mod_idemp_l. f_equal. lia.
Qed.

Lemma wrapInt_small (a : Z) : - 2 ^ 63 <= a < 2 ^ 63 -> wrapInt a = a.
Proof.
  intros H. unfold wrapInt. rewrite Z.mod_small; lia.
Qed.

Lemma countCalls_app (c : Call) (l1 l2 : list Call) :
  countCalls c (l1 ++ l2) = (countCalls c l1 + countCalls c l2)%nat.
Proof.
  unfold countCalls. now rewrite filter_app, length_app.
Qed.

Lemma countCalls_cycles (c : Call) (n : nat) :
  countCalls c (List.concat (repeat cycleCalls n)) = (n * countCalls c cycleCalls)%nat.
Proof.
  induction n as [| n IH]; [reflexivity |].
  cbn [repeat List.concat]. rewrite countCalls_app, IH. simpl. lia.
Qed.

Lemma cycles_snoc (n : nat) :
  List.concat (repeat cycleCalls n) ++ cycleCalls = List.concat (repeat cycleCalls (S n)).
Proof.
  induction n as [| n IH]; [reflexivity |].
  cbn [repeat List.concat] in *. now rewrite <- app_assoc, IH.
Qed.

(** The chip-write inbox of the TIA is read before the third color clock of
    every cycle, and before no other. *)
Lemma serviced_cycles (n : nat) :
  serviced false (List.concat (repeat cycleCalls n))
  = List.concat (repeat [false; false; true] n).
Proof.
  induction n as [| n IH]; [reflexivity |].
  cbn [repeat List.concat]. unfold cycleCalls at 1. simpl. now rewrite IH.
Qed.

Section Stepper.

Variables (Regs Chips Result Err Obs : Type).
Variable m : Methods Regs Chips Result Err.
Variable videoCycleCallback : option Result -> VCS Regs Chips -> Obs -> Obs.

(** ** One cycle *)

Lemma cycleVCS_effect (r : option Result) (s : StepState Regs Chips Obs) :
  calls (cycleVCS m videoCycleCallback r s) = calls s ++ cycleCalls
  /\ cpuCycles (cycleVCS m videoCycleCallback r s) = wrapInt (cpuCycles s + 1)
  /\ regs (MC (vcs (cycleVCS m videoCycleCallback r s))) = regs (MC (vcs s))
  /\ chips (vcs (cycleVCS m videoCycleCallback r s))
     = fst (StepVideoCycle m
         (ReadTIAMemory m
           (fst (StepVideoCycle m
             (fst (StepVideoCycle m
               (RIOTStep m (ReadRIOTMemory m (chips (vcs s))))))))))
  /\ RdyFlg (MC (vcs (cycleVCS m videoCycleCallback r s)))
     = snd (StepVideoCycle m
         (ReadTIAMemory m
           (fst (StepVideoCycle m
             (fst (StepVideoCycle m
               (RIOTStep m (ReadRIOTMemory m (chips (vcs s)))))))))).
Proof.
  unfold cycleVCS, videoCycle, readTIA, riotCycle. simpl.
  destruct (StepVideoCycle m (RIOTStep m (ReadRIOTMemory m (chips (vcs s)))))
    as [c1 rdy1]. simpl.
  destruct (StepVideoCycle m c1) as [c2 rdy2]. simpl.
  destruct (StepVideoCycle m (ReadTIAMemory m c2)) as [c3 rdy3]. simpl.
  rewrite <- !app_assoc. repeat split; reflexivity.
Qed.

Lemma iter_effect (r : option Result) (n : nat) :
  forall s : StepState Regs Chips Obs,
    calls (Nat.iter n (cycleVCS m videoCycleCallback r) s)
    = calls s ++ List.concat (repeat cycleCalls n)
    /\ (forall x, cpuCycles s = wrapInt x ->
        cpuCycles (Nat.iter n (cycleVCS m videoCycleCallback r) s)
        = wrapInt (x + Z.of_nat n))
    /\ regs (MC (vcs (Nat.iter n (cycleVCS m videoCycleCallback r) s)))
       = regs (MC (vcs s)).
Proof.
  induction n as [| n IH]; intros s.
  - simpl. rewrite app_nil_r. split; [reflexivity | split; [| reflexivity]].
    intros x ->. now rewrite Z.add_0_r.
  - rewrite Nat.iter_succ.
    destruct (IH s) as (Ic & Ip & Ir).
    destruct (cycleVCS_effect r (Nat.iter n (cycleVCS m videoCycleCallback r) s))
      as (Cc & Cp & Cr & _).
    rewrite Cc, Cp, Cr, Ic, Ir. split; [| split; [| reflexivity]].
    + now rewrite <- app_assoc, cycles_snoc.
    + intros x Hx. rewrite (Ip x Hx), wrapInt_add. f_equal. lia.
Qed.

(** ** The execution of the instruction *)

Lemma run_effect (e : Execution Regs Chips Result Err) :
  forall s : StepState Regs Chips Obs,
  exists n : nat,
    calls (fst (fst (run m videoCycleCallback e s)))
    = calls s ++ List.concat (repeat cycleCalls n)
    /\ (forall x, cpuCycles s = wrapInt x ->
        cpuCycles (fst (fst (run m videoCycleCallback e s)))
        = wrapInt (x + Z.of_nat n)).
Proof.
  induction e as [v r err | v r k IH]; intros s.
  - exists 0%nat. simpl. rewrite app_nil_r. split; [reflexivity |].
    intros x ->. now rewrite Z.add_0_r.
  - cbn [run].
    set (s0 := mkStepState v (cpuCycles s) (obs s) (calls s)).
    destruct (cycleVCS_effect r s0) as (Cc & Cp & _).
    destruct (IH (vcs (cycleVCS m videoCycleCallback r s0))
                 (cycleVCS m videoCycleCallback r s0)) as (n & Hc & Hp).
    exists (S n). split.
    + rewrite Hc, Cc. subst s0. cbn [calls].
      rewrite <- app_assoc. f_equal.
    + intros x Hx. rewrite (Hp (x + 1)).
      * f_equal. lia.
      * rewrite Cp. subst s0. cbn [cpuCycles]. rewrite Hx. apply wrapInt_add.
Qed.

(** ** The loop that waits for RDY *)

Lemma drain_iter (r : option Result) (fuel : nat) :
  forall s s' : StepState Regs Chips Obs,
    drain m videoCycleCallback fuel r s = Some s' ->
    exists n : nat,
      (n <= fuel)%nat
      /\ s' = Nat.iter n (cycleVCS m videoCycleCallback r) s
      /\ (forall k : nat, (k < n)%nat ->
          RdyFlg (MC (vcs (Nat.iter k (cycleVCS m videoCycleCallback r) s))) = false)
      /\ RdyFlg (MC (vcs s')) = true.
Proof.
  induction fuel as [| fuel IH]; intros s s' H; simpl in H.
  - destruct (RdyFlg (MC (vcs s))) eqn:E; [| discriminate].
    injection H as <-. exists 0%nat. repeat split; [lia | | exact E].
    intros k Hk. lia.
  - destruct (RdyFlg (MC (vcs s))) eqn:E.
    + injection H as <-. exists 0%nat. repeat split; [lia | | exact E].
      intros k Hk. lia.
    + destruct (IH _ _ H) as (n & Hn & Hs & Hlow & Hhigh).
      exists (S n). repeat split.
      * lia.
      * rewrite Nat.iter_succ_r. exact Hs.
      * intros [| k] Hk; [exact E |].
        rewrite Nat.iter_succ_r. apply Hlow. lia.
      * exact Hhigh.
Qed.

Lemma drain_returns (r : option Result) (n : nat) :
  forall (s : StepState Regs Chips Obs) (fuel : nat),
    RdyFlg (MC (vcs (Nat.iter n (cycleVCS m videoCycleCallback r) s))) = true ->
    (n <= fuel)%nat ->
    drain m videoCycleCallback fuel r s <> None.
Proof.
  induction n as [| n IH]; intros s fuel H Hle.
  - simpl in H. destruct fuel; simpl; rewrite H; discriminate.
  - destruct fuel as [| fuel]; [lia |].
    simpl. destruct (RdyFlg (MC (vcs s))); [discriminate |].
    apply IH; [| lia]. now rewrite <- Nat.iter_succ_r.
Qed.

(** ** VCS.Step *)

Lemma cycles_add (a b : nat) :
  List.concat (repeat cycleCalls a) ++ List.concat (repeat cycleCalls b)
  = List.concat (repeat cycleCalls (a + b)).
Proof.
  induction a as [| a IH]; [reflexivity |].
  cbn [repeat List.concat Nat.add]. now rewrite <- app_assoc, IH.
Qed.

(** The two ways in which Step returns: with the error of the instruction,
    or after the loop that waits for RDY. *)
Lemma Step_cases (fuel : nat) (v : VCS Regs Chips) (o : Obs)
      (s : StepState Regs Chips Obs) (r' : option Result) (err : option Err) :
  Step m videoCycleCallback fuel v o = Some (s, r', err) ->
  exists s1 r e1,
    afterInstruction m videoCycleCallback v o = (s1, r, e1)
    /\ ((exists e, e1 = Some e /\ err = Some e /\ s = s1 /\ r' = None)
        \/ (e1 = None /\ err = None /\ r' = r
            /\ drain m videoCycleCallback fuel r s1 = Some s)).
Proof.
  unfold Step.
  destruct (afterInstruction m videoCycleCallback v o) as [[s1 r] e1].
  intros H. exists s1, r, e1. split; [reflexivity |].
  destruct e1 as [e |].
  - injection H as <- <- <-. left. exists e. repeat split; reflexivity.
  - destruct (drain m videoCycleCallback fuel r s1) as [s2 |]; [| discriminate].
    injection H as <- <- <-. right. repeat split; reflexivity.
Qed.

Lemma afterInstruction_effect (v : VCS Regs Chips) (o : Obs) :
  exists n : nat,
    calls (fst (fst (afterInstruction m videoCycleCallback v o)))
    = List.concat (repeat cycleCalls n)
    /\ cpuCycles (fst (fst (afterInstruction m videoCycleCallback v o)))
       = wrapInt (Z.of_nat n).
Proof.
  unfold afterInstruction.
  destruct (run_effect (ExecuteInstruction m (vcs (startStep m v o)))
                       (startStep m v o)) as (n & Hc & Hp).
  exists n. split; [exact Hc |].
  apply (Hp 0). reflexivity.
Qed.

(** All that Step calls is whole cycles, and it counts them. *)
Lemma Step_cycles (fuel : nat) (v : VCS Regs Chips) (o : Obs)
      (s : StepState Regs Chips Obs) (r : option Result) (err : option Err) :
  Step m videoCycleCallback fuel v o = Some (s, r, err) ->
  exists n : nat,
    calls s = List.concat (repeat cycleCalls n)
    /\ cpuCycles s = wrapInt (Z.of_nat n).
Proof.
  intros H.
  destruct (Step_cases _ _ _ _ _ _ H) as (s1 & r1 & e1 & Ha & Hcase).
  destruct (afterInstruction_effect v o) as (n1 & Hc & Hp).
  rewrite Ha in Hc, Hp. simpl in Hc, Hp.
  destruct Hcase as [(e & _ & _ & -> & _) | (_ & _ & _ & Hd)].
  - exists n1. split; assumption.
  - destruct (drain_iter _ _ _ _ Hd) as (n2 & _ & -> & _).
    destruct (iter_effect r1 n2 s1) as (Ic & Ip & _).
    exists (n1 + n2)%nat. split.
    + now rewrite Ic, Hc, cycles_add.
    + rewrite (Ip _ Hp). f_equal. lia.
Qed.

(** Step returns exactly when the instruction fails, or some number of
    cycles within the fuel brings RDY high. *)
Lemma Step_returns (fuel : nat) (v : VCS Regs Chips) (o : Obs)
      (s1 : StepState Regs Chips Obs) (r : option Result) :
  afterInstruction m videoCycleCallback v o = (s1, r, None) ->
  (Step m videoCycleCallback fuel v o <> None
   <-> exists n : nat,
       (n <= fuel)%nat
       /\ RdyFlg (MC (vcs (Nat.iter n (cycleVCS m videoCycleCallback r) s1))) = true).
Proof.
  intros Ha. unfold Step. rewrite Ha. split.
  - destruct (drain m videoCycleCallback fuel r s1) as [s2 |] eqn:Hd;
      [| intros H; now elim H].
    intros _. destruct (drain_iter _ _ _ _ Hd) as (n & Hn & Hs & _ & Hhigh).
    exists n. split; [exact Hn | now rewrite <- Hs].
  - intros (n & Hn & Hhigh).
    pose proof (drain_returns r n s1 fuel Hhigh Hn) as Hd.
    destruct (drain m videoCycleCallback fuel r s1); [discriminate | now elim Hd].
Qed.

Lemma Step_fails (fuel : nat) (v : VCS Regs Chips) (o : Obs)
      (s1 : StepState Regs Chips Obs) (r : option Result) (e : Err) :
  afterInstruction m videoCycleCallback v o = (s1, r, Some e) ->
  Step m videoCycleCallback fuel v o = Some (s1, None, Some e).
Proof.
  intros Ha. unfold Step. now rewrite Ha.
Qed.

End Stepper.

(** With the callback that counts, what it has counted is the number of
    callbacks among the calls. *)
Section Counting.

Variables (Regs Chips Result Err : Type).
Variable m : Methods Regs Chips Result Err.

Lemma counting_cycle (r : option Result) (s : StepState Regs Chips nat) :
  obs s = countCalls VideoCycleCallback (calls s) ->
  obs (cycleVCS m countingCallback r s)
  = countCalls VideoCycleCallback (calls (cycleVCS m countingCallback r s)).
Proof.
  intros H.
  destruct (cycleVCS_effect _ _ _ _ _ m countingCallback r s) as (Cc & _).
  rewrite Cc, countCalls_app, <- H.
  unfold cycleVCS, videoCycle, readTIA, riotCycle. simpl.
  repeat match goal with
         | |- context [StepVideoCycle m ?c] => destruct (StepVideoCycle m c); simpl
         end.
  unfold countingCallback.
  change (countCalls VideoCycleCallback cycleCalls) with 3%nat. lia.
Qed.

Lemma counting_run (e : Execution Regs Chips Result Err) :
  forall s : StepState Regs Chips nat,
    obs s = countCalls VideoCycleCallback (calls s) ->
    obs (fst (fst (run m countingCallback e s)))
    = countCalls VideoCycleCallback (calls (fst (fst (run m countingCallback e s)))).
Proof.
  induction e as [v r err | v r k IH]; intros s H.
  - exact H.
  - cbn [run]. apply IH. apply counting_cycle. exact H.
Qed.

Lemma counting_iter (r : option Result) (n : nat) :
  forall s : StepState Regs Chips nat,
    obs s = countCalls VideoCycleCallback (calls s) ->
    obs (Nat.iter n (cycleVCS m countingCallback r) s)
    = countCalls VideoCycleCallback
        (calls (Nat.iter n (cycleVCS m countingCallback r) s)).
Proof.
  induction n as [| n IH]; intros s H; [exact H |].
  rewrite Nat.iter_succ. apply counting_cycle, IH, H.
Qed.

Lemma counting_Step (fuel : nat) (v : VCS Regs Chips)
      (s : StepState Regs Chips nat) (r : option Result) (err : option Err) :
  Step m countingCallback fuel v 0%nat = Some (s, r, err) ->
  obs s = countCalls VideoCycleCallback (calls s).
Proof.
  intros H.
  destruct (Step_cases _ _ _ _ _ m countingCallback _ _ _ _ _ _ H)
    as (s1 & r1 & e1 & Ha & Hcase).
  assert (H1 : obs s1 = countCalls VideoCycleCallback (calls s1)).
  { pose proof (counting_run (ExecuteInstruction m (vcs (startStep m v 0%nat)))
                             (startStep m v 0%nat) eq_refl) as Hr.
    unfold afterInstruction in Ha. rewrite Ha in Hr. exact Hr. }
  destruct Hcase as [(e & _ & _ & -> & _) | (_ & _ & _ & Hd)]; [exact H1 |].
  destruct (drain_iter _ _ _ _ _ m countingCallback _ _ _ _ Hd) as (n2 & _ & -> & _).
  apply counting_iter, H1.
Qed.

End Counting.

(** C1, as amended.  For every CPU cycle driven by the stepper, cycleVCS
    reads the RIOT memory and steps the RIOT once, steps the TIA three times
    (each step followed by the video-cycle callback) and reads the chip-write
    inbox of the TIA once, between the second and the third color clock: the
    inbox is serviced at the third color clock only, so a pending chip write
    is consumed at most once.  Everything Step calls is a sequence of such
    cycles. *)
Theorem cycleVCS_steps_riot_once_tia_thrice :
  forall (Regs Chips Result Err Obs : Type) (m : Methods Regs Chips Result Err)
         (cb : option Result -> VCS Regs Chips -> Obs -> Obs),
    (forall (r : option Result) (s : StepState Regs Chips Obs),
        calls (cycleVCS m cb r s) = calls s ++ cycleCalls
        /\ chips (vcs (cycleVCS m cb r s))
           = fst (StepVideoCycle m
               (ReadTIAMemory m
                 (fst (StepVideoCycle m
                   (fst (StepVideoCycle m
                     (RIOTStep m (ReadRIOTMemory m (chips (vcs s)))))))))))
    /\ countCalls RIOT_Step cycleCalls = 1%nat
    /\ countCalls TIA_StepVideoCycle cycleCalls = 3%nat
    /\ countCalls TIA_ReadTIAMemory cycleCalls = 1%nat
    /\ serviced false cycleCalls = [false; false; true]
    /\ (forall (fuel : nat) (v : VCS Regs Chips) (o : Obs)
               (s : StepState Regs Chips Obs) (r : option Result) (err : option Err),
          Step m cb fuel v o = Some (s, r, err) ->
          exists n : nat,
            calls s = List.concat (repeat cycleCalls n)
            /\ serviced false (calls s) = List.concat (repeat [false; false; true] n)).
Proof.
  intros Regs Chips Result Err Obs m cb.
  split; [| repeat split; try reflexivity].
  - intros r s.
    destruct (cycleVCS_effect _ _ _ _ _ m cb r s) as (Hc & _ & _ & Hch & _).
    split; assumption.
  - intros fuel v o s r err H.
    destruct (Step_cycles _ _ _ _ _ m cb _ _ _ _ _ _ H) as (n & Hc & _).
    exists n. split; [exact Hc |].
    rewrite Hc. apply serviced_cycles.
Qed.

(** The theorem on the small machine: the calls of a whole Step are cycles,
    each with its one read of the inbox at the third color clock. *)
Lemma cycleVCS_steps_riot_once_tia_thrice_witness :
  match Step (stallMethods 10) countingCallback 5 stallVCS 0%nat with
  | Some (s, _, _) =>
      exists n : nat,
        calls s = List.concat (repeat cycleCalls n)
        /\ serviced false (calls s) = List.concat (repeat [false; false; true] n)
  | None => False
  end.
Proof.
  destruct (Step (stallMethods 10) countingCallback 5 stallVCS 0%nat)
    as [[[s r] err] |] eqn:E.
  - destruct (cycleVCS_steps_riot_once_tia_thrice _ _ _ _ _
                (stallMethods 10) (@countingCallback Z nat unit))
      as (_ & _ & _ & _ & _ & H).
    exact (H 5%nat stallVCS 0%nat s r err E).
  - vm_compute in E. discriminate E.
Defined.

(** C1, as stated, fails: in a cycle of the stepper the chip-write inbox of
    the TIA is not read at the first color clock.  The color clocks of one
    cycle are serviced [false; false; true], not [true; false; true]. *)
Lemma cycleVCS_does_not_service_first_clock :
  serviced false
    (calls (cycleVCS (stallMethods 10) countingCallback (Some tt)
                     (startStep (stallMethods 10) stallVCS 0%nat)))
  = [false; false; true]
  /\ serviced false
       (calls (cycleVCS (stallMethods 10) countingCallback (Some tt)
                        (startStep (stallMethods 10) stallVCS 0%nat)))
     <> [true; false; true].
Proof.
  split; [reflexivity | discriminate].
Qed.

(** C3.  Whenever Step returns, with [n] the number of CPU cycles it drove
    (the cycles of the instruction and those spent waiting for RDY): the
    cycle count it returns is [n] (as a Go int), the TIA was stepped [3 * n]
    times and the video-cycle callback was called [3 * n] times; as long as
    [n] fits an int, both numbers are three times the returned count.  With
    the callback that counts its calls, the count is [3 * n] too.  And Step
    does return: at once when the instruction fails, and otherwise exactly
    when some number of cycles within the fuel brings RDY high. *)
Theorem color_clocks_are_three_per_cpu_cycle :
  forall (Regs Chips Result Err : Type) (m : Methods Regs Chips Result Err),
    (forall (Obs : Type) (cb : option Result -> VCS Regs Chips -> Obs -> Obs)
            (fuel : nat) (v : VCS Regs Chips) (o : Obs)
            (s : StepState Regs Chips Obs) (r : option Result) (err : option Err),
        Step m cb fuel v o = Some (s, r, err) ->
        exists n : nat,
          cpuCycles s = wrapInt (Z.of_nat n)
          /\ countCalls RIOT_Step (calls s) = n
          /\ countCalls TIA_StepVideoCycle (calls s) = (3 * n)%nat
          /\ countCalls VideoCycleCallback (calls s) = (3 * n)%nat
          /\ (Z.of_nat n < 2 ^ 63 ->
              Z.of_nat (countCalls TIA_StepVideoCycle (calls s)) = 3 * cpuCycles s
              /\ Z.of_nat (countCalls VideoCycleCallback (calls s)) = 3 * cpuCycles s))
    /\ (forall (fuel : nat) (v : VCS Regs Chips)
               (s : StepState Regs Chips nat) (r : option Result) (err : option Err),
          Step m countingCallback fuel v 0%nat = Some (s, r, err) ->
          obs s = (3 * countCalls RIOT_Step (calls s))%nat)
    /\ (forall (Obs : Type) (cb : option Result -> VCS Regs Chips -> Obs -> Obs)
               (fuel : nat) (v : VCS Regs Chips) (o : Obs)
               (s1 : StepState Regs Chips Obs) (r : option Result),
          (forall e : Err,
              afterInstruction m cb v o = (s1, r, Some e) ->
              Step m cb fuel v o = Some (s1, None, Some e))
          /\ (afterInstruction m cb v o = (s1, r, None) ->
              (Step m cb fuel v o <> None
               <-> exists n : nat,
                   (n <= fuel)%nat
                   /\ RdyFlg (MC (vcs (Nat.iter n (cycleVCS m cb r) s1))) = true))).
Proof.
  intros Regs Chips Result Err m.
  assert (General :
    forall (Obs : Type) (cb : option Result -> VCS Regs Chips -> Obs -> Obs)
           (fuel : nat) (v : VCS Regs Chips) (o : Obs)
           (s : StepState Regs Chips Obs) (r : option Result) (err : option Err),
      Step m cb fuel v o = Some (s, r, err) ->
      exists n : nat,
        cpuCycles s = wrapInt (Z.of_nat n)
        /\ countCalls RIOT_Step (calls s) = n
        /\ countCalls TIA_StepVideoCycle (calls s) = (3 * n)%nat
        /\ countCalls VideoCycleCallback (calls s) = (3 * n)%nat).
  { intros Obs cb fuel v o s r err H.
    destruct (Step_cycles _ _ _ _ _ m cb _ _ _ _ _ _ H) as (n & Hc & Hp).
    exists n. rewrite Hc, !countCalls_cycles.
    change (countCalls RIOT_Step cycleCalls) with 1%nat.
    change (countCalls TIA_StepVideoCycle cycleCalls) with 3%nat.
    change (countCalls VideoCycleCallback cycleCalls) with 3%nat.
    repeat split; [exact Hp | lia | lia | lia]. }
  split; [| split].
  - intros Obs cb fuel v o s r err H.
    destruct (General Obs cb fuel v o s r err H) as (n & Hp & Hr & Ht & Hv).
    exists n. repeat split; try assumption.
    + rewrite Ht, Hp, wrapInt_small by lia. lia.
    + rewrite Hv, Hp, wrapInt_small by lia. lia.
  - intros fuel v s r err H.
    destruct (General nat countingCallback fuel v 0%nat s r err H)
      as (n & _ & Hr & _ & Hv).
    rewrite (counting_Step _ _ _ _ m _ _ _ _ _ H), Hv, Hr. reflexivity.
  - intros Obs cb fuel v o s1 r. split.
    + intros e Ha. exact (Step_fails _ _ _ _ _ m cb fuel v o s1 r e Ha).
    + intros Ha. exact (Step_returns _ _ _ _ _ m cb fuel v o s1 r Ha).
Qed.

(** The theorem on the small machine: six CPU cycles, eighteen color
    clocks. *)
Lemma color_clocks_are_three_per_cpu_cycle_witness :
  match Step (stallMethods 10) countingCallback 5 stallVCS 0%nat with
  | Some (s, _, _) => cpuCycles s = 6 /\ obs s = 18%nat
  | None => False
  end.
Proof.
  destruct (color_clocks_are_three_per_cpu_cycle _ _ _ _ (stallMethods 10))
    as (Hgen & Hcount & _).
  destruct (Step (stallMethods 10) countingCallback 5 stallVCS 0%nat)
    as [[[s r] err] |] eqn:E.
  - destruct (Hgen _ _ _ _ _ _ _ _ E) as (n & Hp & Hr & _).
    pose proof (Hcount _ _ _ _ _ E) as Ho.
    vm_compute in E. injection E as <- _ _.
    vm_compute in Hr. subst n.
    split; [exact Hp | exact Ho].
  - vm_compute in E. discriminate E.
Defined.

End HardwareTheory.

(* ===================================================================== *)
(** * The stepper while RDY is low                                        *)
(* ===================================================================== *)

Module ClosureTheory.
Import GoLib Hardware HardwareTheory.

Section Stepper.

Variables (Regs Chips Result Err Obs : Type).
Variable m : Methods Regs Chips Result Err.
Variable cb : option Result -> VCS Regs Chips -> Obs -> VCS Regs Chips * Obs.

(** ** One cycle *)

Lemma closure_cycle_counts (r : option Result) (s : StepState Regs Chips Obs) :
  calls (Closure.cycleVCS m cb r s) = calls s ++ cycleCalls
  /\ cpuCycles (Closure.cycleVCS m cb r s) = wrapInt (cpuCycles s + 1).
Proof.
  unfold Closure.cycleVCS, Closure.videoCycle, readTIA, riotCycle. simpl.
  destruct (StepVideoCycle m (RIOTStep m (ReadRIOTMemory m (chips (vcs s)))))
    as [c1 rdy1]. simpl.
  destruct (cb r _ (obs s)) as [v1 o1]. simpl.
  destruct (StepVideoCycle m (chips v1)) as [c2 rdy2]. simpl.
  destruct (cb r _ o1) as [v2 o2]. simpl.
  destruct (StepVideoCycle m (ReadTIAMemory m (chips v2))) as [c3 rdy3]. simpl.
  destruct (cb r _ o2) as [v3 o3]. simpl.
  rewrite <- !app_assoc. split; reflexivity.
Qed.

Lemma closure_cycle_regs (r : option Result) (s : StepState Regs Chips Obs) :
  (forall r' v o, regs (MC (fst (cb r' v o))) = regs (MC v)) ->
  regs (MC (vcs (Closure.cycleVCS m cb r s))) = regs (MC (vcs s)).
Proof.
  intros H.
  unfold Closure.cycleVCS, Closure.videoCycle, readTIA, riotCycle. simpl.
  destruct (StepVideoCycle m (RIOTStep m (ReadRIOTMemory m (chips (vcs s)))))
    as [c1 rdy1]. simpl.
  match goal with |- context [cb r ?v ?o] =>
    pose proof (H r v o) as H1; destruct (cb r v o) as [v1 o1] end.
  simpl in H1 |- *.
  destruct (StepVideoCycle m (chips v1)) as [c2 rdy2]. simpl.
  match goal with |- context [cb r ?v ?o] =>
    pose proof (H r v o) as H2; destruct (cb r v o) as [v2 o2] end.
  simpl in H2 |- *.
  destruct (StepVideoCycle m (ReadTIAMemory m (chips v2))) as [c3 rdy3]. simpl.
  match goal with |- context [cb r ?v ?o] =>
    pose proof (H r v o) as H3; destruct (cb r v o) as [v3 o3] end.
  simpl in H3 |- *.
  congruence.
Qed.

Lemma closure_cycle_hardware (r : option Result) (s : StepState Regs Chips Obs) :
  (forall r' v o, fst (cb r' v o) = v) ->
  chips (vcs (Closure.cycleVCS m cb r s))
  = fst (Closure.hardwareCycle m (chips (vcs s)))
  /\ RdyFlg (MC (vcs (Closure.cycleVCS m cb r s)))
     = snd (Closure.hardwareCycle m (chips (vcs s))).
Proof.
  intros H.
  unfold Closure.cycleVCS, Closure.videoCycle, Closure.hardwareCycle,
    readTIA, riotCycle. simpl.
  destruct (StepVideoCycle m (RIOTStep m (ReadRIOTMemory m (chips (vcs s)))))
    as [c1 rdy1]. simpl.
  match goal with |- context [cb r ?v ?o] =>
    pose proof (H r v o) as H1; destruct (cb r v o) as [v1 o1] end.
  simpl in H1. subst v1. simpl.
  destruct (StepVideoCycle m c1) as [c2 rdy2]. simpl.
  match goal with |- context [cb r ?v ?o] =>
    pose proof (H r v o) as H2; destruct (cb r v o) as [v2 o2] end.
  simpl in H2. subst v2. simpl.
  destruct (StepVideoCycle m (ReadTIAMemory m c2)) as [c3 rdy3]. simpl.
  match goal with |- context [cb r ?v ?o] =>
    pose proof (H r v o) as H3; destruct (cb r v o) as [v3 o3] end.
  simpl in H3. subst v3. simpl.
  split; reflexivity.
Qed.

(** ** Cycles one after the other *)

Lemma closure_iter_calls (r : option Result) (n : nat)
      (s : StepState Regs Chips Obs) :
  calls (Nat.iter n (Closure.cycleVCS m cb r) s)
  = calls s ++ List.concat (repeat cycleCalls n).
Proof.
  induction n as [| n IH].
  - simpl. now rewrite app_nil_r.
  - rewrite Nat.iter_succ.
    rewrite (proj1 (closure_cycle_counts r _)), IH.
    now rewrite <- app_assoc, cycles_snoc.
Qed.

Lemma closure_iter_regs (r : option Result) (n : nat)
      (s : StepState Regs Chips Obs) :
  (forall r' v o, regs (MC (fst (cb r' v o))) = regs (MC v)) ->
  regs (MC (vcs (Nat.iter n (Closure.cycleVCS m cb r) s))) = regs (MC (vcs s)).
Proof.
  intros H. induction n as [| n IH]; [reflexivity |].
  rewrite Nat.iter_succ, closure_cycle_regs by exact H. exact IH.
Qed.

Lemma closure_iter_hardware (r : option Result) (n : nat)
      (s : StepState Regs Chips Obs) :
  (forall r' v o, fst (cb r' v o) = v) ->
  chips (vcs (Nat.iter n (Closure.cycleVCS m cb r) s))
  = Nat.iter n (fun c => fst (Closure.hardwareCycle m c)) (chips (vcs s))
  /\ RdyFlg (MC (vcs (Nat.iter (S n) (Closure.cycleVCS m cb r) s)))
     = snd (Closure.hardwareCycle m
              (Nat.iter n (fun c => fst (Closure.hardwareCycle m c))
                        (chips (vcs s)))).
Proof.
  intros H.
  assert (Hc : forall k,
             chips (vcs (Nat.iter k (Closure.cycleVCS m cb r) s))
             = Nat.iter k (fun c => fst (Closure.hardwareCycle m c))
                        (chips (vcs s))).
  { induction k as [| k IH]; [reflexivity |].
    rewrite !Nat.iter_succ.
    rewrite (proj1 (closure_cycle_hardware r _ H)), IH. reflexivity. }
  split; [apply Hc |].
  rewrite Nat.iter_succ.
  rewrite (proj2 (closure_cycle_hardware r _ H)), Hc. reflexivity.
Qed.

(** ** The loop that waits for RDY *)

Lemma closure_drain_iter (r : option Result) (fuel : nat) :
  forall s s' : StepState Regs Chips Obs,
    Closure.drain m cb fuel r s = Some s' ->
    exists n : nat,
      (n <= fuel)%nat
      /\ s' = Nat.iter n (Closure.cycleVCS m cb r) s
      /\ (forall k : nat, (k < n)%nat ->
          RdyFlg (MC (vcs (Nat.iter k (Closure.cycleVCS m cb r) s))) = false)
      /\ RdyFlg (MC (vcs s')) = true.
Proof.
  induction fuel as [| fuel IH]; intros s s' H; simpl in H.
  - destruct (RdyFlg (MC (vcs s))) eqn:E; [| discriminate].
    injection H as <-. exists 0%nat. repeat split; [lia | | exact E].
    intros k Hk. lia.
  - destruct (RdyFlg (MC (vcs s))) eqn:E.
    + injection H as <-. exists 0%nat. repeat split; [lia | | exact E].
      intros k Hk. lia.
    + destruct (IH _ _ H) as (n & Hn & Hs & Hlow & Hhigh).
      exists (S n). repeat split.
      * lia.
      * rewrite Nat.iter_succ_r. exact Hs.
      * intros [| k] Hk; [exact E |].
        rewrite Nat.iter_succ_r. apply Hlow. lia.
      * exact Hhigh.
Qed.

Lemma closure_drain_returns (r : option Result) (n : nat) :
  forall (s : StepState Regs Chips Obs) (fuel : nat),
    RdyFlg (MC (vcs (Nat.iter n (Closure.cycleVCS m cb r) s))) = true ->
    (n <= fuel)%nat ->
    Closure.drain m cb fuel r s <> None.
Proof.
  induction n as [| n IH]; intros s fuel H Hle.
  - simpl in H. destruct fuel; simpl; rewrite H; discriminate.
  - destruct fuel as [| fuel]; [lia |].
    simpl. destruct (RdyFlg (MC (vcs s))); [discriminate |].
    apply IH; [| lia]. now rewrite <- Nat.iter_succ_r.
Qed.

End Stepper.

(** The stepper with a callback that only observes is the stepper of the
    module Hardware. *)
Section Observer.

Variables (Regs Chips Result Err Obs : Type).
Variable m : Methods Regs Chips Result Err.
Variable cb : option Result -> VCS Regs Chips -> Obs -> Obs.

Lemma observer_cycleVCS (r : option Result) (s : StepState Regs Chips Obs) :
  Closure.cycleVCS m (Closure.observer cb) r s = cycleVCS m cb r s.
Proof.
  unfold Closure.cycleVCS, Closure.videoCycle, Closure.observer,
    cycleVCS, videoCycle, readTIA, riotCycle. simpl.
  destruct (StepVideoCycle m (RIOTStep m (ReadRIOTMemory m (chips (vcs s)))))
    as [c1 rdy1]. simpl.
  destruct (StepVideoCycle m c1) as [c2 rdy2]. simpl.
  destruct (StepVideoCycle m (ReadTIAMemory m c2)) as [c3 rdy3]. reflexivity.
Qed.

Lemma observer_run (e : Execution Regs Chips Result Err) :
  forall s : StepState Regs Chips Obs,
    Closure.run m (Closure.observer cb) e s = run m cb e s.
Proof.
  induction e as [v r err | v r k IH]; intros s; cbn [Closure.run run].
  - reflexivity.
  - rewrite observer_cycleVCS. apply IH.
Qed.

Lemma observer_drain (fuel : nat) (r : option Result) :
  forall s : StepState Regs Chips Obs,
    Closure.drain m (Closure.observer cb) fuel r s = drain m cb fuel r s.
Proof.
  induction fuel as [| fuel IH]; intros s; simpl; [reflexivity |].
  destruct (RdyFlg (MC (vcs s))); [reflexivity |].
  rewrite observer_cycleVCS. apply IH.
Qed.

Lemma observer_Step (fuel : nat) (v : VCS Regs Chips) (o : Obs) :
  Closure.Step m (Closure.observer cb) fuel v o = Step m cb fuel v o.
Proof.
  unfold Closure.Step, Step, Closure.afterInstruction, afterInstruction.
  rewrite observer_run.
  destruct (run m cb (ExecuteInstruction m (vcs (startStep m v o)))
                (startStep m v o)) as [[s r] [e |]]; [reflexivity |].
  now rewrite observer_drain.
Qed.

End Observer.




End ClosureTheory.

(* ===================================================================== *)
(** * Properties of RAMinfo                                               *)
(* ===================================================================== *)

Module CartridgeTheory.
Import GoLib Cartridge.

Lemma span_uint16 (origin memtop : Z) :
  0 <= origin <= 65535 -> 0 <= memtop <= 65535 ->
  uint16 (uint16 (memtop - origin) + 1) = (memtop - origin + 1) mod 65536.
Proof.
  intros Ho Hm. unfold uint16.
  now rewrite Zplus_mod_idemp_l.
Qed.

(** X1.  For uint16 origins and memtops, ReadLen and WriteLen are
    [memtop - origin + 1] modulo 2^16: the number of addresses from the
    origin to the memtop when the origin is not above the memtop, except
    that the whole 16-bit range counts as 0; and the result is always
    between 0 and 65535. *)
Theorem RAMinfo_lengths_wrap (ri : RAMinfo) :
  0 <= ReadOrigin ri <= 65535 -> 0 <= ReadMemtop ri <= 65535 ->
  0 <= WriteOrigin ri <= 65535 -> 0 <= WriteMemtop ri <= 65535 ->
  (0 <= ReadLen ri <= 65535 /\ 0 <= WriteLen ri <= 65535)
  /\ (ReadOrigin ri <= ReadMemtop ri ->
      ReadLen ri = if (ReadOrigin ri =? 0) && (ReadMemtop ri =? 65535) then 0
                   else ReadMemtop ri - ReadOrigin ri + 1)
  /\ (WriteOrigin ri <= WriteMemtop ri ->
      WriteLen ri = if (WriteOrigin ri =? 0) && (WriteMemtop ri =? 65535) then 0
                    else WriteMemtop ri - WriteOrigin ri + 1).
Proof.
  intros Hro Hrm Hwo Hwm.
  assert (Case : forall o t, 0 <= o <= 65535 -> 0 <= t <= 65535 -> o <= t ->
                 (t - o + 1) mod 65536
                 = if (o =? 0) && (t =? 65535) then 0 else t - o + 1).
  { intros o t Ho Ht Hle.
    destruct (Z.eqb_spec o 0) as [Eo | Eo];
      destruct (Z.eqb_spec t 65535) as [Et | Et]; simpl.
    - subst. reflexivity.
    - apply Z.mod_small. lia.
    - apply Z.mod_small. lia.
    - apply Z.mod_small. lia. }
  unfold ReadLen, WriteLen. rewrite !span_uint16 by assumption.
  split; [split |].
  - pose proof (Z.mod_pos_bound (ReadMemtop ri - ReadOrigin ri + 1) 65536). lia.
  - pose proof (Z.mod_pos_bound (WriteMemtop ri - WriteOrigin ri + 1) 65536). lia.
  - split; intros Hle; apply Case; assumption.
Qed.

(** The theorem on the 128 bytes of RAM read from 0x1080 to 0x10ff, and on a
    RAM that fills the whole address range. *)
Lemma RAMinfo_lengths_wrap_witness :
  ReadLen (mkRAMinfo "superchip" true 4224 4351 4096 4223) = 128
  /\ ReadLen (mkRAMinfo "all" true 0 65535 0 65535) = 0.
Proof.
  split.
  - apply (RAMinfo_lengths_wrap (mkRAMinfo "superchip" true 4224 4351 4096 4223));
      simpl; lia.
  - apply (RAMinfo_lengths_wrap (mkRAMinfo "all" true 0 65535 0 65535));
      simpl; lia.
Defined.

End CartridgeTheory.

(* ===================================================================== *)
(** * Properties of the panel setup                                       *)
(* ===================================================================== *)

Module SetupTheory.
Import GoLib Setup.

(** X2.  A panel setup that is serialised and deserialised again is the
    setup it was, and its serialised form has five fields. *)
Theorem panel_setup_round_trip (set : PanelSetup) :
  deserialisePanelSetupEntry (Serialise set) = inl set
  /\ List.length (Serialise set) = numPanelSetupFields.
Proof.
  destruct set as [hash b0 b1 c n].
  destruct b0, b1, c; split; reflexivity.
Qed.

Lemma ParseBool_FormatBool (b : bool) : ParseBool (FormatBool b) = Some b.
Proof. destruct b; reflexivity. Qed.

(** X3.  Fields are accepted only five at a time: with fewer or more the
    entry is refused with a SetupPanelError, whatever the fields are; and
    when they are accepted, the hash and the notes are the first and the
    last field and serialising the entry spells the three switches "true"
    or "false", a form that deserialises to the same entry. *)
Theorem panel_entry_fields (fields : list string) :
  (List.length fields <> numPanelSetupFields ->
   exists message, deserialisePanelSetupEntry fields = inr (SetupPanelError message))
  /\ (forall set,
        deserialisePanelSetupEntry fields = inl set ->
        List.length fields = numPanelSetupFields
        /\ cartHash set = nth 0 fields ""%string
        /\ notes set = nth 4 fields ""%string
        /\ ParseBool (nth 1 fields ""%string) = Some (p0 set)
        /\ ParseBool (nth 2 fields ""%string) = Some (p1 set)
        /\ ParseBool (nth 3 fields ""%string) = Some (col set)
        /\ deserialisePanelSetupEntry (Serialise set) = inl set).
Proof.
  unfold deserialisePanelSetupEntry. split.
  - intros Hlen.
    destruct (Nat.ltb numPanelSetupFields (List.length fields)) eqn:Hmany;
      [eexists; reflexivity |].
    destruct (Nat.ltb (List.length fields) numPanelSetupFields) eqn:Hfew;
      [eexists; reflexivity |].
    apply Nat.ltb_ge in Hmany, Hfew. lia.
  - intros set H.
    destruct (Nat.ltb numPanelSetupFields (List.length fields)) eqn:Hmany;
      [discriminate |].
    destruct (Nat.ltb (List.length fields) numPanelSetupFields) eqn:Hfew;
      [discriminate |].
    apply Nat.ltb_ge in Hmany, Hfew.
    destruct (ParseBool (nth 1 fields ""%string)) as [b0 |]; [| discriminate].
    destruct (ParseBool (nth 2 fields ""%string)) as [b1 |]; [| discriminate].
    destruct (ParseBool (nth 3 fields ""%string)) as [c |]; [| discriminate].
    injection H as <-. simpl.
    repeat split; try reflexivity; try lia.
    destruct b0, b1, c; reflexivity.
Qed.

(** The theorem on an entry written with the short spellings of the
    switches. *)
Lemma panel_entry_fields_witness :
  p0 (mkPanelSetup "a1b2" true false true "notes") = true
  /\ (exists message,
         deserialisePanelSetupEntry ["a1b2"; "1"]%string
         = inr (SetupPanelError message)).
Proof.
  destruct (panel_entry_fields ["a1b2"; "1"; "F"; "True"; "notes"]%string)
    as [_ Hok].
  destruct (Hok (mkPanelSetup "a1b2" true false true "notes") eq_refl)
    as (_ & _ & _ & H0 & _).
  split.
  - reflexivity.
  - apply (proj1 (panel_entry_fields ["a1b2"; "1"]%string)).
    simpl. discriminate.
Defined.

Section Apply.

Variables (Panel E : Type).
Variable PanelHandle : Panel -> PanelEvent -> bool -> Panel * option E.

(** X4.  Applying a panel setup sends the panel the three switch events
    with the values of the entry, player 0 first, then player 1, then
    color, and stops at the first error: both branches of each test send
    the same event. *)
Theorem apply_sets_the_three_switches (set : PanelSetup) (panel : Panel) :
  apply PanelHandle set panel
  = handleAll PanelHandle
      [ (PanelSetPlayer0Pro, p0 set); (PanelSetPlayer1Pro, p1 set);
        (PanelSetColor, col set) ] panel.
Proof.
  unfold apply. simpl.
  destruct (p0 set), (p1 set), (col set);
    repeat match goal with
           | |- context [PanelHandle ?p ?e ?b] =>
               destruct (PanelHandle p e b) as [? [? |]]; simpl
           end; reflexivity.
Qed.

End Apply.

End SetupTheory.

(* ===================================================================== *)
(** * Properties of the screen digest                                     *)
(* ===================================================================== *)

Module ScreenDigestTheory.
Import GoLib ScreenDigest.

Lemma wrapInt_id (a : Z) : - 2 ^ 63 <= a < 2 ^ 63 -> wrapInt a = a.
Proof.
  intros H. unfold wrapInt. rewrite Z.mod_small; lia.
Qed.

Lemma store_length (s : list Z) :
  forall i v, List.length (store s i v) = List.length s.
Proof.
  induction s as [| b r IH]; intros [| i] v; simpl; auto.
Qed.

Lemma store_nth_same (s : list Z) :
  forall i v d, (i < List.length s)%nat -> nth i (store s i v) d = v.
Proof.
  induction s as [| b r IH]; intros [| i] v d H; simpl in *;
    [lia | lia | reflexivity | apply IH; lia].
Qed.

Lemma store_nth_other (s : list Z) :
  forall i j v d, i <> j -> nth j (store s i v) d = nth j s d.
Proof.
  induction s as [| b r IH]; intros [| i] [| j] v d H; simpl;
    try reflexivity; [now elim H | apply IH; lia].
Qed.

Lemma store_skipn (s : list Z) :
  forall i n v, (i < n)%nat -> skipn n (store s i v) = skipn n s.
Proof.
  induction s as [| b r IH]; intros [| i] [| n] v H; simpl;
    try reflexivity; try lia.
  apply IH. lia.
Qed.

Section Digest.

Variable ClocksPerScanline : Z.
Variable ScanlinesTotal : Z.
Variable Sum : list Z -> list Z.

Hypothesis clocks_small : 0 <= ClocksPerScanline < 2 ^ 20.
Hypothesis scanlines_small : 0 <= ScanlinesTotal < 2 ^ 20.

Lemma pixelOffset_small (x y : Z) :
  0 <= x <= ClocksPerScanline -> 0 <= y <= ScanlinesTotal ->
  pixelOffset ClocksPerScanline x y = 3 * (ClocksPerScanline * y + x).
Proof.
  intros Hx Hy. unfold pixelOffset.
  assert (0 <= ClocksPerScanline * y < 2 ^ 40) by nia.
  rewrite (wrapInt_id (ClocksPerScanline * y)) by lia.
  rewrite (wrapInt_id (ClocksPerScanline * y * 3)) by lia.
  rewrite (wrapInt_id (x * 3)) by lia.
  rewrite wrapInt_id by lia. lia.
Qed.

Lemma frameSize_small (dig : SHA1) :
  List.length (digest dig) = 20%nat ->
  frameSize ClocksPerScanline ScanlinesTotal dig
  = 20 + 3 * ((ClocksPerScanline + 1) * (ScanlinesTotal + 1)).
Proof.
  intros Hd. unfold frameSize. rewrite Hd.
  rewrite (wrapInt_id (ClocksPerScanline + 1)) by lia.
  rewrite (wrapInt_id (ScanlinesTotal + 1)) by lia.
  assert (0 <= (ClocksPerScanline + 1) * (ScanlinesTotal + 1) <= 2 ^ 40) by nia.
  rewrite (wrapInt_id ((ClocksPerScanline + 1) * (ScanlinesTotal + 1))) by lia.
  rewrite (wrapInt_id ((ClocksPerScanline + 1) * (ScanlinesTotal + 1) * 3)) by lia.
  rewrite wrapInt_id by (simpl Z.of_nat; lia).
  simpl Z.of_nat. lia.
Qed.

(** What SetPixel does to a frame that has room for the pixel. *)
Lemma SetPixel_stores (dig : SHA1) (x y red green blue : Z) (vblank : bool) :
  0 <= x <= ClocksPerScanline -> 0 <= y <= ScanlinesTotal ->
  3 * (ClocksPerScanline * y + x) + 2 < Z.of_nat (List.length (frameData dig)) ->
  SetPixel ClocksPerScanline dig x y red green blue vblank
  = Done (mkSHA1 (digest dig)
            (store (store (store (frameData dig)
                     (Z.to_nat (3 * (ClocksPerScanline * y + x))) red)
                     (S (Z.to_nat (3 * (ClocksPerScanline * y + x)))) green)
                     (S (S (Z.to_nat (3 * (ClocksPerScanline * y + x))))) blue)
            (frameNum dig)).
Proof.
  intros Hx Hy Hroom. unfold SetPixel.
  rewrite (pixelOffset_small x y Hx Hy).
  set (offset := 3 * (ClocksPerScanline * y + x)) in *.
  assert (0 <= offset) by (subst offset; nia).
  assert (Z.of_nat (List.length (frameData dig)) < 2 ^ 62 \/
          2 ^ 62 <= Z.of_nat (List.length (frameData dig))) as [Hs | Hs] by lia.
  - rewrite !wrapInt_id by lia.
    replace (Z.of_nat (List.length (frameData dig)) <=? offset) with false
      by (symmetry; apply Z.leb_gt; lia).
    replace (offset <? 0) with false by (symmetry; apply Z.ltb_ge; lia).
    replace (Z.of_nat (List.length (frameData dig)) <=? offset + 1) with false
      by (symmetry; apply Z.leb_gt; lia).
    replace (Z.of_nat (List.length (frameData dig)) <=? offset + 2) with false
      by (symmetry; apply Z.leb_gt; lia).
    reflexivity.
  - assert (offset < 2 ^ 42) by (subst offset; nia).
    rewrite !wrapInt_id by lia.
    replace (Z.of_nat (List.length (frameData dig)) <=? offset) with false
      by (symmetry; apply Z.leb_gt; lia).
    replace (offset <? 0) with false by (symmetry; apply Z.ltb_ge; lia).
    replace (Z.of_nat (List.length (frameData dig)) <=? offset + 1) with false
      by (symmetry; apply Z.leb_gt; lia).
    replace (Z.of_nat (List.length (frameData dig)) <=? offset + 2) with false
      by (symmetry; apply Z.leb_gt; lia).
    reflexivity.
Qed.

(** X5.  On a frame of the size Resize gives it (which Resize does give),
    SetPixel at a horizontal position from 0 to ClocksPerScanline and a
    scanline from 0 to ScanlinesTotal never fails and never indexes out of
    range: it keeps the digest and the length of the frame, puts red, green
    and blue at [3 * (ClocksPerScanline * y + x)] and the two cells after it,
    and leaves every other cell as it was. *)
Theorem SetPixel_within_frame (dig : SHA1) (x y red green blue : Z) (vblank : bool) :
  List.length (digest dig) = 20%nat ->
  Z.of_nat (List.length (frameData dig))
  = frameSize ClocksPerScanline ScanlinesTotal dig ->
  0 <= x <= ClocksPerScanline -> 0 <= y <= ScanlinesTotal ->
  (exists fresh,
      Resize ClocksPerScanline ScanlinesTotal dig = Done fresh
      /\ Z.of_nat (List.length (frameData fresh))
         = frameSize ClocksPerScanline ScanlinesTotal fresh)
  /\ exists dig',
      SetPixel ClocksPerScanline dig x y red green blue vblank = Done dig'
      /\ digest dig' = digest dig
      /\ List.length (frameData dig') = List.length (frameData dig)
      /\ nth (Z.to_nat (3 * (ClocksPerScanline * y + x))) (frameData dig') 0 = red
      /\ nth (S (Z.to_nat (3 * (ClocksPerScanline * y + x)))) (frameData dig') 0
         = green
      /\ nth (S (S (Z.to_nat (3 * (ClocksPerScanline * y + x))))) (frameData dig') 0
         = blue
      /\ (forall j : nat,
            j <> Z.to_nat (3 * (ClocksPerScanline * y + x)) ->
            j <> S (Z.to_nat (3 * (ClocksPerScanline * y + x))) ->
            j <> S (S (Z.to_nat (3 * (ClocksPerScanline * y + x)))) ->
            nth j (frameData dig') 0 = nth j (frameData dig) 0).
Proof.
  intros Hd Hsize Hx Hy.
  pose proof (frameSize_small dig Hd) as Hf.
  split.
  - unfold Resize. rewrite Hf.
    replace (20 + 3 * ((ClocksPerScanline + 1) * (ScanlinesTotal + 1)) <? 0)
      with false by (symmetry; apply Z.ltb_ge; nia).
    eexists. split; [reflexivity |].
    cbn [frameData]. rewrite repeat_length.
    unfold frameSize at 1. cbn [digest]. fold (frameSize ClocksPerScanline ScanlinesTotal dig).
    rewrite Hf. rewrite Z2Nat.id by nia. reflexivity.
  - assert (Hroom : 3 * (ClocksPerScanline * y + x) + 2
                    < Z.of_nat (List.length (frameData dig))).
    { rewrite Hsize, Hf. nia. }
    rewrite (SetPixel_stores dig x y red green blue vblank Hx Hy Hroom).
    set (i := Z.to_nat (3 * (ClocksPerScanline * y + x))).
    assert (Hi : (S (S i) < List.length (frameData dig))%nat).
    { subst i. apply Nat2Z.inj_lt. rewrite !Nat2Z.inj_succ, Z2Nat.id by nia. lia. }
    eexists. split; [reflexivity |]. cbn [digest frameData].
    split; [reflexivity |]. split; [now rewrite !store_length |].
    split; [| split; [| split]].
    + rewrite !store_nth_other by lia. apply store_nth_same. lia.
    + rewrite store_nth_other by lia. apply store_nth_same.
      rewrite store_length. lia.
    + apply store_nth_same. rewrite !store_length. lia.
    + intros j H0 H1 H2. now rewrite !store_nth_other by congruence.
Qed.

(** X6.  On such a frame, two pixels at different places, both left of
    ClocksPerScanline, have cells of their own: after both are set, the
    colors of the first are still where they were put. *)
Theorem SetPixel_pixels_are_apart
        (dig : SHA1) (x y x' y' r g b r' g' b' : Z) (vb vb' : bool) :
  Z.of_nat (List.length (frameData dig))
  = 20 + 3 * ((ClocksPerScanline + 1) * (ScanlinesTotal + 1)) ->
  0 <= x < ClocksPerScanline -> 0 <= y <= ScanlinesTotal ->
  0 <= x' < ClocksPerScanline -> 0 <= y' <= ScanlinesTotal ->
  (x, y) <> (x', y') ->
  exists d1 d2,
    SetPixel ClocksPerScanline dig x y r g b vb = Done d1
    /\ SetPixel ClocksPerScanline d1 x' y' r' g' b' vb' = Done d2
    /\ nth (Z.to_nat (3 * (ClocksPerScanline * y + x))) (frameData d2) 0 = r
    /\ nth (S (Z.to_nat (3 * (ClocksPerScanline * y + x)))) (frameData d2) 0 = g
    /\ nth (S (S (Z.to_nat (3 * (ClocksPerScanline * y + x))))) (frameData d2) 0 = b.
Proof.
  intros Hsize Hx Hy Hx' Hy' Hne.
  assert (Hroom : 3 * (ClocksPerScanline * y + x) + 2
                  < Z.of_nat (List.length (frameData dig))) by (rewrite Hsize; nia).
  assert (Hroom' : 3 * (ClocksPerScanline * y' + x') + 2
                   < Z.of_nat (List.length (frameData dig))) by (rewrite Hsize; nia).
  rewrite (SetPixel_stores dig x y r g b vb) by (try assumption; lia).
  eexists. eexists. split; [reflexivity |].
  rewrite SetPixel_stores;
    [| lia | lia | cbn [frameData]; now rewrite !store_length].
  split; [reflexivity |]. cbn [frameData digest frameNum].
  set (i := Z.to_nat (3 * (ClocksPerScanline * y + x))).
  set (i' := Z.to_nat (3 * (ClocksPerScanline * y' + x'))).
  assert (Hi : (S (S i) < List.length (frameData dig))%nat).
  { subst i. apply Nat2Z.inj_lt. rewrite !Nat2Z.inj_succ, Z2Nat.id by nia. lia. }
  assert (Hapart : (i + 3 <= i' \/ i' + 3 <= i)%nat).
  { assert (ClocksPerScanline * y + x <> ClocksPerScanline * y' + x').
    { intros Heq. apply Hne.
      assert (y = y') by nia. subst y'. f_equal. lia. }
    subst i i'.
    assert (3 * (ClocksPerScanline * y + x) + 3 <= 3 * (ClocksPerScanline * y' + x')
            \/ 3 * (ClocksPerScanline * y' + x') + 3
               <= 3 * (ClocksPerScanline * y + x)) as [Hlt | Hlt] by lia.
    - left. apply Nat2Z.inj_le. rewrite Nat2Z.inj_add, !Z2Nat.id by nia. lia.
    - right. apply Nat2Z.inj_le. rewrite Nat2Z.inj_add, !Z2Nat.id by nia. lia. }
  split; [| split].
  - rewrite !(store_nth_other _ _ i) by lia. apply store_nth_same. lia.
  - rewrite !(store_nth_other _ _ (S i)) by lia.
    apply store_nth_same. rewrite store_length. lia.
  - rewrite !(store_nth_other _ _ (S (S i))) by lia.
    apply store_nth_same. rewrite !store_length. lia.
Qed.

(** NewFrame looks at the frame only through its length and through the
    cells that the copy of the old digest does not cover. *)
Lemma NewFrame_same (dig dig' : SHA1) (num : Z) :
  digest dig' = digest dig -> frameNum dig' = frameNum dig ->
  List.length (frameData dig') = List.length (frameData dig) ->
  skipn (Nat.min (List.length (frameData dig)) (List.length (digest dig)))
        (frameData dig')
  = skipn (Nat.min (List.length (frameData dig)) (List.length (digest dig)))
          (frameData dig) ->
  NewFrame Sum dig' num = NewFrame Sum dig num.
Proof.
  intros Hd Hn Hl Hs. unfold NewFrame, copy. now rewrite Hd, Hn, Hl, Hs.
Qed.

(** X7.  NewFrame chains the digests: on a frame of at least 20 cells the
    new digest is the sum of the old digest followed by the frame from cell
    20 on, so the first 20 cells of the frame never reach the digest; on a
    shorter frame NewFrame fails and keeps the digest.  In particular a
    pixel set at a horizontal position from 0 to 5 of scanline 0 is lost:
    NewFrame gives the same result with it and without it. *)
Theorem NewFrame_ignores_first_cells (dig : SHA1) (num : Z) :
  List.length (digest dig) = 20%nat ->
  ((20 <= List.length (frameData dig))%nat ->
   NewFrame Sum dig num
   = (mkSHA1 (Sum (digest dig ++ skipn 20 (frameData dig)))
             (digest dig ++ skipn 20 (frameData dig)) num, None))
  /\ ((List.length (frameData dig) < 20)%nat ->
      snd (NewFrame Sum dig num) <> None
      /\ digest (fst (NewFrame Sum dig num)) = digest dig)
  /\ (forall (x red green blue : Z) (vblank : bool) (dig' : SHA1),
        0 <= x <= 5 ->
        SetPixel ClocksPerScanline dig x 0 red green blue vblank = Done dig' ->
        NewFrame Sum dig' num = NewFrame Sum dig num).
Proof.
  intros Hd. split; [| split].
  - intros Hlen. unfold NewFrame, copy. rewrite Hd.
    rewrite (Nat.min_r _ _ Hlen).
    rewrite Z.eqb_refl. simpl negb. cbv iota.
    rewrite <- Hd at 1 3. rewrite firstn_all. reflexivity.
  - intros Hlen. unfold NewFrame, copy. rewrite Hd.
    rewrite Nat.min_l by lia.
    replace (Z.of_nat (List.length (frameData dig)) =? Z.of_nat 20) with false
      by (symmetry; apply Z.eqb_neq; lia).
    simpl. split; [discriminate | reflexivity].
  - intros x red green blue vblank dig' Hx Hset.
    unfold SetPixel in Hset.
    assert (Hoff : pixelOffset ClocksPerScanline x 0 = 3 * x).
    { unfold pixelOffset. rewrite Z.mul_0_r.
      change (wrapInt 0) with 0. change (0 * 3) with 0. change (wrapInt 0) with 0.
      rewrite (wrapInt_id (x * 3)) by lia.
      rewrite wrapInt_id by lia. lia. }
    rewrite Hoff in Hset.
    remember (3 * x) as k eqn:Hk.
    destruct (Z.of_nat (List.length (frameData dig)) <=? k); [discriminate |].
    rewrite !wrapInt_id in Hset by lia.
    destruct (k <? 0); [discriminate |].
    destruct (Z.of_nat (List.length (frameData dig)) <=? k + 1); [discriminate |].
    destruct (Z.leb_spec (Z.of_nat (List.length (frameData dig))) (k + 2))
      as [Hle | Hlt]; [discriminate |].
    cbn [orb] in Hset. cbv zeta in Hset. injection Hset as <-.
    apply NewFrame_same; cbn [digest frameNum frameData];
      [reflexivity | reflexivity | now rewrite !store_length |].
    rewrite Hd.
    assert (Hi : (S (S (Z.to_nat k))
                  < Nat.min (List.length (frameData dig)) 20)%nat).
    { apply Nat.min_glb_lt.
      - apply Nat2Z.inj_lt. rewrite !Nat2Z.inj_succ, Z2Nat.id by lia. lia.
      - apply Nat2Z.inj_lt. rewrite !Nat2Z.inj_succ, Z2Nat.id by lia.
        simpl Z.of_nat. lia. }
    rewrite !store_skipn by lia. reflexivity.
Qed.

End Digest.

(** The pixel theorem on a frame of five clocks by three scanlines, at its
    last pixel. *)
Lemma SetPixel_within_frame_witness :
  exists dig',
    SetPixel 4 (mkSHA1 (repeat 0 20) (repeat 0 65) 0) 4 2 10 20 30 false = Done dig'
    /\ nth 36 (frameData dig') 0 = 10
    /\ nth 38 (frameData dig') 0 = 30.
Proof.
  assert (Hc : 0 <= 4 < 2 ^ 20) by lia.
  assert (Hs : 0 <= 2 < 2 ^ 20) by lia.
  assert (Hx : 0 <= 4 <= 4) by lia.
  assert (Hy : 0 <= 2 <= 2) by lia.
  destruct (SetPixel_within_frame 4 2 Hc Hs
              (mkSHA1 (repeat 0 20) (repeat 0 65) 0) 4 2 10 20 30 false
              eq_refl eq_refl Hx Hy)
    as (_ & dig' & Hset & _ & _ & Hr & _ & Hb & _).
  exists dig'. split; [exact Hset |]. split; [exact Hr | exact Hb].
Defined.

(** The theorem on two neighbouring pixels of that frame. *)
Lemma SetPixel_pixels_are_apart_witness :
  exists d1 d2,
    SetPixel 4 (mkSHA1 (repeat 0 20) (repeat 0 65) 0) 1 1 10 20 30 false = Done d1
    /\ SetPixel 4 d1 2 1 11 21 31 false = Done d2
    /\ nth 17 (frameData d2) 0 = 30.
Proof.
  assert (Hc : 0 <= 4 < 2 ^ 20) by lia.
  assert (Hs : 0 <= 2 < 2 ^ 20) by lia.
  assert (Hx : 0 <= 1 < 4) by lia.
  assert (Hy : 0 <= 1 <= 2) by lia.
  assert (Hx' : 0 <= 2 < 4) by lia.
  assert (Hne : (1, 1) <> (2, 1)) by discriminate.
  destruct (SetPixel_pixels_are_apart 4 2 Hc Hs
              (mkSHA1 (repeat 0 20) (repeat 0 65) 0) 1 1 2 1 10 20 30 11 21 31
              false false eq_refl Hx Hy Hx' Hy Hne)
    as (d1 & d2 & H1 & H2 & _ & _ & Hb).
  exists d1, d2. split; [exact H1 |]. split; [exact H2 | exact Hb].
Defined.

(** The digest theorem with a sum that keeps the first 20 bytes of its
    input: a pixel at the start of scanline 0 does not change the result of
    NewFrame. *)
Lemma NewFrame_ignores_first_cells_witness :
  NewFrame (firstn 20)
    (mkSHA1 (repeat 7 20)
       (store (store (store (repeat 0 65) 6 10) 7 20) 8 30) 0) 1
  = NewFrame (firstn 20) (mkSHA1 (repeat 7 20) (repeat 0 65) 0) 1.
Proof.
  destruct (NewFrame_ignores_first_cells 4 (firstn 20)
              (mkSHA1 (repeat 7 20) (repeat 0 65) 0) 1 eq_refl) as (_ & _ & H).
  apply (H 2 10 20 30 false); [lia | reflexivity].
Defined.

End ScreenDigestTheory.

(* ===================================================================== *)
(** * Properties of the other events and methods of the hand controller   *)
(* ===================================================================== *)

Module HandControllerTheory.
Import GoLib Input HandControllers.

Lemma byte_lxor (a b : Z) :
  0 <= a < 256 -> 0 <= b < 256 -> 0 <= Z.lxor a b < 256.
Proof.
  intros Ha Hb.
  assert (Hn : 0 <= Z.lxor a b) by (apply Z.lxor_nonneg; lia).
  split; [exact Hn |].
  destruct (Z.eq_dec (Z.lxor a b) 0) as [-> | Hz]; [lia |].
  change 256 with (2 ^ 8). apply Z.log2_lt_pow2; [lia |].
  pose proof (Z.log2_lxor a b (proj1 Ha) (proj1 Hb)) as Hl.
  assert (La : Z.log2 a < 8).
  { destruct (Z.eq_dec a 0) as [-> | Hp]; [reflexivity |].
    apply Z.log2_lt_pow2; [lia | exact (proj2 Ha)]. }
  assert (Lb : Z.log2 b < 8).
  { destruct (Z.eq_dec b 0) as [-> | Hp]; [reflexivity |].
    apply Z.log2_lt_pow2; [lia | exact (proj2 Hb)]. }
  lia.
Qed.

Lemma byte_lor (a b : Z) :
  0 <= a < 256 -> 0 <= b < 256 -> 0 <= Z.lor a b < 256.
Proof.
  intros Ha Hb.
  assert (Hn : 0 <= Z.lor a b) by (apply Z.lor_nonneg; lia).
  split; [exact Hn |].
  destruct (Z.eq_dec (Z.lor a b) 0) as [-> | Hz]; [lia |].
  change 256 with (2 ^ 8). apply Z.log2_lt_pow2; [lia |].
  rewrite (Z.log2_lor a b (proj1 Ha) (proj1 Hb)).
  assert (La : Z.log2 a < 8).
  { destruct (Z.eq_dec a 0) as [-> | Hp]; [reflexivity |].
    apply Z.log2_lt_pow2; [lia | exact (proj2 Ha)]. }
  assert (Lb : Z.log2 b < 8).
  { destruct (Z.eq_dec b 0) as [-> | Hp]; [reflexivity |].
    apply Z.log2_lt_pow2; [lia | exact (proj2 Hb)]. }
  lia.
Qed.

(** The bits of the axis are the bits 4 to 7 of a byte. *)
Lemma axisBit_power (event : Event) (bit : Z) :
  axisBit event = Some bit ->
  exists n, 4 <= n <= 7 /\ bit = 2 ^ n.
Proof.
  destruct event; simpl; intros H; try discriminate; injection H as <-.
  - exists 6. split; [lia | reflexivity].
  - exists 7. split; [lia | reflexivity].
  - exists 4. split; [lia | reflexivity].
  - exists 5. split; [lia | reflexivity].
Qed.

Section Controller.

Variables (F Mem Recorder RecErr : Type).
Variable oneMinus : F -> F.
Variable zeroF : F.
Variable addSensitivity : F -> F.
Variable geF : F -> F -> bool.
Variable InputDeviceWrite : ChipMem -> Z -> Z -> Z -> Mem -> Mem.
Variable RecordEvent :
  Recorder -> PortID -> Event -> EventValue F -> Recorder * option RecErr.

(** Recording changes the recorder and nothing else. *)
Lemma recordEvent_keeps (hc : HandController F Mem Recorder)
      (event : Event) (value : EventValue F) :
  let hc' := fst (recordEvent RecordEvent hc event value) in
  id hc' = id hc /\ mem hc' = mem hc /\ latchFireButton hc' = latchFireButton hc
  /\ hc_stick hc' = hc_stick hc /\ hc_paddle hc' = hc_paddle hc
  /\ hc_keyboard hc' = hc_keyboard hc /\ ddr hc' = ddr hc.
Proof.
  unfold recordEvent. destruct (recorder hc) as [rec |]; simpl.
  - destruct (RecordEvent rec (id hc) event value) as [rec' err]. simpl.
    repeat split; reflexivity.
  - repeat split; reflexivity.
Qed.

(** What a direction event does to the stick. *)
Lemma direction_event_stick (hc : HandController F Mem Recorder)
      (event : Event) (bit : Z) (b : bool) :
  axisBit event = Some bit ->
  hc_stick (fst (Handle oneMinus InputDeviceWrite RecordEvent hc event (VBool b)))
  = hc_stick (moveAxis InputDeviceWrite bit b hc).
Proof.
  intros Hbit.
  destruct event; simpl in Hbit; try discriminate; injection Hbit as <-;
    cbn [Handle];
    exact (proj1 (proj2 (proj2 (proj2 (recordEvent_keeps _ _ _))))).
Qed.

(** X9.  A direction event (Left, Right, Up, Down) with a boolean value
    works on its own bit of the stick axis and on no other: a release sets
    the bit, a press flips it, so that two presses in a row with no release
    between them put the axis back where it was; and an axis that is a byte
    stays a byte. *)
Theorem direction_event_changes_its_own_bit
        (hc : HandController F Mem Recorder) (event : Event) (bit : Z) (b : bool) :
  axisBit event = Some bit ->
  let after := fun h =>
    fst (Handle oneMinus InputDeviceWrite RecordEvent h event (VBool b)) in
  axis (hc_stick (after hc))
  = (if b then Z.lxor (axis (hc_stick hc)) bit else Z.lor (axis (hc_stick hc)) bit)
  /\ (forall k, 0 <= k -> bit <> 2 ^ k ->
      Z.testbit (axis (hc_stick (after hc))) k = Z.testbit (axis (hc_stick hc)) k)
  /\ (b = false -> Z.land (axis (hc_stick (after hc))) bit = bit)
  /\ (b = true -> axis (hc_stick (after (after hc))) = axis (hc_stick hc))
  /\ (0 <= axis (hc_stick hc) < 256 -> 0 <= axis (hc_stick (after hc)) < 256).
Proof.
  intros Hbit after.
  assert (Hax : forall h,
             axis (hc_stick (after h))
             = if b then Z.lxor (axis (hc_stick h)) bit
               else Z.lor (axis (hc_stick h)) bit).
  { intros h. subst after. cbv beta.
    rewrite (direction_event_stick h event bit b Hbit).
    unfold moveAxis. destruct b; reflexivity. }
  destruct (axisBit_power event bit Hbit) as (n & Hn & ->).
  split; [apply Hax |]. split; [| split; [| split]].
  - intros k Hk Hne. rewrite Hax.
    assert (Hkn : n <> k) by (intros ->; now apply Hne).
    destruct b.
    + rewrite Z.lxor_spec, (Z.pow2_bits_false n k Hkn). apply xorb_false_r.
    + rewrite Z.lor_spec, (Z.pow2_bits_false n k Hkn). apply orb_false_r.
  - intros ->. rewrite Hax.
    apply Z.bits_inj'. intros k Hk.
    rewrite Z.land_spec, Z.lor_spec.
    destruct (Z.testbit (axis (hc_stick hc)) k), (Z.testbit (2 ^ n) k); reflexivity.
  - intros ->. rewrite Hax, Hax.
    now rewrite Z.lxor_assoc, Z.lxor_nilpotent, Z.lxor_0_r.
  - intros Hbyte. rewrite Hax.
    assert (Hb : 0 <= 2 ^ n < 256).
    { assert (n = 4 \/ n = 5 \/ n = 6 \/ n = 7) as [-> | [-> | [-> | ->]]] by lia;
        simpl; lia. }
    destruct b; [apply byte_lxor | apply byte_lor]; assumption.
Qed.

(** X8.  An event that Handle refuses (a value of the wrong type, a rune
    that is not a key, Unplug, an event that is not a hand-controller event)
    leaves the controller exactly as it was, its memory and its recorder
    included.  An event other than NoEvent that Handle accepts is handed to
    the attached recorder, once, with the id of the port, and the error of
    Handle is then the error of the recorder; with no recorder attached an
    accepted event gives no error. *)
Theorem Handle_refuses_or_records
        (hc hc' : HandController F Mem Recorder) (event : Event)
        (value : EventValue F) (err : option (InputError RecErr)) :
  Handle oneMinus InputDeviceWrite RecordEvent hc event value = (hc', err) ->
  (forall e, err = Some e -> (forall r, e <> RecordingFailed r) -> hc' = hc)
  /\ (forall rec,
        recorder hc = Some rec -> event <> NoEvent ->
        (err = None \/ exists r, err = Some (RecordingFailed r)) ->
        recorder hc' = Some (fst (RecordEvent rec (id hc) event value))
        /\ err = option_map RecordingFailed
                  (snd (RecordEvent rec (id hc) event value)))
  /\ (recorder hc = None -> err = None \/ hc' = hc).
Proof.
  intros H.
  assert (Rec : forall h : HandController F Mem Recorder,
             id h = id hc -> recorder h = recorder hc ->
             recordEvent RecordEvent h event value = (hc', err) ->
             (forall e, err = Some e -> (forall r, e <> RecordingFailed r) -> hc' = hc)
             /\ (forall rec,
                   recorder hc = Some rec -> event <> NoEvent ->
                   (err = None \/ exists r, err = Some (RecordingFailed r)) ->
                   recorder hc' = Some (fst (RecordEvent rec (id hc) event value))
                   /\ err = option_map RecordingFailed
                             (snd (RecordEvent rec (id hc) event value)))
             /\ (recorder hc = None -> err = None \/ hc' = hc)).
  { intros h Hid Hrec Hr. unfold recordEvent in Hr. rewrite Hrec, Hid in Hr.
    destruct (recorder hc) as [rec |].
    - destruct (RecordEvent rec (id hc) event value) as [rec' e'] eqn:E.
      injection Hr as <- <-. split; [| split].
      + intros e He Hno. destruct e' as [r |]; [| discriminate].
        injection He as <-. now elim (Hno r).
      + intros rec0 Hrec0 _ _. injection Hrec0 as <-. rewrite E. simpl.
        split; reflexivity.
      + discriminate.
    - injection Hr as <- <-. split; [| split].
      + discriminate.
      + discriminate.
      + intros _. now left. }
  assert (Refused : forall e : InputError RecErr,
             (forall r, e <> RecordingFailed r) ->
             (hc, Some e) = (hc', err) ->
             (forall e0, err = Some e0 -> (forall r, e0 <> RecordingFailed r) -> hc' = hc)
             /\ (forall rec,
                   recorder hc = Some rec -> event <> NoEvent ->
                   (err = None \/ exists r, err = Some (RecordingFailed r)) ->
                   recorder hc' = Some (fst (RecordEvent rec (id hc) event value))
                   /\ err = option_map RecordingFailed
                             (snd (RecordEvent rec (id hc) event value)))
             /\ (recorder hc = None -> err = None \/ hc' = hc)).
  { intros e Hno Heq. injection Heq as <- <-. split; [| split].
    - reflexivity.
    - intros rec _ _ [Hn | (r & Hr)]; [discriminate |].
      injection Hr as ->. now elim (Hno r).
    - intros _. now right. }
  destruct event; cbn [Handle] in H.
  - injection H as <- <-. split; [| split].
    + discriminate.
    + intros rec _ Hne. now elim Hne.
    + intros _. now left.
  - destruct value; try (refine (Refused _ _ H); intros ?; discriminate).
    refine (Rec _ _ _ H); reflexivity.
  - destruct value; try (refine (Refused _ _ H); intros ?; discriminate).
    refine (Rec _ _ _ H); reflexivity.
  - destruct value; try (refine (Refused _ _ H); intros ?; discriminate).
    refine (Rec _ _ _ H); reflexivity.
  - destruct value; try (refine (Refused _ _ H); intros ?; discriminate).
    refine (Rec _ _ _ H); reflexivity.
  - destruct value; try (refine (Refused _ _ H); intros ?; discriminate).
    destruct b; simpl in H; [| destruct (latchFireButton hc)];
      refine (Rec _ _ _ H); reflexivity.
  - destruct value; try (refine (Refused _ _ H); intros ?; discriminate).
    refine (Rec _ _ _ H); reflexivity.
  - destruct value; try (refine (Refused _ _ H); intros ?; discriminate).
    refine (Rec _ _ _ H); reflexivity.
  - destruct value; try (refine (Refused _ _ H); intros ?; discriminate).
    destruct (keyAccepted r).
    + refine (Rec _ _ _ H); reflexivity.
    + refine (Refused _ _ H); intros ?; discriminate.
  - destruct value; try (refine (Refused _ _ H); intros ?; discriminate).
    refine (Rec _ _ _ H); reflexivity.
  - refine (Refused _ _ H); intros ?; discriminate.
  - refine (Refused _ _ H); intros ?; discriminate.
Qed.

(** X10.  The latch of the fire button: while the latch bit is set, the
    release of the button writes nothing to memory, and the unlatch that
    follows leaves the memory as the release leaves it when the latch bit is
    clear; a press writes 0 to the button address whatever the latch, and an
    unlatch while the button is pressed changes nothing. *)
Theorem fire_release_waits_for_unlatch (hc : HandController F Mem Recorder) :
  mem (fst (Handle oneMinus InputDeviceWrite RecordEvent
              (set_latchFireButton true hc) Fire (VBool false)))
  = mem hc
  /\ mem (unlatch InputDeviceWrite
            (fst (Handle oneMinus InputDeviceWrite RecordEvent
                    (set_latchFireButton true hc) Fire (VBool false))))
     = mem (fst (Handle oneMinus InputDeviceWrite RecordEvent
                   (set_latchFireButton false hc) Fire (VBool false)))
  /\ (forall latch : bool,
        mem (fst (Handle oneMinus InputDeviceWrite RecordEvent
                    (set_latchFireButton latch hc) Fire (VBool true)))
        = InputDeviceWrite tia (stick_buttonAddr (hc_stick hc)) 0 0 (mem hc)
        /\ unlatch InputDeviceWrite
             (fst (Handle oneMinus InputDeviceWrite RecordEvent
                     (set_latchFireButton latch hc) Fire (VBool true)))
           = fst (Handle oneMinus InputDeviceWrite RecordEvent
                    (set_latchFireButton latch hc) Fire (VBool true))).
Proof.
  cbn [Handle]. unfold recordEvent, unlatch. simpl.
  destruct (recorder hc) as [rec |]; simpl.
  - split; [| split].
    + destruct (RecordEvent rec (id hc) Fire (VBool false)); reflexivity.
    + destruct (RecordEvent rec (id hc) Fire (VBool false)); reflexivity.
    + intros latch.
      destruct (RecordEvent rec (id hc) Fire (VBool true)); split; reflexivity.
  - split; [reflexivity | split; [reflexivity |]].
    intros latch. split; reflexivity.
Qed.

(** What Handle keeps of the stick: the transform and the mask stay, and an
    axis that is a multiple of 16 below 256 stays one. *)
Lemma Handle_keeps_nibble (hc : HandController F Mem Recorder)
      (event : Event) (value : EventValue F) :
  let hc' := fst (Handle oneMinus InputDeviceWrite RecordEvent hc event value) in
  transform (hc_stick hc') = transform (hc_stick hc)
  /\ stick_addrMask (hc_stick hc') = stick_addrMask (hc_stick hc)
  /\ (0 <= axis (hc_stick hc) < 256 /\ axis (hc_stick hc) mod 16 = 0 ->
      0 <= axis (hc_stick hc') < 256 /\ axis (hc_stick hc') mod 16 = 0).
Proof.
  assert (Move : forall bit b,
             (bit = 16 \/ bit = 32 \/ bit = 64 \/ bit = 128) ->
             let hc' := fst (recordEvent RecordEvent
                               (moveAxis InputDeviceWrite bit b hc) event value) in
             transform (hc_stick hc') = transform (hc_stick hc)
             /\ stick_addrMask (hc_stick hc') = stick_addrMask (hc_stick hc)
             /\ (0 <= axis (hc_stick hc) < 256 /\ axis (hc_stick hc) mod 16 = 0 ->
                 0 <= axis (hc_stick hc') < 256
                 /\ axis (hc_stick hc') mod 16 = 0)).
  { intros bit b Hbit hc'. subst hc'.
    rewrite (proj1 (proj2 (proj2 (proj2 (recordEvent_keeps _ event value))))).
    unfold moveAxis. simpl. split; [reflexivity | split; [reflexivity |]].
    intros [Hr Hm].
    assert (Hv : exists q, 0 <= q < 16 /\ axis (hc_stick hc) = 16 * q).
    { exists (axis (hc_stick hc) / 16).
      pose proof (Z.div_mod (axis (hc_stick hc)) 16). lia. }
    destruct Hv as (q & Hq & ->).
    assert (q = 0 \/ q = 1 \/ q = 2 \/ q = 3 \/ q = 4 \/ q = 5 \/ q = 6 \/ q = 7
            \/ q = 8 \/ q = 9 \/ q = 10 \/ q = 11 \/ q = 12 \/ q = 13 \/ q = 14
            \/ q = 15) as Hcases by lia.
    destruct b;
      repeat (destruct Hcases as [-> | Hcases]);
      try subst q;
      destruct Hbit as [-> | [-> | [-> | ->]]];
      vm_compute; repeat split; intros; discriminate. }
  assert (Keep : forall h : HandController F Mem Recorder,
             hc_stick h = hc_stick hc \/
             (exists b, hc_stick h = hc_stick (set_button b hc)) ->
             let hc' := fst (recordEvent RecordEvent h event value) in
             transform (hc_stick hc') = transform (hc_stick hc)
             /\ stick_addrMask (hc_stick hc') = stick_addrMask (hc_stick hc)
             /\ (0 <= axis (hc_stick hc) < 256 /\ axis (hc_stick hc) mod 16 = 0 ->
                 0 <= axis (hc_stick hc') < 256
                 /\ axis (hc_stick hc') mod 16 = 0)).
  { intros h Hh hc'. subst hc'.
    rewrite (proj1 (proj2 (proj2 (proj2 (recordEvent_keeps h event value))))).
    destruct Hh as [-> | (b & ->)]; simpl;
      (split; [reflexivity | split; [reflexivity | tauto]]). }
  assert (Same : let hc' := hc in
             transform (hc_stick hc') = transform (hc_stick hc)
             /\ stick_addrMask (hc_stick hc') = stick_addrMask (hc_stick hc)
             /\ (0 <= axis (hc_stick hc) < 256 /\ axis (hc_stick hc) mod 16 = 0 ->
                 0 <= axis (hc_stick hc') < 256
                 /\ axis (hc_stick hc') mod 16 = 0)).
  { simpl. split; [reflexivity | split; [reflexivity | tauto]]. }
  destruct event; cbn [Handle];
    try exact Same;
    destruct value; try exact Same;
    try (apply Move; tauto);
    try (apply Keep; left; reflexivity).
  - apply Keep. destruct b; simpl; [right; exists true; reflexivity |].
    destruct (latchFireButton hc); right; exists false; reflexivity.
  - destruct (keyAccepted r); [apply Keep; left; reflexivity | exact Same].
Qed.

Lemma handleEvents_keeps_nibble (events : list (Event * EventValue F)) :
  forall hc : HandController F Mem Recorder,
    0 <= axis (hc_stick hc) < 256 -> axis (hc_stick hc) mod 16 = 0 ->
    let hc' := handleEvents oneMinus InputDeviceWrite RecordEvent events hc in
    transform (hc_stick hc') = transform (hc_stick hc)
    /\ stick_addrMask (hc_stick hc') = stick_addrMask (hc_stick hc)
    /\ 0 <= axis (hc_stick hc') < 256 /\ axis (hc_stick hc') mod 16 = 0.
Proof.
  induction events as [| [event value] rest IH]; intros hc Hr Hm.
  - simpl. repeat split; try reflexivity; lia.
  - cbn [handleEvents].
    destruct (Handle_keeps_nibble hc event value) as (Ht & Hk & Ha).
    destruct (Ha (conj Hr Hm)) as [Hr' Hm'].
    destruct (IH _ Hr' Hm') as (It & Ik & Ir & Im).
    cbv zeta. rewrite It, Ik, Ht, Hk.
    split; [reflexivity | split; [reflexivity | split; [exact Ir | exact Im]]].
Qed.


(** X12.  The charge of the paddle is a byte that only climbs: a recharge
    leaves it as it is or adds one, never takes it past 255 and changes
    nothing at all once it is 255; so after the capacitor is grounded, [n]
    recharges bring the charge to [n] at most. *)
Theorem paddle_charge_climbs_to_255 (hc : HandController F Mem Recorder) :
  0 <= charge (hc_paddle hc) <= 255 ->
  (charge (hc_paddle hc)
   <= charge (hc_paddle (recharge zeroF addSensitivity geF InputDeviceWrite hc))
   <= Z.min (charge (hc_paddle hc) + 1) 255)
  /\ (charge (hc_paddle hc) = 255 ->
      recharge zeroF addSensitivity geF InputDeviceWrite hc = hc)
  /\ (forall n : nat,
        0 <= charge (hc_paddle
                       (Nat.iter n (recharge zeroF addSensitivity geF InputDeviceWrite)
                                 (ground InputDeviceWrite hc)))
        <= Z.min (Z.of_nat n) 255).
Proof.
  assert (Step : forall h : HandController F Mem Recorder,
             0 <= charge (hc_paddle h) <= 255 ->
             charge (hc_paddle h)
             <= charge (hc_paddle (recharge zeroF addSensitivity geF InputDeviceWrite h))
             <= Z.min (charge (hc_paddle h) + 1) 255).
  { intros h Hc. unfold recharge.
    destruct (Z.ltb_spec (charge (hc_paddle h)) 255) as [Hlt | Hge]; [| lia].
    simpl.
    destruct (geF (addSensitivity (ticks (hc_paddle h))) (resistance (hc_paddle h)));
      simpl; [| lia].
    unfold uint8. rewrite Z.mod_small by lia. lia. }
  intros Hc. split; [apply Step; exact Hc |]. split.
  - intros Hfull. unfold recharge. rewrite Hfull. reflexivity.
  - induction n as [| n IH].
    + simpl. lia.
    + rewrite Nat.iter_succ.
      set (h := Nat.iter n (recharge zeroF addSensitivity geF InputDeviceWrite)
                         (ground InputDeviceWrite hc)) in *.
      assert (Hh : 0 <= charge (hc_paddle h) <= 255) by lia.
      pose proof (Step h Hh). lia.
Qed.

End Controller.

(** The theorem on hand controller one with a recorder attached: the key
    '0' is refused and nothing changes; a press of Left is recorded. *)
Lemma Handle_refuses_or_records_witness :
  (forall hc',
      Handle (fun f : unit => f) logWrite countingRecorder
             (set_recorder (Some 0%nat) (loggedController1 false))
             KeyboardDown (VRune 48)
      = (hc', Some (BadInputEventType KeyboardDown "numeric rune or '*' or '#'")) ->
      hc' = set_recorder (Some 0%nat) (loggedController1 false))
  /\ recorder (fst (Handle (fun f : unit => f) logWrite countingRecorder
                          (set_recorder (Some 0%nat) (loggedController1 false))
                          Left (VBool true)))
     = Some 1%nat.
Proof.
  split.
  - intros hc' H.
    apply (proj1 (Handle_refuses_or_records _ _ _ _ _ _ _ _ _ _ _ _ H)
                 (BadInputEventType KeyboardDown "numeric rune or '*' or '#'")
                 eq_refl).
    intros r. discriminate.
  - apply (proj1 (proj2 (Handle_refuses_or_records unit WriteLog nat unit
                           (fun f : unit => f) logWrite countingRecorder
                           (set_recorder (Some 0%nat) (loggedController1 false))
                           _ Left (VBool true) None eq_refl)) 0%nat eq_refl).
    + discriminate.
    + now left.
Defined.

(** The theorem on a press of Left from the rest position: bit 6 of the
    axis goes off. *)
Lemma direction_event_changes_its_own_bit_witness :
  axis (hc_stick (fst (Handle (fun f : unit => f) logWrite countingRecorder
                              (loggedController1 false) Left (VBool true))))
  = 176.
Proof.
  apply (proj1 (direction_event_changes_its_own_bit unit WriteLog nat unit
                  (fun f : unit => f) logWrite countingRecorder
                  (loggedController1 false) Left 64 true eq_refl)).
Defined.

(** The theorem on a paddle whose every recharge adds to the charge: 300
    recharges after the grounding do not take the charge past 255. *)
Lemma paddle_charge_climbs_to_255_witness :
  0 <= charge (hc_paddle
                 (Nat.iter 300 (recharge tt (fun f : unit => f) (fun _ _ => true)
                                         logWrite)
                           (ground logWrite (loggedController1 false))))
    <= 255.
Proof.
  assert (H0 : 0 <= charge (hc_paddle (loggedController1 false)) <= 255)
    by (simpl; lia).
  exact (proj2 (proj2 (paddle_charge_climbs_to_255 unit WriteLog nat tt
                         (fun f : unit => f) (fun _ _ => true) logWrite
                         (loggedController1 false) H0)) 300%nat).
Defined.

End HandControllerTheory.

(* ===================================================================== *)
(** * More properties of the TIA step                                     *)
(* ===================================================================== *)

Module TIAStepTheory.
Import GoLib Errors TIA TIAMethods TIATheory.

Section Chip.

Variables (ChipBus DelayQ Video Audio TV ChipData Ev : Type).
Variables m m' : Methods ChipBus DelayQ Video Audio TV ChipData Ev.

(** Without a chip write in hand the three service parts do nothing. *)
Lemma serviceVideo_idle (d : ChipData) (t : TIA ChipBus DelayQ Video Audio TV Ev) :
  serviceVideo m false d t = (t, false).
Proof. reflexivity. Qed.

Lemma serviceLate_idle (d : ChipData) (t : TIA ChipBus DelayQ Video Audio TV Ev) :
  serviceLate m false d t = (t, false).
Proof. reflexivity. Qed.

(** Once the chip write is taken (or there is none), the rest of Step is
    the clockwork. *)
Lemma Step_after_service (sm : bool) (t t1 : TIA ChipBus DelayQ Video Audio TV Ev)
      (d : ChipData) :
  serviceTIA m sm t = (t1, false, d) ->
  Step m sm t
  = sendSignal m
      (mixAudio m (resolvePixel m (tickVideo m (tickHsync m (tickClocks m t1))))).
Proof.
  intros H. unfold Step, beforeSignal. rewrite H.
  rewrite serviceVideo_idle, serviceLate_idle. reflexivity.
Qed.

Hypothesis clockwork : sameClockwork m m'.

Lemma clockwork_same (t : TIA ChipBus DelayQ Video Audio TV Ev) :
  sendSignal m
    (mixAudio m (resolvePixel m (tickVideo m (tickHsync m (tickClocks m t)))))
  = sendSignal m'
      (mixAudio m' (resolvePixel m' (tickVideo m' (tickHsync m' (tickClocks m' t))))).
Proof.
  destruct clockwork as (Hb & Hd & Hs & Ht & Hp & Hm & Hg).
  assert (E1 : forall x, tickClocks m x = tickClocks m' x).
  { intros x. unfold tickClocks. apply Hd. }
  assert (E2 : forall x, tickHsync m x = tickHsync m' x).
  { intros x. unfold tickHsync, hsyncDecode, schedule.
    repeat (break_goal; simpl); try reflexivity; now rewrite Hs. }
  assert (E3 : forall x, tickVideo m x = tickVideo m' x).
  { intros x. unfold tickVideo. now rewrite Ht. }
  assert (E4 : forall x, resolvePixel m x = resolvePixel m' x).
  { intros x. unfold resolvePixel. now rewrite Hp, Hb. }
  assert (E5 : forall x, mixAudio m x = mixAudio m' x).
  { intros x. unfold mixAudio. now rewrite Hm. }
  assert (E6 : forall x, sendSignal m x = sendSignal m' x).
  { intros x. unfold sendSignal. now rewrite Hg. }
  now rewrite E1, E2, E3, E4, E5, E6.
Qed.

(** X13.  A step that is not asked to service memory never reads the chip
    bus and never consults a register handler: it is the same step for any
    two sets of methods with the same clockwork.  A step that is asked to,
    and finds no chip write pending, is the step that is not asked to, on the
    bus the read leaves. *)
Theorem Step_without_a_write_is_the_clockwork
        (t : TIA ChipBus DelayQ Video Audio TV Ev) :
  Step m false t = Step m' false t
  /\ (forall bus d,
        ChipRead m (mem t) = (bus, false, d) ->
        Step m true t = Step m false (set_mem bus t)).
Proof.
  split.
  - rewrite (Step_after_service false t _ (zeroChipData m) eq_refl).
    unfold Step, beforeSignal. cbn [serviceTIA].
    apply clockwork_same.
  - intros bus d H.
    rewrite (Step_after_service true t
               (set_mem bus (set_videoCycles (wrapInt (videoCycles t + 1)) t)) d).
    + now rewrite (Step_after_service false (set_mem bus t) _ (zeroChipData m) eq_refl).
    + unfold serviceTIA. simpl. now rewrite H.
Qed.

End Chip.

Section FirstTaker.

Variables (ChipBus DelayQ Video Audio TV ChipData Ev : Type).
Variables m m' : Methods ChipBus DelayQ Video Audio TV ChipData Ev.


End FirstTaker.

Section Flags.

Variables (ChipBus DelayQ Video Audio TV ChipData Ev : Type).
Variable m : Methods ChipBus DelayQ Video Audio TV ChipData Ev.

(** Resolving the pixel writes the pixel and the debugging pixel only. *)
Lemma resolvePixel_flags (t : TIA ChipBus DelayQ Video Audio TV Ev) :
  VSync (sig (resolvePixel m t)) = VSync (sig t)
  /\ VBlank (sig (resolvePixel m t)) = VBlank (sig t)
  /\ CBurst (sig (resolvePixel m t)) = CBurst (sig t)
  /\ HSync (sig (resolvePixel m t)) = HSync (sig t)
  /\ HSyncSimple (sig (resolvePixel m t)) = HSyncSimple (sig t).
Proof.
  unfold resolvePixel. destruct (VideoPixel m t) as [[v pc] dc].
  cbn. destruct (hblank t); cbn; repeat split; reflexivity.
Qed.

(** Mixing the audio writes the audio fields only. *)
Lemma mixAudio_flags (t : TIA ChipBus DelayQ Video Audio TV Ev) :
  VSync (sig (mixAudio m t)) = VSync (sig t)
  /\ VBlank (sig (mixAudio m t)) = VBlank (sig t)
  /\ CBurst (sig (mixAudio m t)) = CBurst (sig t)
  /\ HSync (sig (mixAudio m t)) = HSync (sig t)
  /\ HSyncSimple (sig (mixAudio m t)) = HSyncSimple (sig t).
Proof.
  unfold mixAudio. destruct (Mix m t) as [[a u] x].
  cbn. repeat split; reflexivity.
Qed.

(** The synchronisation flags of the signal from the HSYNC part of Step to
    the sending of the signal. *)
Lemma flags_after_hsync (sm : bool) (t : TIA ChipBus DelayQ Video Audio TV Ev) :
  let th := tickHsync m (atHsync m sm t) in
  let tb := beforeSignal m sm t in
  VSync (sig tb) = VSync (sig th) /\ VBlank (sig tb) = VBlank (sig th)
  /\ CBurst (sig tb) = CBurst (sig th) /\ HSync (sig tb) = HSync (sig th)
  /\ HSyncSimple (sig tb) = HSyncSimple (sig th).
Proof.
  intros th tb. subst th tb.
  destruct (beforeSignal_eq _ _ _ _ _ _ _ m sm t) as (sm2 & d & ->).
  destruct (atVideoTick_eq _ _ _ _ _ _ _ m sm t) as (sm1 & d1 & Ha).
  unfold atPixel. rewrite Ha.
  generalize (tickHsync m (atHsync m sm t)). intros th.
  pose proof (serviceVideo_frame _ _ _ _ _ _ _ m sm1 d1 th) as Hv.
  cbv zeta in Hv. destruct Hv as (_ & _ & _ & _ & _ & _ & _ & Hsig & _).
  revert Hsig. generalize (fst (serviceVideo m sm1 d1 th)). intros tv1 Hsig.
  pose proof (tickVideo_frame _ _ _ _ _ _ _ m tv1) as Ht.
  cbv zeta in Ht. destruct Ht as (_ & _ & _ & _ & _ & _ & Hsig2 & _).
  revert Hsig2. generalize (tickVideo m tv1). intros tv2 Hsig2.
  destruct (resolvePixel_flags tv2) as (P1 & P2 & P3 & P4 & P5).
  revert P1 P2 P3 P4 P5. generalize (resolvePixel m tv2).
  intros tv3 P1 P2 P3 P4 P5.
  pose proof (serviceLate_frame _ _ _ _ _ _ _ m sm2 d tv3) as Hl.
  cbv zeta in Hl. destruct Hl as (_ & _ & _ & _ & _ & _ & Hsig4 & _).
  revert Hsig4. generalize (fst (serviceLate m sm2 d tv3)). intros tv4 Hsig4.
  destruct (mixAudio_flags tv4) as (M1 & M2 & M3 & M4 & M5).
  rewrite M1, M2, M3, M4, M5, Hsig4, P1, P2, P3, P4, P5, Hsig2, Hsig.
  repeat split; reflexivity.
Qed.


End Flags.

(** The clockwork theorem on two sets of methods that differ in their video
    registers, and on a bus with no write pending. *)
Lemma Step_without_a_write_is_the_clockwork_witness :
  Step (pendingMethods false) false (countingTIA fallingPhi1 3)
  = Step (pendingMethodsDeaf false) false (countingTIA fallingPhi1 3)
  /\ Step (bareMethods None) true (bareTIA fallingPhi1 3 false true 255)
     = Step (bareMethods None) false
            (set_mem tt (bareTIA fallingPhi1 3 false true 255)).
Proof.
  assert (H1 : sameClockwork (pendingMethods false) (pendingMethodsDeaf false))
    by (repeat split; intros; reflexivity).
  assert (H2 : sameClockwork (bareMethods None) (bareMethods None))
    by (repeat split; intros; reflexivity).
  split.
  - exact (proj1 (Step_without_a_write_is_the_clockwork _ _ _ _ _ _ _
                    (pendingMethods false) (pendingMethodsDeaf false) H1
                    (countingTIA fallingPhi1 3))).
  - exact (proj2 (Step_without_a_write_is_the_clockwork _ _ _ _ _ _ _
                    (bareMethods None) (bareMethods None) H2
                    (bareTIA fallingPhi1 3 false true 255)) tt tt eq_refl).
Defined.



End TIAStepTheory.

(* ===================================================================== *)
(** * More on the patcher: files joined, addresses out of range, CRLF     *)
(* ===================================================================== *)

Module PatchFileTheory.
Import GoLib Patch PatchFormat PatchTheory.

Lemma Split_nonempty (s : string) (sep : ascii) : Split s sep <> [].
Proof.
  destruct s as [| c r]; simpl; [discriminate |].
  destruct (Ascii.eqb c sep); [discriminate |].
  destruct (Split r sep); discriminate.
Qed.

(** Splitting at a separator splits the pieces on either side of it. *)
Lemma Split_app (a b : string) (sep : ascii) :
  Split (a ++ String sep b)%string sep = Split a sep ++ Split b sep.
Proof.
  induction a as [| c r IH]; simpl.
  - rewrite Ascii.eqb_refl. reflexivity.
  - destruct (Ascii.eqb c sep); [now rewrite IH |].
    rewrite IH. destruct (Split r sep) as [| h t] eqn:E.
    + now apply Split_nonempty in E.
    + reflexivity.
Qed.

(** A byte added at the end goes to the last piece. *)
Lemma Split_snoc (s : string) (x sep : ascii) :
  Ascii.eqb x sep = false ->
  exists front lst,
    Split s sep = front ++ [lst]
    /\ Split (s ++ String x "")%string sep = front ++ [(lst ++ String x "")%string].
Proof.
  intros Hx. induction s as [| c r (front & lst & H1 & H2)]; simpl.
  - exists [], ""%string. rewrite Hx. split; reflexivity.
  - destruct (Ascii.eqb c sep).
    + exists (""%string :: front), lst. rewrite H1, H2. split; reflexivity.
    + rewrite H1, H2. destruct front as [| f fs]; simpl.
      * exists [], (String c lst). split; reflexivity.
      * exists (String c f :: fs), lst. split; reflexivity.
Qed.

Lemma Split_plain (s : string) (sep : ascii) :
  Forall (fun c => Ascii.eqb c sep = false) (list_ascii_of_string s) ->
  Split s sep = [s].
Proof.
  induction s as [| c r IH]; simpl; intros H; [reflexivity |].
  inversion H as [| ? ? Hc Hr]; subst.
  rewrite Hc, (IH Hr). reflexivity.
Qed.

(** A hexadecimal digit is no white space, no separator and no sign, and no
    white space rune starts or ends with it. *)
Lemma hexDigit_plain (c : ascii) :
  hexDigit c <> None ->
  asciiSpace c = false /\ IsSpaceByte c = false
  /\ Ascii.eqb c ":"%char = false /\ Ascii.eqb c "-"%char = false
  /\ Ascii.eqb c "+"%char = false
  /\ (forall r, dropSpace unicodeSpaces (c :: r) = None)
  /\ (forall r, dropSpace (List.map (@List.rev Z) unicodeSpaces) (c :: r) = None).
Proof.
  intros H.
  destruct c as [b0 b1 b2 b3 b4 b5 b6 b7];
    destruct b0, b1, b2, b3, b4, b5, b6, b7;
    try (exfalso; apply H; reflexivity);
    repeat split; intros; reflexivity.
Qed.

Lemma hexDigits_all (s : string) :
  forall acc v,
    hexDigits s acc = Some v ->
    Forall (fun c => hexDigit c <> None) (list_ascii_of_string s).
Proof.
  induction s as [| c r IH]; simpl; intros acc v H; [constructor |].
  destruct (hexDigit c) as [d |] eqn:Hd; [| discriminate].
  constructor; [rewrite Hd; discriminate | exact (IH _ _ H)].
Qed.

(** TrimSpace leaves a string of hexadecimal digits as it is. *)
Lemma TrimSpace_hex (s : string) :
  Forall (fun c => hexDigit c <> None) (list_ascii_of_string s) ->
  TrimSpace s = s.
Proof.
  intros Hall. unfold TrimSpace. cbv zeta.
  set (U' := List.map (@List.rev Z) unicodeSpaces). set (U := unicodeSpaces).
  assert (Hfront : forall l,
             Forall (fun c => hexDigit c <> None) l ->
             trimFront (List.length l) U l = l
             /\ trimFront (List.length l) U' l = l).
  { intros l Hl. destruct l as [| c r]; [split; reflexivity |].
    inversion Hl as [| ? ? Hc _]; subst.
    destruct (hexDigit_plain c Hc) as (_ & _ & _ & _ & _ & Hd & Hd').
    cbn [List.length trimFront]. subst U U'. rewrite Hd, Hd'.
    split; reflexivity. }
  destruct (Hfront _ Hall) as [-> _].
  assert (Hrev : Forall (fun c => hexDigit c <> None)
                        (List.rev (list_ascii_of_string s)))
    by (apply Forall_rev; exact Hall).
  destruct (Hfront _ Hrev) as [_ ->].
  rewrite rev_involutive. apply string_of_list_ascii_of_string.
Qed.

Section TrimCR.

(** The encodings of the white space runes: none is empty and none holds
    the byte of the carriage return. *)
Variable seqs : list (list Z).
Hypothesis seqs_good :
  Forall (fun p => p <> [] /\ Forall (fun b => b <> 13) p) seqs.

Lemma dropPrefix_snoc (p : list Z) :
  Forall (fun b => b <> 13) p ->
  forall s,
    dropPrefix p (s ++ [cr])
    = option_map (fun r => r ++ [cr]) (dropPrefix p s).
Proof.
  induction p as [| b p' IH]; intros Hp s.
  - destruct s; reflexivity.
  - inversion Hp as [| ? ? Hb Hp']; subst.
    assert (E : (13 =? b) = false) by (apply Z.eqb_neq; congruence).
    destruct s as [| c s']; cbn [app dropPrefix].
    + change (byteVal cr) with 13. rewrite E. reflexivity.
    + destruct (byteVal c =? b); [exact (IH Hp' s') | reflexivity].
Qed.

Lemma dropPrefix_length (p : list Z) :
  forall s r,
    dropPrefix p s = Some r ->
    List.length s = (List.length p + List.length r)%nat.
Proof.
  induction p as [| b p' IH]; intros s r H.
  - destruct s; injection H as <-; reflexivity.
  - destruct s as [| c s']; simpl in H; [discriminate |].
    destruct (byteVal c =? b); [| discriminate].
    simpl. now rewrite (IH _ _ H).
Qed.

Lemma dropAnyPrefix_snoc (s : list ascii) :
  dropAnyPrefix seqs (s ++ [cr])
  = option_map (fun r => r ++ [cr]) (dropAnyPrefix seqs s).
Proof.
  clear -seqs_good. revert seqs_good.
  induction seqs as [| p ps IH]; intros Hgood; simpl; [reflexivity |].
  inversion Hgood as [| ? ? [_ Hp] Hps]; subst.
  rewrite (dropPrefix_snoc p Hp).
  destruct (dropPrefix p s); simpl; [reflexivity | exact (IH Hps)].
Qed.

Lemma dropAnyPrefix_shorter (s r : list ascii) :
  dropAnyPrefix seqs s = Some r -> (List.length r < List.length s)%nat.
Proof.
  clear -seqs_good. revert seqs_good.
  induction seqs as [| p ps IH]; intros Hgood; simpl; [discriminate |].
  inversion Hgood as [| ? ? [Hne _] Hps]; subst.
  destruct (dropPrefix p s) as [r' |] eqn:E.
  - intros H; injection H as <-.
    apply dropPrefix_length in E.
    destruct p; [now elim Hne | simpl in E; lia].
  - exact (IH Hps).
Qed.

Lemma dropSpace_snoc (c : ascii) (r : list ascii) :
  dropSpace seqs ((c :: r) ++ [cr])
  = option_map (fun x => x ++ [cr]) (dropSpace seqs (c :: r)).
Proof.
  unfold dropSpace. cbn [app].
  destruct (asciiSpace c); [reflexivity |].
  exact (dropAnyPrefix_snoc (c :: r)).
Qed.

Lemma dropSpace_shorter (s r : list ascii) :
  dropSpace seqs s = Some r -> (List.length r < List.length s)%nat.
Proof.
  unfold dropSpace. destruct s as [| c s']; [discriminate |].
  destruct (asciiSpace c).
  - intros H; injection H as <-. simpl. lia.
  - apply dropAnyPrefix_shorter.
Qed.

(** Trimming the front of a list that ends in a carriage return: what is
    left of the list and the carriage return, or nothing. *)
Lemma trimFront_snoc (n : nat) :
  forall s,
    (List.length s <= n)%nat ->
    trimFront (S n) seqs (s ++ [cr])
    = match trimFront n seqs s with
      | [] => []
      | x => x ++ [cr]
      end.
Proof.
  induction n as [| n' IH]; intros s Hlen.
  - destruct s; [reflexivity | simpl in Hlen; lia].
  - destruct s as [| c r].
    + reflexivity.
    + change (trimFront (S (S n')) seqs ((c :: r) ++ [cr]))
        with (match dropSpace seqs ((c :: r) ++ [cr]) with
              | Some x => trimFront (S n') seqs x
              | None => (c :: r) ++ [cr]
              end).
      change (trimFront (S n') seqs (c :: r))
        with (match dropSpace seqs (c :: r) with
              | Some x => trimFront n' seqs x
              | None => c :: r
              end).
      rewrite dropSpace_snoc.
      destruct (dropSpace seqs (c :: r)) as [x |] eqn:E; cbn [option_map].
      * apply IH. apply dropSpace_shorter in E. simpl in E, Hlen. lia.
      * reflexivity.
Qed.

End TrimCR.

Lemma unicodeSpaces_good :
  Forall (fun p => p <> [] /\ Forall (fun b => b <> 13) p) unicodeSpaces.
Proof.
  unfold unicodeSpaces.
  repeat (constructor; [split; [discriminate | repeat constructor; discriminate] |]).
  constructor.
Qed.

Lemma list_ascii_of_string_app (a b : string) :
  list_ascii_of_string (a ++ b)%string
  = list_ascii_of_string a ++ list_ascii_of_string b.
Proof. induction a as [| c r IH]; simpl; [reflexivity | now rewrite IH]. Qed.

(** TrimSpace removes a carriage return at the end. *)
Lemma TrimSpace_CR (s : string) :
  TrimSpace (s ++ String cr "")%string = TrimSpace s.
Proof.
  unfold TrimSpace. cbv zeta.
  set (U' := List.map (@List.rev Z) unicodeSpaces).
  rewrite list_ascii_of_string_app. cbn [list_ascii_of_string].
  set (l := list_ascii_of_string s).
  replace (List.length (l ++ [cr])) with (S (List.length l))
    by (rewrite length_app; simpl; lia).
  rewrite (trimFront_snoc unicodeSpaces unicodeSpaces_good (List.length l) l
                          (Nat.le_refl _)).
  destruct (trimFront (List.length l) unicodeSpaces l) as [| a l1]; [reflexivity |].
  rewrite rev_app_distr. cbn [List.rev app].
  set (r1 := List.rev l1 ++ [a]).
  change (trimFront (List.length (cr :: r1)) U' (cr :: r1))
    with (trimFront (List.length r1) U' r1).
  reflexivity.
Qed.

(** The writes of a line do not change with a carriage return at its end. *)
Lemma lineWrites_CR (line : string) :
  lineWrites (line ++ String cr "")%string = lineWrites line.
Proof.
  destruct line as [| c r]; [reflexivity |].
  unfold lineWrites, pokeLine.
  change (ignoredLine (String c r ++ String cr "")%string)
    with (ignoredLine (String c r)).
  destruct (ignoredLine (String c r)); [reflexivity |].
  destruct (Split_snoc (String c r) cr pokeLineSeparator eq_refl)
    as (front & lst & -> & ->).
  destruct front as [| p0 [| p1 fs]]; cbn [app].
  - reflexivity.
  - rewrite TrimSpace_CR. reflexivity.
  - destruct fs; reflexivity.
Qed.

Section Patcher.

Variables (Cart E : Type).
Variable cartPatch : Cart -> Z -> Z -> Cart * option E.

(** The flag the loop starts with is only or-ed into its result. *)
Lemma patchLines_flag (lines : list string) (mem : Cart) (patched : bool) :
  patchLines cartPatch lines mem patched
  = (let '(m, q, e) := patchLines cartPatch lines mem false in
     (m, patched || q, e)).
Proof.
  rewrite !patchLines_applies. unfold loopResult.
  destruct (applyWrites cartPatch (flat_map lineWrites lines) mem 0)
    as [[m n] e].
  reflexivity.
Qed.

Lemma patchLines_app (l1 l2 : list string) :
  forall mem patched,
    patchLines cartPatch (l1 ++ l2) mem patched
    = match patchLines cartPatch l1 mem patched with
      | (m, q, Some e) => (m, q, Some e)
      | (m, q, None) => patchLines cartPatch l2 m q
      end.
Proof.
  induction l1 as [| line rest IH]; intros mem patched; simpl.
  - reflexivity.
  - destruct (patchLine cartPatch line mem patched) as [[m q] [e |]];
      [reflexivity | apply IH].
Qed.

(** X16.  Patch files compose: patching with the file made of [a], a
    newline and [b] is patching with [a] and then, if that gave no error,
    patching the result with [b]; the boolean is the disjunction of the two.
    If [a] gives an error nothing of [b] is applied. *)
Theorem CartridgeMemory_of_joined_files (mem : Cart) (a b : string) :
  CartridgeMemory cartPatch mem (Contents (a ++ String newline b)%string)
  = match CartridgeMemory cartPatch mem (Contents a) with
    | (m1, p1, Some e) => (m1, p1, Some e)
    | (m1, p1, None) =>
        let '(m2, p2, e) := CartridgeMemory cartPatch m1 (Contents b) in
        (m2, p1 || p2, e)
    end.
Proof.
  unfold CartridgeMemory. rewrite Split_app, patchLines_app.
  destruct (patchLines cartPatch (Split a newline) mem false)
    as [[m1 p1] [e |]]; [reflexivity |].
  apply patchLines_flag.
Qed.

(** X17.  The address of a poke line is read as a signed 16-bit number: a
    line whose address is an unsigned hexadecimal number of 8000 or more is
    ignored, whatever follows the colon; the cartridge and the flag are
    unchanged and there is no error. *)
Theorem address_above_7fff_is_ignored
        (addr rest : string) (un : Z) (mem : Cart) (patched : bool) :
  hexDigits addr 0 = Some un ->
  32768 <= un ->
  patchLine cartPatch (addr ++ String pokeLineSeparator rest)%string mem patched
  = (mem, patched, None).
Proof.
  intros Hd Hun.
  destruct addr as [| c r]; [simpl in Hd; injection Hd as <-; lia |].
  pose proof (hexDigits_all _ _ _ Hd) as Hall.
  pose proof Hall as Hall'.
  cbn [list_ascii_of_string] in Hall'.
  inversion Hall' as [| ? ? Hc Hr]; subst.
  destruct (hexDigit_plain c Hc) as (_ & Hsp & Hcol & Hm & Hp & _).
  unfold patchLine.
  change (String c r ++ String pokeLineSeparator rest)%string
    with (String c (r ++ String pokeLineSeparator rest)%string) at 1.
  cbv beta iota. unfold commentLeader. rewrite Hm, Hsp. cbn [orb].
  rewrite Split_app.
  rewrite (Split_plain (String c r)).
  2:{ eapply Forall_impl; [| exact Hall].
      intros x Hx. exact (proj1 (proj2 (proj2 (hexDigit_plain x Hx)))). }
  cbn [app].
  destruct (Split rest pokeLineSeparator) as [| h t] eqn:Hrest;
    [now apply Split_nonempty in Hrest |].
  destruct t; [| reflexivity].
  rewrite (TrimSpace_hex _ Hall).
  unfold ParseInt16. rewrite Hp, Hm. cbn [orb negb andb].
  unfold parseHex. rewrite Hd.
  destruct (32768 <=? un) eqn:Hle; [reflexivity | apply Z.leb_gt in Hle; lia].
Qed.

(** X18.  A patch file with CRLF line ends patches as the file with LF line
    ends: when every line of [a] is the line of [b] at the same place, or
    that line with a carriage return added, the two files give the same
    cartridge, the same boolean and the same error. *)
Theorem CRLF_file_patches_as_LF_file (mem : Cart) (a b : string) :
  Forall2 (fun la lb => la = lb \/ la = (lb ++ String cr "")%string)
          (Split a newline) (Split b newline) ->
  CartridgeMemory cartPatch mem (Contents a)
  = CartridgeMemory cartPatch mem (Contents b).
Proof.
  intros H. unfold CartridgeMemory.
  rewrite !patchLines_applies.
  assert (Hw : flat_map lineWrites (Split a newline)
               = flat_map lineWrites (Split b newline)).
  { induction H as [| la lb las lbs [-> | ->] _ IH]; cbn [flat_map];
      [reflexivity | now rewrite IH | now rewrite lineWrites_CR, IH]. }
  rewrite Hw. reflexivity.
Qed.

End Patcher.

(** The address theorem on the line [8000: 01] and a cartridge of twenty
    bytes: the line is ignored, the mapper is not called and gives no
    error. *)
Lemma address_above_7fff_is_ignored_witness :
  patchLine romPatch "8000: 01" (repeat 0 20) false = (repeat 0 20, false, None).
Proof.
  apply (address_above_7fff_is_ignored RomCart unit romPatch
           "8000" " 01" 32768 (repeat 0 20) false).
  - reflexivity.
  - lia.
Defined.

(** The CRLF theorem on a file of two poke lines. *)
Lemma CRLF_file_patches_as_LF_file_witness :
  CartridgeMemory romPatch (repeat 0 20)
    (Contents (String.concat (String cr (String newline ""))
                             ["02: 0a"; "03: 0b"; ""])%string)
  = CartridgeMemory romPatch (repeat 0 20)
      (Contents (String.concat (String newline "") ["02: 0a"; "03: 0b"; ""])%string).
Proof.
  apply (CRLF_file_patches_as_LF_file RomCart unit romPatch (repeat 0 20)).
  repeat (constructor; [(right; reflexivity) || (left; reflexivity) |]).
  constructor.
Defined.

End PatchFileTheory.
